(** * The streaming completion layer of snow-cli

    A shallow embedding of
      - [source/utils/core/retryUtils.ts]  (retry orchestrator, JSON repair),
      - the stream guard module            (idle-timeout guard),
      - [source/api/{anthropic,chat,responses,gemini}.ts] (SSE decode loops and
        the per-provider state machines),
    followed by the properties of the layer.

    Conventions of the embedding.
      - JavaScript text is a [string] of bytes.  Case mapping, white space and
        the regular-expression classes act on the ASCII range, which is where
        every pattern of the sources lives.
      - A promise that rejects or a statement that throws is the constructor
        [Throw] of [result]; an asynchronous generator is the list of the
        values it yields together with the way it ends.
      - The environment of a run (abort signal, timer callbacks, clock) is an
        explicit argument. *)

From Stdlib Require Import String Ascii List ZArith Lia Bool Arith.
Set Warnings "-register-all".
Import ListNotations.
Local Open Scope string_scope.
Local Open Scope list_scope.
Local Open Scope nat_scope.

Infix "+++" := String.append (right associativity, at level 60).

(* ================================================================== *)
(** ** JavaScript strings *)
(* ================================================================== *)

Module Text.

Definition is_empty (s : string) : bool :=
  match s with EmptyString => true | String _ _ => false end.

Definition char_between (lo hi : nat) (c : ascii) : bool :=
  let n := nat_of_ascii c in (lo <=? n) && (n <=? hi).

Definition is_upper : ascii -> bool := char_between 65 90.
Definition is_lower : ascii -> bool := char_between 97 122.
Definition is_digit : ascii -> bool := char_between 48 57.

Definition lower_char (c : ascii) : ascii :=
  if is_upper c then ascii_of_nat (nat_of_ascii c + 32) else c.

(** [String.prototype.toLowerCase] *)
Fixpoint toLowerCase (s : string) : string :=
  match s with
  | EmptyString => EmptyString
  | String c s' => String (lower_char c) (toLowerCase s')
  end.

(** [s.startsWith(p)] *)
Fixpoint startsWith (p s : string) : bool :=
  match p, s with
  | EmptyString, _ => true
  | String a p', String b s' => Ascii.eqb a b && startsWith p' s'
  | String _ _, EmptyString => false
  end.

(** [s.includes(p)] *)
Fixpoint includes (p s : string) : bool :=
  startsWith p s ||
  match s with
  | EmptyString => false
  | String _ s' => includes p s'
  end.

(** White space and line terminators stripped by [trim] and matched by the
    class [\s]: TAB, LF, VT, FF, CR, SPACE. *)
Definition is_space (c : ascii) : bool :=
  let n := nat_of_ascii c in ((9 <=? n) && (n <=? 13)) || (n =? 32).

Fixpoint trimStart (s : string) : string :=
  match s with
  | EmptyString => EmptyString
  | String c s' => if is_space c then trimStart s' else s
  end.

Fixpoint trimEnd (s : string) : string :=
  match s with
  | EmptyString => EmptyString
  | String c s' =>
      let t := trimEnd s' in
      if is_space c && is_empty t then EmptyString else String c t
  end.

(** [s.trim()] *)
Definition trim (s : string) : string := trimEnd (trimStart s).

(** [s.slice(n)] for [0 <= n] *)
Fixpoint slice (n : nat) (s : string) : string :=
  match n, s with
  | O, _ => s
  | S n', String _ s' => slice n' s'
  | S _, EmptyString => EmptyString
  end.

(** [s.substring(0, n)] *)
Fixpoint substring0 (n : nat) (s : string) : string :=
  match n, s with
  | S n', String c s' => String c (substring0 n' s')
  | _, _ => EmptyString
  end.

(** [c.repeat(n)] for a one-character string *)
Fixpoint repeat (c : ascii) (n : nat) : string :=
  match n with O => EmptyString | S n' => String c (repeat c n') end.

(** number of occurrences of a character: [(s.match(/c/g) || []).length] *)
Fixpoint count (c : ascii) (s : string) : nat :=
  match s with
  | EmptyString => O
  | String a s' => (if Ascii.eqb a c then 1 else 0) + count c s'
  end.

Definition LF : ascii := ascii_of_nat 10.
Definition DQ : ascii := ascii_of_nat 34.

(** [s.split('\n')]: never empty, the last piece is what follows the last
    line feed. *)
Fixpoint split_lines (s : string) : list string :=
  match s with
  | EmptyString => [EmptyString]
  | String c s' =>
      let r := split_lines s' in
      if Ascii.eqb c LF then EmptyString :: r
      else match r with
           | h :: t => String c h :: t
           | [] => [String c EmptyString]
           end
  end.

(** [lines.pop() || ''] together with what is left in [lines] *)
Fixpoint pop (l : list string) : list string * string :=
  match l with
  | [] => ([], EmptyString)
  | [x] => ([], x)
  | x :: l' => let (i, z) := pop l' in (x :: i, z)
  end.

(** Literals that contain a double quote are written with an apostrophe in
    its place. *)
Fixpoint qq (s : string) : string :=
  match s with
  | EmptyString => EmptyString
  | String c s' => String (if Ascii.eqb c "'"%char then DQ else c) (qq s')
  end.

(** Decimal rendering of a natural number. *)
Definition digit_char (n : nat) : ascii := ascii_of_nat (48 + n).

Fixpoint nat_digits (fuel n : nat) (acc : string) : string :=
  match fuel with
  | O => acc
  | S f =>
      let acc' := String (digit_char (n mod 10)) acc in
      if n <? 10 then acc' else nat_digits f (n / 10) acc'
  end.

Definition of_nat (n : nat) : string := nat_digits (S n) n EmptyString.

End Text.

(* ================================================================== *)
(** ** Regular expressions

    A backtracking matcher for the fragment the sources use: character
    classes, sequence, alternation, greedy repetition, one capture group and
    the two anchors.  Matching is leftmost, greedy, and an iteration of a
    repetition has to consume input, as in ECMAScript. *)
(* ================================================================== *)

Module Regex.

Inductive regex : Type :=
| Cls (p : ascii -> bool)
| Eps
| Seq (a b : regex)
| Alt (a b : regex)
| Star (a : regex)
| Group (a : regex)
| Bos
| Eos.

Definition Plus (a : regex) : regex := Seq a (Star a).

Definition chr (c : ascii) : regex := Cls (Ascii.eqb c).
(** a character under the flag [i] *)
Definition chr_i (c : ascii) : regex :=
  Cls (fun x => Ascii.eqb (Text.lower_char x) (Text.lower_char c)).

Fixpoint lit_with (f : ascii -> regex) (s : string) : regex :=
  match s with
  | EmptyString => Eps
  | String c EmptyString => f c
  | String c s' => Seq (f c) (lit_with f s')
  end.
Definition lit : string -> regex := lit_with chr.
Definition lit_i : string -> regex := lit_with chr_i.

Fixpoint seqs (l : list regex) : regex :=
  match l with
  | [] => Eps
  | [a] => a
  | a :: l' => Seq a (seqs l')
  end.

Definition word_char (c : ascii) : bool :=
  Text.is_upper c || Text.is_lower c || Text.is_digit c || Ascii.eqb c "_"%char.
Definition none_of (s : string) (c : ascii) : bool :=
  negb (Text.includes (String c EmptyString) s).

Section Match.
Context {R : Type}.

(** The continuation receives the remaining input, whether the position
    is still the beginning of the input, and the text of group 1. *)
Definition cont : Type := string -> bool -> option string -> option R.

Fixpoint rmatch (r : regex) (s : string) (bos : bool) (cap : option string)
         (k : cont) {struct r} : option R :=
  match r with
  | Cls p =>
      match s with
      | String c s' => if p c then k s' false cap else None
      | EmptyString => None
      end
  | Eps => k s bos cap
  | Seq a b => rmatch a s bos cap (fun s1 b1 c1 => rmatch b s1 b1 c1 k)
  | Alt a b =>
      match rmatch a s bos cap k with
      | Some x => Some x
      | None => rmatch b s bos cap k
      end
  | Star a =>
      (fix star (n : nat) (s0 : string) (b0 : bool) (c0 : option string)
         {struct n} : option R :=
         match n with
         | O => k s0 b0 c0
         | S n' =>
             match rmatch a s0 b0 c0
                     (fun s1 b1 c1 =>
                        if String.length s1 <? String.length s0
                        then star n' s1 b1 c1 else None) with
             | Some x => Some x
             | None => k s0 b0 c0
             end
         end) (String.length s) s bos cap
  | Group a =>
      rmatch a s bos cap
        (fun s1 b1 _ =>
           k s1 b1 (Some (Text.substring0 (String.length s - String.length s1) s)))
  | Bos => if bos then k s bos cap else None
  | Eos => if Text.is_empty s then k s bos cap else None
  end.
End Match.

(** A match that starts at the head of [s]: group 1 and the rest. *)
Definition match_at (r : regex) (s : string) (bos : bool)
  : option (option string * string) :=
  rmatch r s bos None (fun s1 _ c => Some (c, s1)).

Fixpoint search (r : regex) (s : string) (bos : bool) : bool :=
  match match_at r s bos with
  | Some _ => true
  | None =>
      match s with
      | EmptyString => false
      | String _ s' => search r s' false
      end
  end.

(** [r.test(s)] *)
Definition test (r : regex) (s : string) : bool := search r s true.

Definition group1 (c : option string) : string :=
  match c with Some x => x | None => EmptyString end.

(** [s.replace(r, repl)]; [all] is the flag [g].  [skip] counts the
    characters of the current match that are still to be passed over. *)
Fixpoint replace_from (all : bool) (r : regex) (repl : string -> string)
         (s : string) (bos : bool) (skip : nat) (active : bool) : string :=
  match skip with
  | S skip' =>
      match s with
      | EmptyString => EmptyString
      | String _ s' => replace_from all r repl s' false skip' active
      end
  | O =>
      match (if active then match_at r s bos else None) with
      | Some (c, rest) =>
          let len := String.length s - String.length rest in
          match s with
          | EmptyString => repl (group1 c)
          | String a s' =>
              match len with
              | O => repl (group1 c) +++ String a (replace_from all r repl s' false 0 all)
              | S l' => repl (group1 c) +++ replace_from all r repl s' false l' all
              end
          end
      | None =>
          match s with
          | EmptyString => EmptyString
          | String a s' => String a (replace_from all r repl s' false 0 active)
          end
      end
  end.

Definition replace_all (r : regex) (repl : string -> string) (s : string) : string :=
  replace_from true r repl s true 0 true.
Definition replace_first (r : regex) (repl : string -> string) (s : string) : string :=
  replace_from false r repl s true 0 true.

End Regex.

(* ================================================================== *)
(** ** Errors and their classification (retryUtils.ts) *)
(* ================================================================== *)

Import Text.

Record error : Type := mkError { name : string; message : string }.

(** [new Error(msg)] *)
Definition Error (msg : string) : error := {| name := "Error"; message := msg |}.

(** [new StreamIdleTimeoutError(msg, idleMs)] of the stream guard module *)
Definition StreamIdleTimeoutError (msg : string) : error :=
  {| name := "StreamIdleTimeoutError";
     message := "[API_ERROR] [RETRIABLE] Stream idle timeout: " +++ msg |}.

Inductive result (A : Type) : Type :=
| Ok (a : A)
| Throw (e : error).
Arguments Ok {A} a.
Arguments Throw {A} e.

Definition isRetriableError (error : error) : bool :=
  if String.eqb (name error) "StreamIdleTimeoutError" then true
  else
    let errorMessage := toLowerCase (message error) in
    if includes "network" errorMessage
       || includes "econnrefused" errorMessage
       || includes "econnreset" errorMessage
       || includes "etimedout" errorMessage
       || includes "timeout" errorMessage
    then true
    else if includes "rate limit" errorMessage
       || includes "too many requests" errorMessage
       || includes "429" errorMessage
    then true
    else if includes "500" errorMessage
       || includes "502" errorMessage
       || includes "503" errorMessage
       || includes "504" errorMessage
       || includes "internal server error" errorMessage
       || includes "bad gateway" errorMessage
       || includes "service unavailable" errorMessage
       || includes "gateway timeout" errorMessage
    then true
    else if includes "overloaded" errorMessage
       || includes "unavailable" errorMessage
    then true
    else if includes "terminated" errorMessage
       || includes "connection reset" errorMessage
       || includes "socket hang up" errorMessage
    then true
    else if includes "invalid tool call json" errorMessage
       || includes "incomplete tool call json" errorMessage
    then true
    else false.

(** [lastError.name === 'AbortError' || lastError.message === 'Aborted'] *)
Definition isAbortError (e : error) : bool :=
  String.eqb (name e) "AbortError" || String.eqb (message e) "Aborted".

(** [/Stream terminated unexpectedly|incomplete data|reader error|^terminated$|idle timeout/i] *)
Definition streamInterruptionPattern : Regex.regex :=
  Regex.Alt (Regex.lit_i "Stream terminated unexpectedly")
 (Regex.Alt (Regex.lit_i "incomplete data")
 (Regex.Alt (Regex.lit_i "reader error")
 (Regex.Alt (Regex.seqs [Regex.Bos; Regex.lit_i "terminated"; Regex.Eos])
            (Regex.lit_i "idle timeout")))).

Definition isStreamInterruption (e : error) : bool :=
  Regex.test streamInterruptionPattern (message e).

(* ================================================================== *)
(** ** The retry orchestrator (retryUtils.ts) *)
(* ================================================================== *)

(** What a run sees of its [AbortSignal]: whether it is aborted when attempt
    [k] is about to start, and whether the wait that follows the failure of
    attempt [k] is cut short by it.  An absent signal is [no_signal]. *)
Record AbortSignal : Type := {
  aborted_before : nat -> bool;
  aborted_in_delay : nat -> bool
}.

Definition no_signal : AbortSignal :=
  {| aborted_before := fun _ => false; aborted_in_delay := fun _ => false |}.

(** [onRetry] is optional; a callback returns normally ([None]) or throws. *)
Record RetryOptions : Type := {
  maxRetries : Z;
  baseDelay : Z;
  onRetry : option (error -> nat -> Z -> option error)
}.

Definition defaultOptions : RetryOptions :=
  {| maxRetries := 5; baseDelay := 1000; onRetry := None |}.

(** One entry per call of the observer: (error, attempt number, next delay). *)
Definition notification : Type := (error * nat * Z)%type.

Definition notify (opts : RetryOptions) (e : error) (n : nat) (d : Z)
  : list notification * option error :=
  match onRetry opts with
  | None => ([], None)
  | Some f => ([(e, n, d)], f e n d)
  end.

(** [delay(ms, abortSignal)] seen from its caller, which turns any rejection
    into [new Error('Request aborted')]. *)
Definition delay (sig : AbortSignal) (attempt : nat) : result unit :=
  if aborted_in_delay sig attempt then Throw (Error "Aborted") else Ok tt.

Definition nextDelayOf (opts : RetryOptions) (attempt : nat) : Z :=
  (baseDelay opts * 2 ^ Z.of_nat attempt)%Z.

Definition orRetryFailed (lastError : option error) : error :=
  match lastError with Some e => e | None => Error "Retry failed" end.

Section WithRetry.
Context {T : Type}.

Record retry_run : Type := {
  outcome : result T;
  notified : list notification;
  invocations : nat
}.

(** The operation is stateful: [fn k] is what its invocation number [k]
    (counted from 0) does. *)
Variable fn : nat -> result T.
Variable opts : RetryOptions.
Variable sig : AbortSignal.

(** The loop [while (attempt <= maxRetries)]; [fuel] is the number of
    iterations the guard still allows, [maxRetries + 1 - attempt]. *)
Fixpoint withRetry_loop (fuel attempt : nat) (lastError : option error)
  : retry_run :=
  match fuel with
  | O => {| outcome := Throw (orRetryFailed lastError); notified := []; invocations := 0 |}
  | S fuel' =>
      if aborted_before sig attempt
      then {| outcome := Throw (Error "Request aborted"); notified := []; invocations := 0 |}
      else
        match fn attempt with
        | Ok v => {| outcome := Ok v; notified := []; invocations := 1 |}
        | Throw lastError =>
            if isAbortError lastError
            then {| outcome := Throw lastError; notified := []; invocations := 1 |}
            else if (Z.of_nat attempt >=? maxRetries opts)%Z
            then {| outcome := Throw lastError; notified := []; invocations := 1 |}
            else if negb (isRetriableError lastError)
            then {| outcome := Throw lastError; notified := []; invocations := 1 |}
            else
              let nextDelay := nextDelayOf opts attempt in
              match notify opts lastError (attempt + 1) nextDelay with
              | (log, Some thrown) =>
                  {| outcome := Throw thrown; notified := log; invocations := 1 |}
              | (log, None) =>
                  match delay sig attempt with
                  | Throw _ =>
                      {| outcome := Throw (Error "Request aborted");
                         notified := log; invocations := 1 |}
                  | Ok _ =>
                      let r := withRetry_loop fuel' (S attempt) (Some lastError) in
                      {| outcome := outcome r;
                         notified := log ++ notified r;
                         invocations := S (invocations r) |}
                  end
              end
        end
  end.

Definition withRetry : retry_run :=
  withRetry_loop (Z.to_nat (maxRetries opts + 1)) 0 None.

End WithRetry.
Arguments retry_run T : clear implicits.

Section WithRetryGenerator.
Context {T : Type}.

(** A producer run: the elements it yields, then normal completion ([None])
    or the error it fails with. *)
Definition produced : Type := (list T * option error)%type.

Record generator_run : Type := {
  yielded : list T;
  finished : option error;
  gen_notified : list notification;
  gen_invocations : nat
}.

Variable fn : nat -> produced.
Variable opts : RetryOptions.
Variable sig : AbortSignal.

Definition nonempty (l : list T) : bool :=
  match l with [] => false | _ :: _ => true end.

Definition stop (chunks : list T) (e : error) (n : nat) : generator_run :=
  {| yielded := chunks; finished := Some e; gen_notified := []; gen_invocations := n |}.

Fixpoint withRetryGenerator_loop (fuel attempt : nat) (lastError : option error)
         (hasYielded : bool) : generator_run :=
  match fuel with
  | O => stop [] (orRetryFailed lastError) 0
  | S fuel' =>
      if aborted_before sig attempt
      then stop [] (Error "Request aborted") 0
      else
        let (chunks, ending) := fn attempt in
        let hasYielded := hasYielded || nonempty chunks in
        match ending with
        | None =>
            {| yielded := chunks; finished := None;
               gen_notified := []; gen_invocations := 1 |}
        | Some lastError =>
            if isAbortError lastError then stop chunks lastError 1
            else if hasYielded && negb (isStreamInterruption lastError)
            then stop chunks lastError 1
            else if (Z.of_nat attempt >=? maxRetries opts)%Z
            then stop chunks lastError 1
            else if negb (isRetriableError lastError)
            then stop chunks lastError 1
            else
              let nextDelay := nextDelayOf opts attempt in
              match notify opts lastError (attempt + 1) nextDelay with
              | (log, Some thrown) =>
                  {| yielded := chunks; finished := Some thrown;
                     gen_notified := log; gen_invocations := 1 |}
              | (log, None) =>
                  match delay sig attempt with
                  | Throw _ =>
                      {| yielded := chunks; finished := Some (Error "Request aborted");
                         gen_notified := log; gen_invocations := 1 |}
                  | Ok _ =>
                      let r := withRetryGenerator_loop fuel' (S attempt)
                                 (Some lastError) hasYielded in
                      {| yielded := chunks ++ yielded r;
                         finished := finished r;
                         gen_notified := log ++ gen_notified r;
                         gen_invocations := S (gen_invocations r) |}
                  end
              end
        end
  end.

Definition withRetryGenerator : generator_run :=
  withRetryGenerator_loop (Z.to_nat (maxRetries opts + 1)) 0 None false.

End WithRetryGenerator.
Arguments generator_run T : clear implicits.
Arguments produced T : clear implicits.

(** Elements are yielded before or at invocation [k] of the producer. *)
Definition yielded_by {T : Type} (fn : nat -> produced T) (from k : nat) : Prop :=
  exists j, from <= j <= k /\ fst (fn j) <> [].

(* ================================================================== *)
(** ** The idle-timeout guard (stream guard module) *)
(* ================================================================== *)

Definition string_of_Z (z : Z) : string :=
  match z with
  | Z0 => "0"
  | Zpos p => Text.of_nat (Pos.to_nat p)
  | Zneg p => "-" +++ Text.of_nat (Pos.to_nat p)
  end.

Module Guard.

Definition STREAM_IDLE_TIMEOUT_MS : Z := 180000.

(** Period of [setInterval] in [createIdleTimeoutGuard]. *)
Definition CHECK_INTERVAL_MS : Z := 5000.

(** The optional [onTimeout] callback runs at most once per guard; it is
    given by what that call does: return ([None]) or throw. *)
Record params : Type := {
  reader : bool;                      (* a reader was supplied *)
  onTimeout : option (option error);
  idleTimeoutMs : Z
}.

(** The variables closed over by the guard, and the number of times the
    reader has been asked to cancel. *)
Record state : Type := {
  isAbandoned : bool;
  lastChunkTime : Z;
  idleTimer : bool;                   (* the interval is still installed *)
  timeoutError : option error;
  cancels : nat
}.

Definition createIdleTimeoutGuard (now : Z) : state :=
  {| isAbandoned := false; lastChunkTime := now; idleTimer := true;
     timeoutError := None; cancels := 0 |}.

Definition cancelReader (p : params) (n : nat) : nat :=
  if reader p then S n else n.

Definition defaultTimeoutError (p : params) : error :=
  StreamIdleTimeoutError
    ("No data received for " +++ string_of_Z (idleTimeoutMs p) +++ "ms").

(** The body of the interval callback, run at time [now].  Every statement
    of its [try] block is caught where it stands, so the outer [catch] is
    never entered. *)
Definition check (p : params) (now : Z) (g : state) : state :=
  if isAbandoned g then g
  else if (now - lastChunkTime g <=? idleTimeoutMs p)%Z then g
  else
    let err0 := match timeoutError g with
                | None => Some (defaultTimeoutError p)
                | Some e => Some e
                end in
    let err1 := match onTimeout p with
                | Some (Some thrown) => Some thrown
                | _ => err0
                end in
    {| isAbandoned := true;
       lastChunkTime := lastChunkTime g;
       idleTimer := idleTimer g;
       timeoutError := err1;
       cancels := cancelReader p (cancels g) |}.

(** The timer fires only while the interval is installed. *)
Definition tick (p : params) (now : Z) (g : state) : state :=
  if idleTimer g then check p now g else g.

Definition abandon (p : params) (g : state) : state :=
  {| isAbandoned := true; lastChunkTime := lastChunkTime g;
     idleTimer := idleTimer g; timeoutError := timeoutError g;
     cancels := cancelReader p (cancels g) |}.

Definition getTimeoutError (g : state) : option error := timeoutError g.

Definition touch (now : Z) (g : state) : state :=
  {| isAbandoned := isAbandoned g; lastChunkTime := now;
     idleTimer := idleTimer g; timeoutError := timeoutError g;
     cancels := cancels g |}.

Definition dispose (g : state) : state :=
  {| isAbandoned := isAbandoned g; lastChunkTime := lastChunkTime g;
     idleTimer := false; timeoutError := timeoutError g;
     cancels := cancels g |}.

(** Timer callbacks that run, in order, at the given times. *)
Definition ticks (p : params) (times : list Z) (g : state) : state :=
  fold_left (fun g now => tick p now g) times g.

(** The times of [n] consecutive periodic checks, the first one at [first]. *)
Fixpoint periodic (first : Z) (n : nat) : list Z :=
  match n with
  | O => []
  | S n' => first :: periodic (first + CHECK_INTERVAL_MS) n'
  end.

(** The callback handed to the guard by each of the four adapters. *)
Definition adapter_params (idleTimeoutMs : Z) : params :=
  {| reader := true;
     onTimeout := Some (Some (StreamIdleTimeoutError
        ("No data received for " +++ string_of_Z idleTimeoutMs +++ "ms")));
     idleTimeoutMs := idleTimeoutMs |}.

(** What [getTimeoutError] holds after the first breach. *)
Definition capturedError (p : params) : error :=
  match onTimeout p with
  | Some (Some thrown) => thrown
  | _ => defaultTimeoutError p
  end.

(** The guard is in service: not disposed, not abandoned, nothing captured. *)
Definition live (g : state) : Prop :=
  idleTimer g = true /\ isAbandoned g = false /\ timeoutError g = None.

(** The state in which a breach leaves the guard [g]. *)
Definition timed_out (p : params) (g g' : state) : Prop :=
  isAbandoned g' = true /\
  getTimeoutError g' = Some (capturedError p) /\
  lastChunkTime g' = lastChunkTime g.

End Guard.

(* ================================================================== *)
(** ** JSON values, [JSON.parse] and [JSON.stringify]

    A number is kept as the structure of its literal (sign, integer part,
    fraction, exponent): the IEEE value it denotes is not computed.
    [JSON.stringify] re-emits the literal, which is what JavaScript prints
    for integer literals in canonical form such as [1] or [250]; for other
    literals JavaScript prints the shortest form of the same value. *)
(* ================================================================== *)

Module Json.

Inductive digit : Type := D0 | D1 | D2 | D3 | D4 | D5 | D6 | D7 | D8 | D9.
Inductive nzdigit : Type := N1 | N2 | N3 | N4 | N5 | N6 | N7 | N8 | N9.

Inductive int_part : Type :=
| IZero
| INonZero (lead : nzdigit) (rest : list digit).

Record number : Type := {
  negative : bool;
  integer : int_part;
  fraction : option (digit * list digit);
  exponent : option (bool * (digit * list digit))  (* negative?, digits *)
}.

Inductive json : Type :=
| JNull
| JBool (b : bool)
| JNum (n : number)
| JStr (s : string)
| JArr (elements : list json)
| JObj (members : list (string * json)).

(** *** Characters *)

Definition char_of_digit (d : digit) : ascii :=
  match d with
  | D0 => "0" | D1 => "1" | D2 => "2" | D3 => "3" | D4 => "4"
  | D5 => "5" | D6 => "6" | D7 => "7" | D8 => "8" | D9 => "9"
  end%char.

Definition digit_of_char (c : ascii) : option digit :=
  match c with
  | "0" => Some D0 | "1" => Some D1 | "2" => Some D2 | "3" => Some D3
  | "4" => Some D4 | "5" => Some D5 | "6" => Some D6 | "7" => Some D7
  | "8" => Some D8 | "9" => Some D9 | _ => None
  end%char.

Definition char_of_nzdigit (d : nzdigit) : ascii :=
  match d with
  | N1 => "1" | N2 => "2" | N3 => "3" | N4 => "4" | N5 => "5"
  | N6 => "6" | N7 => "7" | N8 => "8" | N9 => "9"
  end%char.

Definition nzdigit_of_char (c : ascii) : option nzdigit :=
  match c with
  | "1" => Some N1 | "2" => Some N2 | "3" => Some N3 | "4" => Some N4
  | "5" => Some N5 | "6" => Some N6 | "7" => Some N7 | "8" => Some N8
  | "9" => Some N9 | _ => None
  end%char.

Definition digit_of_nz (d : nzdigit) : digit :=
  match d with
  | N1 => D1 | N2 => D2 | N3 => D3 | N4 => D4 | N5 => D5
  | N6 => D6 | N7 => D7 | N8 => D8 | N9 => D9
  end.

Definition nat_of_digit (d : digit) : nat :=
  match d with
  | D0 => 0 | D1 => 1 | D2 => 2 | D3 => 3 | D4 => 4
  | D5 => 5 | D6 => 6 | D7 => 7 | D8 => 8 | D9 => 9
  end.

(** *** Number literals: an optional minus sign, [0] or a digit string
    without leading zero, an optional fraction, an optional exponent *)

Fixpoint print_digits (ds : list digit) : string :=
  match ds with
  | [] => EmptyString
  | d :: ds' => String (char_of_digit d) (print_digits ds')
  end.

Definition print_digits1 (ds : digit * list digit) : string :=
  String (char_of_digit (fst ds)) (print_digits (snd ds)).

Definition print_number (n : number) : string :=
  (if negative n then "-" else EmptyString) +++
  match integer n with
  | IZero => "0"
  | INonZero d ds => String (char_of_nzdigit d) (print_digits ds)
  end +++
  match fraction n with
  | None => EmptyString
  | Some ds => "." +++ print_digits1 ds
  end +++
  match exponent n with
  | None => EmptyString
  | Some (neg, ds) => (if neg then "e-" else "e+") +++ print_digits1 ds
  end.

(** the longest run of digits at the head *)
Fixpoint take_digits (s : string) : list digit * string :=
  match s with
  | EmptyString => ([], EmptyString)
  | String c s' =>
      match digit_of_char c with
      | Some d => let (ds, r) := take_digits s' in (d :: ds, r)
      | None => ([], s)
      end
  end.

Definition take_digits1 (s : string) : option ((digit * list digit) * string) :=
  match take_digits s with
  | (d :: ds, r) => Some ((d, ds), r)
  | ([], _) => None
  end.

Definition read_exponent (s : string)
  : option (option (bool * (digit * list digit))) :=
  match s with
  | EmptyString => Some None
  | String c s' =>
      if Ascii.eqb c "e" || Ascii.eqb c "E" then
        let (neg, s2) :=
          match s' with
          | String "-" r => (true, r)
          | String "+" r => (false, r)
          | _ => (false, s')
          end in
        match take_digits1 s2 with
        | Some (ds, EmptyString) => Some (Some (neg, ds))
        | _ => None
        end
      else None
  end.

Definition read_fraction (s : string)
  : option (option (digit * list digit) * string) :=
  match s with
  | String "." s' =>
      match take_digits1 s' with
      | Some (ds, r) => Some (Some ds, r)
      | None => None
      end
  | _ => Some (None, s)
  end.

Definition read_integer (s : string) : option (int_part * string) :=
  match s with
  | String "0" s' => Some (IZero, s')
  | String c s' =>
      match nzdigit_of_char c with
      | Some d => let (ds, r) := take_digits s' in Some (INonZero d ds, r)
      | None => None
      end
  | EmptyString => None
  end.

(** the whole of [s] is a number literal *)
Definition read_number (s : string) : option number :=
  let (neg, s1) := match s with
                   | String "-" r => (true, r)
                   | _ => (false, s)
                   end in
  match read_integer s1 with
  | None => None
  | Some (i, s2) =>
      match read_fraction s2 with
      | None => None
      | Some (f, s3) =>
          match read_exponent s3 with
          | None => None
          | Some e =>
              Some {| negative := neg; integer := i; fraction := f; exponent := e |}
          end
      end
  end.

(** *** Tokens *)

Inductive token : Type :=
| TLBrace | TRBrace | TLBracket | TRBracket | TComma | TColon
| TString (s : string)
| TNumber (n : number)
| TTrue | TFalse | TNull.

(** JSON white space: TAB, LF, CR, SPACE *)
Definition is_ws (c : ascii) : bool :=
  let n := nat_of_ascii c in (n =? 9) || (n =? 10) || (n =? 13) || (n =? 32).

Definition is_number_char (c : ascii) : bool :=
  Text.is_digit c || Ascii.eqb c "-" || Ascii.eqb c "+" || Ascii.eqb c "."
  || Ascii.eqb c "e" || Ascii.eqb c "E".

Definition is_letter (c : ascii) : bool := Text.is_lower c || Text.is_upper c.

Definition hex_value (c : ascii) : option nat :=
  let n := nat_of_ascii c in
  if Text.is_digit c then Some (n - 48)
  else if Text.char_between 97 102 c then Some (n - 87)
  else if Text.char_between 65 70 c then Some (n - 55)
  else None.

(** A [\uXXXX] escape is stored in UTF-8 form. *)
Definition utf8 (n : nat) : string :=
  if n <? 128 then String (ascii_of_nat n) EmptyString
  else if n <? 2048 then
    String (ascii_of_nat (192 + n / 64))
   (String (ascii_of_nat (128 + n mod 64)) EmptyString)
  else
    String (ascii_of_nat (224 + n / 4096))
   (String (ascii_of_nat (128 + (n / 64) mod 64))
   (String (ascii_of_nat (128 + n mod 64)) EmptyString)).

Definition unescape (c : ascii) : option ascii :=
  if Ascii.eqb c Text.DQ then Some Text.DQ
  else match c with
       | "\" => Some "\"
       | "/" => Some "/"
       | "b" => Some (ascii_of_nat 8)
       | "f" => Some (ascii_of_nat 12)
       | "n" => Some (ascii_of_nat 10)
       | "r" => Some (ascii_of_nat 13)
       | "t" => Some (ascii_of_nat 9)
       | _ => None
       end%char.

Inductive mode : Type :=
| MDefault
| MString (acc : string)
| MEscape (acc : string)
| MUnicode (acc : string) (ndigits value : nat)
| MNumber (acc : string)
| MWord (acc : string).

Definition snoc (s : string) (c : ascii) : string := s +++ String c EmptyString.

Definition word_token (w : string) : option token :=
  if String.eqb w "true" then Some TTrue
  else if String.eqb w "false" then Some TFalse
  else if String.eqb w "null" then Some TNull
  else None.

(** What the character [c] starts when no token is open. *)
Definition start (c : ascii) : option (list token * mode) :=
  if is_ws c then Some ([], MDefault)
  else if Ascii.eqb c "{" then Some ([TLBrace], MDefault)
  else if Ascii.eqb c "}" then Some ([TRBrace], MDefault)
  else if Ascii.eqb c "[" then Some ([TLBracket], MDefault)
  else if Ascii.eqb c "]" then Some ([TRBracket], MDefault)
  else if Ascii.eqb c "," then Some ([TComma], MDefault)
  else if Ascii.eqb c ":" then Some ([TColon], MDefault)
  else if Ascii.eqb c Text.DQ then Some ([], MString EmptyString)
  else if Text.is_digit c || Ascii.eqb c "-" then Some ([], MNumber (String c EmptyString))
  else if is_letter c then Some ([], MWord (String c EmptyString))
  else None.

(** One character of input: the tokens completed by it and the new mode. *)
Definition lex_step (m : mode) (c : ascii) : option (list token * mode) :=
  match m with
  | MDefault => start c
  | MString acc =>
      if Ascii.eqb c Text.DQ then Some ([TString acc], MDefault)
      else if Ascii.eqb c "\" then Some ([], MEscape acc)
      else if nat_of_ascii c <? 32 then None
      else Some ([], MString (snoc acc c))
  | MEscape acc =>
      if Ascii.eqb c "u" then Some ([], MUnicode acc 0 0)
      else match unescape c with
           | Some x => Some ([], MString (snoc acc x))
           | None => None
           end
  | MUnicode acc k v =>
      match hex_value c with
      | None => None
      | Some h =>
          let v' := 16 * v + h in
          if k =? 3 then Some ([], MString (acc +++ utf8 v'))
          else Some ([], MUnicode acc (S k) v')
      end
  | MNumber acc =>
      if is_number_char c then Some ([], MNumber (snoc acc c))
      else match read_number acc, start c with
           | Some n, Some (toks, m') => Some (TNumber n :: toks, m')
           | _, _ => None
           end
  | MWord acc =>
      if is_letter c then Some ([], MWord (snoc acc c))
      else match word_token acc, start c with
           | Some t, Some (toks, m') => Some (t :: toks, m')
           | _, _ => None
           end
  end.

(** End of input. *)
Definition lex_end (m : mode) : option (list token) :=
  match m with
  | MDefault => Some []
  | MNumber acc =>
      match read_number acc with Some n => Some [TNumber n] | None => None end
  | MWord acc =>
      match word_token acc with Some t => Some [t] | None => None end
  | MString _ | MEscape _ | MUnicode _ _ _ => None
  end.

Fixpoint lex_from (m : mode) (s : string) : option (list token) :=
  match s with
  | EmptyString => lex_end m
  | String c s' =>
      match lex_step m c with
      | None => None
      | Some (toks, m') =>
          match lex_from m' s' with
          | None => None
          | Some rest => Some (toks ++ rest)
          end
      end
  end.

Definition lex : string -> option (list token) := lex_from MDefault.

(** *** Objects as JavaScript enumerates them: array-index keys in
    ascending order first, then the other keys in order of creation. *)

Fixpoint digits_value (ds : list digit) (acc : N) : N :=
  match ds with
  | [] => acc
  | d :: ds' => digits_value ds' (10 * acc + N.of_nat (nat_of_digit d))%N
  end.

(** The array index a key denotes, if it is the canonical form of one. *)
Definition array_index (k : string) : option N :=
  match read_integer k with
  | Some (IZero, EmptyString) => Some 0%N
  | Some (INonZero d ds, EmptyString) =>
      if length ds <? 10 then
        let v := digits_value (digit_of_nz d :: ds) 0 in
        if (v <? 4294967295)%N then Some v else None
      else None
  | _ => None
  end.

Section Objects.
Context {V : Type}.

Fixpoint has_key (k : string) (o : list (string * V)) : bool :=
  match o with
  | [] => false
  | (k', _) :: o' => String.eqb k k' || has_key k o'
  end.

Fixpoint lookup (k : string) (o : list (string * V)) : option V :=
  match o with
  | [] => None
  | (k', v) :: o' => if String.eqb k k' then Some v else lookup k o'
  end.

Fixpoint replace_value (k : string) (v : V) (o : list (string * V)) :=
  match o with
  | [] => []
  | (k', v') :: o' =>
      if String.eqb k k' then (k', v) :: o' else (k', v') :: replace_value k v o'
  end.

Fixpoint insert_index (i : N) (k : string) (v : V) (o : list (string * V)) :=
  match o with
  | [] => [(k, v)]
  | (k', v') :: o' =>
      match array_index k' with
      | Some j => if (j <? i)%N then (k', v') :: insert_index i k v o'
                  else (k, v) :: o
      | None => (k, v) :: o
      end
  end.

(** [o[k] = v] on an ordinary object *)
Definition obj_set (k : string) (v : V) (o : list (string * V)) :=
  if has_key k o then replace_value k v o
  else match array_index k with
       | Some i => insert_index i k v o
       | None => o ++ [(k, v)]
       end.

End Objects.

(** *** The parser: a stack machine over tokens *)

Inductive frame : Type :=
| FArr (acc : list json)                          (* elements so far, reversed *)
| FObj (acc : list (string * json)) (key : string). (* members so far, pending key *)

Inductive pstate : Type :=
| SValue (st : list frame)             (* a value is expected *)
| SArrayStart (st : list frame)        (* after [[]: a value or []] *)
| SObjectStart (st : list frame)       (* after [{]: a key or [}] *)
| SKey (st : list frame) (acc : list (string * json))  (* after [,] in an object *)
| SColon (st : list frame) (acc : list (string * json)) (key : string)
| SDone (st : list frame) (v : json).  (* a value has been completed *)

Definition value_start (st : list frame) (t : token) : option pstate :=
  match t with
  | TNull => Some (SDone st JNull)
  | TTrue => Some (SDone st (JBool true))
  | TFalse => Some (SDone st (JBool false))
  | TNumber n => Some (SDone st (JNum n))
  | TString s => Some (SDone st (JStr s))
  | TLBracket => Some (SArrayStart st)
  | TLBrace => Some (SObjectStart st)
  | _ => None
  end.

Definition pstep (s : pstate) (t : token) : option pstate :=
  match s with
  | SValue st => value_start st t
  | SArrayStart st =>
      match t with
      | TRBracket => Some (SDone st (JArr []))
      | _ => value_start (FArr [] :: st) t
      end
  | SObjectStart st =>
      match t with
      | TRBrace => Some (SDone st (JObj []))
      | TString k => Some (SColon st [] k)
      | _ => None
      end
  | SKey st acc =>
      match t with
      | TString k => Some (SColon st acc k)
      | _ => None
      end
  | SColon st acc k =>
      match t with
      | TColon => Some (SValue (FObj acc k :: st))
      | _ => None
      end
  | SDone (FArr acc :: st) v =>
      match t with
      | TComma => Some (SValue (FArr (v :: acc) :: st))
      | TRBracket => Some (SDone st (JArr (rev (v :: acc))))
      | _ => None
      end
  | SDone (FObj acc k :: st) v =>
      match t with
      | TComma => Some (SKey st (obj_set k v acc))
      | TRBrace => Some (SDone st (JObj (obj_set k v acc)))
      | _ => None
      end
  | SDone [] _ => None
  end.

Fixpoint prun (s : pstate) (toks : list token) : option pstate :=
  match toks with
  | [] => Some s
  | t :: toks' =>
      match pstep s t with
      | None => None
      | Some s' => prun s' toks'
      end
  end.

Definition parse_tokens (toks : list token) : option json :=
  match prun (SValue []) toks with
  | Some (SDone [] v) => Some v
  | _ => None
  end.

(** [JSON.parse(text)]: [None] is a [SyntaxError]. *)
Definition JSON_parse (text : string) : option json :=
  match lex text with
  | None => None
  | Some toks => parse_tokens toks
  end.

(** *** [JSON.stringify] *)

Definition hex_digit (n : nat) : ascii :=
  if n <? 10 then ascii_of_nat (48 + n) else ascii_of_nat (87 + n).

Definition escape_char (c : ascii) : string :=
  let n := nat_of_ascii c in
  if Ascii.eqb c Text.DQ then String "\" (String Text.DQ EmptyString)
  else if Ascii.eqb c "\" then "\\"
  else if n =? 8 then "\b"
  else if n =? 12 then "\f"
  else if n =? 10 then "\n"
  else if n =? 13 then "\r"
  else if n =? 9 then "\t"
  else if n <? 32 then
    "\u00" +++ String (hex_digit (n / 16)) (String (hex_digit (n mod 16)) EmptyString)
  else String c EmptyString.

Fixpoint escape (s : string) : string :=
  match s with
  | EmptyString => EmptyString
  | String c s' => escape_char c +++ escape s'
  end.

Definition quote (s : string) : string :=
  String Text.DQ (escape s +++ String Text.DQ EmptyString).

Definition all_zero (ds : list digit) : bool :=
  forallb (fun d => match d with D0 => true | _ => false end) ds.

(** the literal denotes zero *)
Definition is_zero (n : number) : bool :=
  match integer n with
  | IZero =>
      match fraction n with
      | None => true
      | Some (d, ds) => all_zero (d :: ds)
      end
  | INonZero _ _ => false
  end.

(** [Number.prototype.toString]: zero prints without sign or exponent. *)
Definition number_to_string (n : number) : string :=
  if is_zero n then "0" else print_number n.

Fixpoint JSON_stringify (v : json) : string :=
  match v with
  | JNull => "null"
  | JBool true => "true"
  | JBool false => "false"
  | JNum n => number_to_string n
  | JStr s => quote s
  | JArr l =>
      "[" +++
      (fix elems (l : list json) : string :=
         match l with
         | [] => EmptyString
         | [x] => JSON_stringify x
         | x :: l' => JSON_stringify x +++ "," +++ elems l'
         end) l +++ "]"
  | JObj o =>
      "{" +++
      (fix members (o : list (string * json)) : string :=
         match o with
         | [] => EmptyString
         | [(k, x)] => quote k +++ ":" +++ JSON_stringify x
         | (k, x) :: o' => quote k +++ ":" +++ JSON_stringify x +++ "," +++ members o'
         end) o +++ "}"
  end.

(** The number literal of a natural number. *)
Definition number_of_nat (n : nat) : number :=
  match read_number (Text.of_nat n) with
  | Some x => x
  | None => {| negative := false; integer := IZero; fraction := None; exponent := None |}
  end.

End Json.

(* ================================================================== *)
(** ** Incremental JSON repair: [parseJsonWithFix] (retryUtils.ts)

    Logging has no effect on the result and is left out. *)
(* ================================================================== *)

Import Json.

Record JsonParseResult : Type := {
  success : bool;
  data : option json;          (* [None]: the field is absent *)
  err : option error;           (* the field [error] *)
  wasFixed : option bool;
  originalJson : option string;
  fixedJson : option string
}.

Record ParseOptions : Type := {
  logWarning : bool;
  logError : bool;
  toolName : string;
  fallbackValue : option json
}.

Definition defaultParseOptions : ParseOptions :=
  {| logWarning := true; logError := true; toolName := "unknown";
     fallbackValue := None |}.

(** The [SyntaxError] of [JSON.parse]; the wording of its message is the
    engine's. *)
Definition syntaxError : error :=
  {| name := "SyntaxError"; message := "Unexpected token in JSON" |}.

Module Repair.
Import Regex.

Definition dq : regex := chr Text.DQ.
Definition s_star : regex := Star (Cls Text.is_space).
Definition w_plus : regex := Plus (Cls word_char).
Definition one_of (s : string) (c : ascii) : bool := negb (none_of s c).
Definition q (s : string) : string := String Text.DQ (s +++ String Text.DQ EmptyString).

(** The pattern of Fix 1, flag [g]: in group 1 a quoted word, a colon and
    a run of characters other than comma, closing brace and closing
    bracket, each part optionally spaced; then a quote, a colon, optional
    space and a quoted run free of quotes. *)
Definition malformedPattern : regex :=
  seqs [ Group (seqs [dq; w_plus; dq; s_star; chr ":"; s_star;
                      Plus (Cls (none_of ",}]"))]);
         s_star; dq; chr ":"; s_star; dq;
         Star (Cls (fun c => negb (Ascii.eqb c Text.DQ))); dq ].

(** [/,(\s*[}\]])/] *)
Definition trailingComma : regex :=
  seqs [chr ","; Group (seqs [s_star; Cls (one_of "}]")])].

(** [/{\s*\w+\s*:/] and [/{\s*(\w+)\s*:/g] *)
Definition bareKeyAfterBrace : regex :=
  seqs [chr "{"; s_star; Group w_plus; s_star; chr ":"].

(** [/,\s*(\w+)\s*:/g] *)
Definition bareKeyAfterComma : regex :=
  seqs [chr ","; s_star; Group w_plus; s_star; chr ":"].

(** The pattern of Fix 5: the closing character [c], then in group 1 a run
    free of [c] that reaches the end of the text. *)
Definition lastClosing (c : ascii) : regex :=
  seqs [chr c; Group (Star (Cls (fun x => negb (Ascii.eqb x c)))); Eos].

Definition fix1 (st : string * bool) : string * bool :=
  let (fixedJson, wasFixed) := st in
  if test malformedPattern fixedJson
  then (replace_all malformedPattern (fun g => g) fixedJson, true)
  else st.

Definition fix2 (st : string * bool) : string * bool :=
  let (fixedJson, wasFixed) := st in
  if test trailingComma fixedJson
  then (replace_all trailingComma (fun g => g) fixedJson, true)
  else st.

Definition fix3 (st : string * bool) : string * bool :=
  let (fixedJson, wasFixed) := st in
  if test bareKeyAfterBrace fixedJson
  then
    let fixedJson := replace_all bareKeyAfterBrace (fun g => "{" +++ q g +++ ":") fixedJson in
    let fixedJson := replace_all bareKeyAfterComma (fun g => "," +++ q g +++ ":") fixedJson in
    (fixedJson, true)
  else st.

Fixpoint iterate {A : Type} (n : nat) (f : A -> A) (x : A) : A :=
  match n with O => x | S n' => iterate n' f (f x) end.

(** Fix 4 and Fix 5, on the tallies taken after the first three fixes. *)
Definition fix45 (st : string * bool) : string * bool :=
  let (fixedJson, wasFixed) := st in
  let openBraces := Text.count "{" fixedJson in
  let closeBraces := Text.count "}" fixedJson in
  let openBrackets := Text.count "[" fixedJson in
  let closeBrackets := Text.count "]" fixedJson in
  let st :=
    if closeBraces <? openBraces
    then (fixedJson +++ Text.repeat "}" (openBraces - closeBraces), true)
    else (fixedJson, wasFixed) in
  let st :=
    if closeBrackets <? openBrackets
    then (fst st +++ Text.repeat "]" (openBrackets - closeBrackets), true)
    else st in
  let st :=
    if openBraces <? closeBraces
    then (iterate (closeBraces - openBraces)
            (replace_first (lastClosing "}") (fun g => g)) (fst st), true)
    else st in
  let st :=
    if openBrackets <? closeBrackets
    then (iterate (closeBrackets - openBrackets)
            (replace_first (lastClosing "]") (fun g => g)) (fst st), true)
    else st in
  st.

(** The single pass of repairs. *)
Definition repair (jsonString : string) : string * bool :=
  fix45 (fix3 (fix2 (fix1 (jsonString, false)))).

End Repair.

Definition parseJsonWithFix (jsonString : string) (options : ParseOptions)
  : JsonParseResult :=
  match JSON_parse jsonString with
  | Some data =>
      {| success := true; data := Some data; err := None; wasFixed := None;
         originalJson := None; fixedJson := None |}
  | None =>
      let (fixedJson, wasFixed) := Repair.repair jsonString in
      match JSON_parse fixedJson with
      | Some data =>
          {| success := true; data := Some data; err := None;
             wasFixed := Some wasFixed;
             originalJson := Some jsonString; fixedJson := Some fixedJson |}
      | None =>
          {| success := false;
             data := fallbackValue options;
             err := Some syntaxError;
             wasFixed := Some wasFixed;
             originalJson := Some jsonString;
             fixedJson := if wasFixed then Some fixedJson else None |}
      end
  end.

(* ================================================================== *)
(** ** JavaScript values read off parsed frames

    A value is a JSON value or [undefined].  Only own properties are looked
    up; numbers compare by their literals. *)
(* ================================================================== *)

Module Js.

Definition value : Type := option json.
Definition undefined : value := None.

Definition TypeError (msg : string) : error :=
  {| name := "TypeError"; message := msg |}.

Definition of_nat (n : nat) : json := JNum (number_of_nat n).
Definition zero : json := of_nat 0.

(** property [k] of a value that is neither [null] nor [undefined]; the
    sources read fixed names only *)
Definition prop (k : string) (v : json) : value :=
  match v with
  | JObj o => lookup k o
  | JArr l => if String.eqb k "length" then Some (of_nat (length l)) else None
  | JStr s => if String.eqb k "length" then Some (of_nat (String.length s)) else None
  | _ => None
  end.

(** [v?.k] *)
Definition opt (k : string) (v : value) : value :=
  match v with
  | None | Some JNull => None
  | Some x => prop k x
  end.

(** [v.k] *)
Definition get (k : string) (v : value) : result value :=
  match v with
  | None =>
      Throw (TypeError ("Cannot read properties of undefined (reading '" +++ k +++ "')"))
  | Some JNull =>
      Throw (TypeError ("Cannot read properties of null (reading '" +++ k +++ "')"))
  | Some x => Ok (prop k x)
  end.

Definition truthy (v : value) : bool :=
  match v with
  | None | Some JNull => false
  | Some (JBool b) => b
  | Some (JNum n) => negb (is_zero n)
  | Some (JStr s) => negb (Text.is_empty s)
  | Some (JArr _) | Some (JObj _) => true
  end.

(** [v === 'lit'] *)
Definition equals (lit : string) (v : value) : bool :=
  match v with
  | Some (JStr s) => String.eqb s lit
  | _ => false
  end.

(** [v === true] *)
Definition is_true (v : value) : bool :=
  match v with Some (JBool true) => true | _ => false end.

(** [a || b] *)
Definition or_else (a b : value) : value := if truthy a then a else b.

(** [a ?? b] *)
Definition nullish_or (a b : value) : value :=
  match a with None | Some JNull => b | _ => a end.

(** [String(v)], as used by [+=] on a string *)
Fixpoint to_string (v : json) : string :=
  match v with
  | JNull => "null"
  | JBool true => "true"
  | JBool false => "false"
  | JNum n => number_to_string n
  | JStr s => s
  | JArr l =>
      (fix join (l : list json) : string :=
         match l with
         | [] => EmptyString
         | [x] => match x with JNull => EmptyString | _ => to_string x end
         | x :: l' =>
             match x with JNull => EmptyString | _ => to_string x end
             +++ "," +++ join l'
         end) l
  | JObj _ => "[object Object]"
  end.

Definition string_of (v : value) : string :=
  match v with None => "undefined" | Some x => to_string x end.

(** [s += v] *)
Definition append (s : string) (v : value) : string := s +++ string_of v.

(** Map and Set keys (SameValueZero): two arrays or objects read off the
    wire are never the same object. *)
Definition number_eqb (a b : number) : bool :=
  String.eqb (print_number a) (print_number b).

Definition same (a b : value) : bool :=
  match a, b with
  | None, None => true
  | Some JNull, Some JNull => true
  | Some (JBool x), Some (JBool y) => Bool.eqb x y
  | Some (JNum x), Some (JNum y) => number_eqb x y
  | Some (JStr x), Some (JStr y) => String.eqb x y
  | _, _ => false
  end.

Section Maps.
Context {V : Type}.

(** [Map.prototype.get] *)
Fixpoint map_get (k : value) (m : list (value * V)) : option V :=
  match m with
  | [] => None
  | (k', v) :: m' => if same k k' then Some v else map_get k m'
  end.

(** [Map.prototype.set]: a key that is present keeps its place *)
Fixpoint map_set (k : value) (v : V) (m : list (value * V)) : list (value * V) :=
  match m with
  | [] => [(k, v)]
  | (k', v') :: m' =>
      if same k k' then (k', v) :: m' else (k', v') :: map_set k v m'
  end.

End Maps.

(** [Set.prototype.has] *)
Definition set_has (k : value) (s : list value) : bool := existsb (same k) s.

(** The operators of the runtime whose results depend on IEEE arithmetic. *)
Class Runtime : Type := {
  plus : value -> value -> value;      (* [a + b] *)
  gt_zero : value -> bool              (* [a > 0] *)
}.

(** [v.length > 0] for a truthy [v] *)
Definition length_positive `{Runtime} (v : json) : bool :=
  match v with
  | JArr l => negb (Nat.eqb (length l) 0)
  | JStr s => negb (Text.is_empty s)
  | JObj o => match lookup "length" o with Some x => gt_zero (Some x) | None => false end
  | _ => false
  end.

(** [v[0]] for a value that is neither [null] nor [undefined] *)
Definition first (v : json) : value :=
  match v with
  | JArr l => hd_error l
  | JStr (String c _) => Some (JStr (String c EmptyString))
  | JObj o => lookup "0" o
  | _ => None
  end.

Fixpoint chars (s : string) : list json :=
  match s with
  | EmptyString => []
  | String c s' => JStr (String c EmptyString) :: chars s'
  end.

(** the values [for (const x of v)] runs over *)
Definition iterate (v : value) : result (list json) :=
  match v with
  | Some (JArr l) => Ok l
  | Some (JStr s) => Ok (chars s)
  | _ => Throw (TypeError (string_of v +++ " is not iterable"))
  end.

(** [v?.some(f)] as a condition *)
Fixpoint some_of (f : json -> result bool) (l : list json) : result bool :=
  match l with
  | [] => Ok false
  | x :: l' =>
      match f x with
      | Throw e => Throw e
      | Ok true => Ok true
      | Ok false => some_of f l'
      end
  end.

Definition opt_some (what : string) (f : json -> result bool) (v : value) : result bool :=
  match v with
  | None | Some JNull => Ok false
  | Some (JArr l) => some_of f l
  | Some _ => Throw (TypeError (what +++ ".some is not a function"))
  end.

End Js.

(* ================================================================== *)
(** ** The SSE frame decoder: [parseSSEStream]
    (anthropic.ts, chat.ts, responses.ts)

    The three copies differ in the test for a business delta and in the
    error raised when the stream ends inside a frame. *)
(* ================================================================== *)

Module Sse.

Inductive read_result : Type :=
| Chunk (text : string)        (* [{done: false, value}], decoded *)
| EndOfStream                  (* [{done: true}] *)
| ReadFailure (e : error).     (* the read rejects *)

(** One turn of the read loop as its environment shapes it. *)
Record read_event : Type := {
  signal_aborted : bool;              (* [abortSignal?.aborted] at the top of the turn *)
  timer_during_read : list Z;         (* interval callbacks that run during the read *)
  read : read_result;
  clock : nat -> Z;                   (* [Date.now()] while line [j] of the chunk is handled *)
  timer_during_yield : nat -> list Z  (* callbacks that run while the consumer holds the frame of line [j] *)
}.

Inductive line_kind : Type :=
| Blank                   (* empty, or a comment *)
| Sentinel                (* [data: [DONE]] *)
| EventLine (ty : string)
| DataLine (data : string)
| Other.

Definition classify (line : string) : line_kind :=
  let trimmed := Text.trim line in
  if Text.is_empty trimmed || Text.startsWith ":" trimmed then Blank
  else if String.eqb trimmed "data: [DONE]" || String.eqb trimmed "data:[DONE]"
  then Sentinel
  else if Text.startsWith "event:" trimmed
  then EventLine (if Text.startsWith "event: " trimmed
                  then Text.slice 7 trimmed else Text.slice 6 trimmed)
  else if Text.startsWith "data:" trimmed
  then DataLine (if Text.startsWith "data: " trimmed
                 then Text.slice 6 trimmed else Text.slice 5 trimmed)
  else Other.

(** How a generator ends.  [Stalled]: the script of reads is used up while
    the loop still waits. *)
Inductive ending : Type :=
| Returned
| Threw (e : error)
| Stalled.

Record provider : Type := {
  hasBusinessDelta : Js.value -> result bool;
  (** from [dataCount], [lastEventType] and [buffer] *)
  incompleteError : nat -> string -> string -> error
}.

(** The local variables of [parseSSEStream]; [touched] records the frames
    on which [guard.touch()] ran. *)
Record decoder : Type := {
  buffer : string;
  dataCount : nat;
  lastEventType : string;
  guard : Guard.state;
  touched : list Js.value
}.

Definition with_guard (g : Guard.state) (st : decoder) : decoder :=
  {| buffer := buffer st; dataCount := dataCount st;
     lastEventType := lastEventType st; guard := g; touched := touched st |}.

Definition frameOptions : ParseOptions :=
  {| logWarning := false; logError := true; toolName := "SSE stream";
     fallbackValue := None |}.

Inductive lines_end : Type :=
| NextRead
| Finish
| Fail (e : error).

Section Decoder.
Variable P : provider.
Variable p : Guard.params.

(** The loop [for (const line of lines)], from line [j] on. *)
Fixpoint parse_lines (ev : read_event) (j : nat) (lines : list string)
         (st : decoder) : decoder * list Js.value * lines_end :=
  match lines with
  | [] => (st, [], NextRead)
  | line :: rest =>
      match classify line with
      | Blank | Other => parse_lines ev (S j) rest st
      | Sentinel => (st, [], Finish)
      | EventLine ty =>
          parse_lines ev (S j) rest
            {| buffer := buffer st; dataCount := dataCount st;
               lastEventType := ty; guard := guard st; touched := touched st |}
      | DataLine text =>
          let parseResult := parseJsonWithFix text frameOptions in
          if success parseResult then
            let event := data parseResult in
            match hasBusinessDelta P event with
            | Throw e => (st, [], Fail e)
            | Ok delta =>
                let st1 :=
                  {| buffer := buffer st;
                     dataCount := S (dataCount st);
                     lastEventType := lastEventType st;
                     guard := if delta then Guard.touch (clock ev j) (guard st)
                              else guard st;
                     touched := if delta then touched st ++ [event]
                                else touched st |} in
                if Guard.isAbandoned (guard st1)
                then parse_lines ev (S j) rest st1
                else
                  let st2 := with_guard
                               (Guard.ticks p (timer_during_yield ev j) (guard st1))
                               st1 in
                  let '(st', out, e) := parse_lines ev (S j) rest st2 in
                  (st', event :: out, e)
            end
          else parse_lines ev (S j) rest st
      end
  end.

(** The loop [while (true)]. *)
Fixpoint read_loop (script : list read_event) (st : decoder)
  : decoder * list Js.value * ending :=
  match script with
  | [] => (st, [], Stalled)
  | ev :: rest =>
      if signal_aborted ev
      then (with_guard (Guard.abandon p (guard st)) st, [], Returned)
      else
        let st := with_guard (Guard.ticks p (timer_during_read ev) (guard st)) st in
        match read ev with
        | ReadFailure e => (st, [], Threw e)
        | answer =>
            match Guard.getTimeoutError (guard st) with
            | Some timeoutError => (st, [], Threw timeoutError)
            | None =>
                if Guard.isAbandoned (guard st) then read_loop rest st
                else
                  match answer with
                  | Chunk text =>
                      let (lines, buffer') :=
                        Text.pop (Text.split_lines (buffer st +++ text)) in
                      let st :=
                        {| buffer := buffer'; dataCount := dataCount st;
                           lastEventType := lastEventType st;
                           guard := guard st; touched := touched st |} in
                      match parse_lines ev 0 lines st with
                      | (st', out, NextRead) =>
                          let '(st'', out', e) := read_loop rest st' in
                          (st'', out ++ out', e)
                      | (st', out, Finish) => (st', out, Returned)
                      | (st', out, Fail e) => (st', out, Threw e)
                      end
                  | _ =>
                      if negb (Text.is_empty (Text.trim (buffer st)))
                      then (st, [],
                            Threw (incompleteError P (dataCount st)
                                     (lastEventType st) (buffer st)))
                      else (st, [], Returned)
                  end
            end
        end
  end.

(** [parseSSEStream(reader, abortSignal, idleTimeoutMs)] with the guard
    created at time [now]; [finally] disposes of the guard. *)
Definition parseSSEStream (now : Z) (script : list read_event)
  : decoder * list Js.value * ending :=
  let '(st, out, e) :=
    read_loop script
      {| buffer := EmptyString; dataCount := 0; lastEventType := EmptyString;
         guard := Guard.createIdleTimeoutGuard now; touched := [] |} in
  (with_guard (Guard.dispose (guard st)) st, out, e).

End Decoder.

(** [JSON.stringify(errorContext)] of anthropic.ts and chat.ts *)
Definition errorContext (dataCount : nat) (lastEventType buffer : string) : json :=
  JObj [ ("dataCount", Js.of_nat dataCount);
         ("lastEventType", JStr lastEventType);
         ("bufferLength", Js.of_nat (String.length buffer));
         ("bufferPreview", JStr (Text.substring0 200 buffer)) ].

Definition contextError (vendor : string) (dataCount : nat)
           (lastEventType buffer : string) : error :=
  Error ("[API_ERROR] [RETRIABLE] " +++ vendor
         +++ " stream terminated unexpectedly with incomplete data"
         +++ ". Context: "
         +++ JSON_stringify (errorContext dataCount lastEventType buffer)).

End Sse.

(* ================================================================== *)
(** ** The unified stream chunks *)
(* ================================================================== *)

Module Stream.

Record tool_call : Type := {
  id : Js.value;
  fname : Js.value;              (* [function.name] *)
  arguments : Js.value;          (* [function.arguments] *)
  thoughtSignature : Js.value    (* Gemini only *)
}.

Record usage_info : Type := {
  prompt_tokens : Js.value;
  completion_tokens : Js.value;
  total_tokens : Js.value;
  cache_creation_input_tokens : Js.value;
  cache_read_input_tokens : Js.value;
  cached_tokens : Js.value
}.

Record thinking_block : Type := {
  thinking : string;
  signature : option string
}.

Record reasoning : Type := {
  summary : Js.value;
  reasoning_content_items : Js.value;   (* [content] *)
  encrypted_content : Js.value
}.

Inductive chunk : Type :=
| Content (text : Js.value)
| ToolCallDelta (delta : Js.value)
| ReasoningStarted
| ReasoningDelta (delta : Js.value)
| ToolCalls (calls : list tool_call)
| ReasoningData (r : reasoning)
| Usage (u : usage_info)
| Done (block : option thinking_block) (reasoning_content : option string).

Definition is_done (c : chunk) : bool :=
  match c with Done _ _ => true | _ => false end.
Definition is_usage (c : chunk) : bool :=
  match c with Usage _ => true | _ => false end.
Definition is_tool_calls (c : chunk) : bool :=
  match c with ToolCalls _ => true | _ => false end.
Definition is_tool_call_delta (c : chunk) : bool :=
  match c with ToolCallDelta _ => true | _ => false end.

(** the chunks emitted while frames are still being decoded *)
Definition streaming (c : chunk) : bool :=
  negb (is_done c || is_usage c || is_tool_calls c).

(** How the consumption of the decoded frames stops. *)
Inductive control : Type :=
| Exhausted            (* every frame was consumed *)
| Broke                (* [break] *)
| Raised (e : error).

(** The response of the transport to one request. *)
Inductive response : Type :=
| FetchFailed (errorMessage : string) (isTypeError : bool)
| NotOk (status statusText errorText : string)
| NoBody
| Body (now : Z) (script : list Sse.read_event).

Record request : Type := {
  url : string;
  model : string;
  idleTimeoutMs : Z      (* [(config.streamIdleTimeoutSec ?? 180) * 1000] *)
}.

Definition NL : string := String Text.LF EmptyString.

Definition fetchError (vendor : string) (rq : request) (errorMessage : string)
           (isTypeError : bool) : error :=
  Error (vendor +++ " API fetch failed: " +++ errorMessage +++ NL
         +++ "URL: " +++ url rq +++ NL
         +++ "Model: " +++ model rq +++ NL
         +++ "Error type: "
         +++ (if isTypeError then "Network/Connection Error" else "Unknown Error")
         +++ NL
         +++ "Possible causes: Network unavailable, DNS resolution failed, proxy issues, or server unreachable").

Definition statusError (vendor status statusText errorText : string) : error :=
  Error (vendor +++ " API error: " +++ status +++ " " +++ statusText
         +++ " - " +++ errorText).

Definition noBodyError (vendor : string) : error :=
  Error ("No response body from " +++ vendor +++ " API").

(** The body of a producer that consumes [parseSSEStream] with
    [for await] and then finalizes. *)
Section Producer.
Context {S : Type}.
Variable step : S -> Js.value -> S * list chunk * control.
Variable finalize : S -> list chunk.

Fixpoint consume (events : list Js.value) (st : S) : S * list chunk * control :=
  match events with
  | [] => (st, [], Exhausted)
  | event :: rest =>
      match step st event with
      | (st', out, Exhausted) =>
          let '(st'', out', c) := consume rest st' in (st'', out ++ out', c)
      | stop => stop
      end
  end.

Definition produce (decoded : list Js.value * Sse.ending) (init : S)
  : list chunk * Sse.ending :=
  let (events, ending) := decoded in
  match consume events init with
  | (_, out, Raised e) => (out, Sse.Threw e)
  | (st, out, Broke) => (out ++ finalize st, Sse.Returned)
  | (st, out, Exhausted) =>
      match ending with
      | Sse.Returned => (out ++ finalize st, Sse.Returned)
      | other => (out, other)
      end
  end.

End Producer.

End Stream.

(* ================================================================== *)
(** ** The Anthropic adapter (anthropic.ts) *)
(* ================================================================== *)

Module Anthropic.
Import Stream.

Definition provider : Sse.provider :=
  {| Sse.hasBusinessDelta := fun event =>
       let type := Js.opt "type" event in
       let delta := Js.opt "delta" event in
       Ok ((Js.equals "content_block_start" type
            && Js.equals "tool_use" (Js.opt "type" (Js.opt "content_block" event)))
           || (Js.equals "content_block_delta" type
               && ((Js.equals "text_delta" (Js.opt "type" delta)
                    && Js.truthy (Js.opt "text" delta))
                   || (Js.equals "thinking_delta" (Js.opt "type" delta)
                       && Js.truthy (Js.opt "thinking" delta))
                   || (Js.equals "input_json_delta" (Js.opt "type" delta)
                       && Js.truthy (Js.opt "partial_json" delta)))));
     Sse.incompleteError := Sse.contextError "Anthropic" |}.

(** An entry of [toolCallsBuffer]. *)
Record pending_call : Type := {
  call_id : Js.value;
  call_name : Js.value;
  call_arguments : string
}.

Record state : Type := {
  contentBuffer : string;
  thinkingTextBuffer : string;
  thinkingSignature : string;
  toolCallsBuffer : list (Js.value * pending_call);
  hasToolCalls : bool;
  usageData : option usage_info;
  blockIndexToId : list (Js.value * Js.value);
  blockIndexToType : list (Js.value * Js.value);
  completedToolBlocks : list Js.value
}.

Definition initial : state :=
  {| contentBuffer := EmptyString; thinkingTextBuffer := EmptyString;
     thinkingSignature := EmptyString; toolCallsBuffer := [];
     hasToolCalls := false; usageData := None; blockIndexToId := [];
     blockIndexToType := []; completedToolBlocks := [] |}.

(** The pattern that strips [parameter] tags, opening or closing, from a
    fragment of arguments. *)
Definition parameterTag : Regex.regex :=
  Regex.seqs [ Regex.chr "<"; Regex.Alt (Regex.chr "/") Regex.Eps;
               Regex.lit "parameter";
               Regex.Star (Regex.Cls (fun c => negb (Ascii.eqb c ">")));
               Regex.chr ">" ].

(** [jsonDelta.replace(...)]: only a string has the method. *)
Definition cleanDelta (jsonDelta : Js.value) : result string :=
  match jsonDelta with
  | Some (JStr s) => Ok (Regex.replace_all parameterTag (fun _ => EmptyString) s)
  | None =>
      Throw (Js.TypeError "Cannot read properties of undefined (reading 'replace')")
  | Some JNull =>
      Throw (Js.TypeError "Cannot read properties of null (reading 'replace')")
  | Some _ => Throw (Js.TypeError "jsonDelta.replace is not a function")
  end.

Section Adapter.
Context `{Js.Runtime}.

Definition continue (st : state) (out : list chunk) : state * list chunk * control :=
  (st, out, Exhausted).
Definition raise (st : state) (e : error) : state * list chunk * control :=
  (st, [], Raised e).

Definition on_content_block_start (st : state) (event : Js.value) :=
  let block := Js.opt "content_block" event in
  let blockIndex := Js.opt "index" event in
  match Js.get "type" block with
  | Throw e => raise st e
  | Ok blockType =>
      let types := Js.map_set blockIndex blockType (blockIndexToType st) in
      if Js.equals "tool_use" blockType then
        let blockId := Js.opt "id" block in
        continue
          {| contentBuffer := contentBuffer st;
             thinkingTextBuffer := thinkingTextBuffer st;
             thinkingSignature := thinkingSignature st;
             toolCallsBuffer :=
               Js.map_set blockId
                 {| call_id := blockId; call_name := Js.opt "name" block;
                    call_arguments := EmptyString |}
                 (toolCallsBuffer st);
             hasToolCalls := true;
             usageData := usageData st;
             blockIndexToId := Js.map_set blockIndex blockId (blockIndexToId st);
             blockIndexToType := types;
             completedToolBlocks := completedToolBlocks st |}
          [ToolCallDelta (Js.opt "name" block)]
      else
        continue
          {| contentBuffer := contentBuffer st;
             thinkingTextBuffer := thinkingTextBuffer st;
             thinkingSignature := thinkingSignature st;
             toolCallsBuffer := toolCallsBuffer st;
             hasToolCalls := hasToolCalls st;
             usageData := usageData st;
             blockIndexToId := blockIndexToId st;
             blockIndexToType := types;
             completedToolBlocks := completedToolBlocks st |}
          (if Js.equals "thinking" blockType then [ReasoningStarted] else [])
  end.

Definition with_buffers (content thinkingText sig : string) (st : state) : state :=
  {| contentBuffer := content; thinkingTextBuffer := thinkingText;
     thinkingSignature := sig; toolCallsBuffer := toolCallsBuffer st;
     hasToolCalls := hasToolCalls st; usageData := usageData st;
     blockIndexToId := blockIndexToId st;
     blockIndexToType := blockIndexToType st;
     completedToolBlocks := completedToolBlocks st |}.

Definition with_calls (calls : list (Js.value * pending_call)) (st : state) : state :=
  {| contentBuffer := contentBuffer st;
     thinkingTextBuffer := thinkingTextBuffer st;
     thinkingSignature := thinkingSignature st; toolCallsBuffer := calls;
     hasToolCalls := hasToolCalls st; usageData := usageData st;
     blockIndexToId := blockIndexToId st;
     blockIndexToType := blockIndexToType st;
     completedToolBlocks := completedToolBlocks st |}.

Definition with_usage (u : option usage_info) (st : state) : state :=
  {| contentBuffer := contentBuffer st;
     thinkingTextBuffer := thinkingTextBuffer st;
     thinkingSignature := thinkingSignature st;
     toolCallsBuffer := toolCallsBuffer st;
     hasToolCalls := hasToolCalls st; usageData := u;
     blockIndexToId := blockIndexToId st;
     blockIndexToType := blockIndexToType st;
     completedToolBlocks := completedToolBlocks st |}.

(** The four tests on [delta.type] exclude one another. *)
Definition on_content_block_delta (st : state) (event : Js.value) :=
  let delta := Js.opt "delta" event in
  match Js.get "type" delta with
  | Throw e => raise st e
  | Ok deltaType =>
      if Js.equals "text_delta" deltaType then
        let text := Js.opt "text" delta in
        continue (with_buffers (Js.append (contentBuffer st) text)
                    (thinkingTextBuffer st) (thinkingSignature st) st)
                 [Content text]
      else if Js.equals "thinking_delta" deltaType then
        let thinkingText := Js.opt "thinking" delta in
        continue (with_buffers (contentBuffer st)
                    (Js.append (thinkingTextBuffer st) thinkingText)
                    (thinkingSignature st) st)
                 [ReasoningDelta thinkingText]
      else if Js.equals "signature_delta" deltaType then
        continue (with_buffers (contentBuffer st) (thinkingTextBuffer st)
                    (Js.append (thinkingSignature st) (Js.opt "signature" delta)) st)
                 []
      else if Js.equals "input_json_delta" deltaType then
        let jsonDelta := Js.opt "partial_json" delta in
        let blockIndex := Js.opt "index" event in
        match Js.map_get blockIndex (blockIndexToId st) with
        | None => continue st []
        | Some toolId =>
            if Js.truthy toolId then
              match Js.map_get toolId (toolCallsBuffer st) with
              | None => continue st []
              | Some toolCall =>
                  match cleanDelta jsonDelta with
                  | Throw e => raise st e
                  | Ok cleanedDelta =>
                      if Text.is_empty cleanedDelta then continue st []
                      else
                        continue
                          (with_calls
                             (Js.map_set toolId
                                {| call_id := call_id toolCall;
                                   call_name := call_name toolCall;
                                   call_arguments :=
                                     call_arguments toolCall +++ cleanedDelta |}
                                (toolCallsBuffer st)) st)
                          [ToolCallDelta (Some (JStr cleanedDelta))]
                  end
              end
            else continue st []
        end
      else continue st []
  end.

Definition on_content_block_stop (st : state) (event : Js.value) :=
  match Js.map_get (Js.opt "index" event) (blockIndexToId st) with
  | Some toolId =>
      if Js.truthy toolId then
        continue
          {| contentBuffer := contentBuffer st;
             thinkingTextBuffer := thinkingTextBuffer st;
             thinkingSignature := thinkingSignature st;
             toolCallsBuffer := toolCallsBuffer st;
             hasToolCalls := hasToolCalls st; usageData := usageData st;
             blockIndexToId := blockIndexToId st;
             blockIndexToType := blockIndexToType st;
             completedToolBlocks :=
               if Js.set_has toolId (completedToolBlocks st)
               then completedToolBlocks st
               else completedToolBlocks st ++ [toolId] |}
          []
      else continue st []
  | None => continue st []
  end.

Definition on_message_start (st : state) (event : Js.value) :=
  match Js.get "usage" (Js.opt "message" event) with
  | Throw e => raise st e
  | Ok usage =>
      if Js.truthy usage then
        let input := Js.or_else (Js.opt "input_tokens" usage) (Some Js.zero) in
        let output := Js.or_else (Js.opt "output_tokens" usage) (Some Js.zero) in
        continue
          (with_usage
             (Some {| prompt_tokens := input;
                      completion_tokens := output;
                      total_tokens := Js.plus input output;
                      cache_creation_input_tokens :=
                        Js.opt "cache_creation_input_tokens" usage;
                      cache_read_input_tokens :=
                        Js.opt "cache_read_input_tokens" usage;
                      cached_tokens := Js.undefined |}) st)
          []
      else continue st []
  end.

Definition defined_or (new old : Js.value) : Js.value :=
  match new with None => old | Some _ => new end.

Definition on_message_delta (st : state) (event : Js.value) :=
  let usage := Js.opt "usage" event in
  if Js.truthy usage then
    let u0 := match usageData st with
              | Some u => u
              | None => {| prompt_tokens := Some Js.zero;
                           completion_tokens := Some Js.zero;
                           total_tokens := Some Js.zero;
                           cache_creation_input_tokens := Js.undefined;
                           cache_read_input_tokens := Js.undefined;
                           cached_tokens := Js.undefined |}
              end in
    let prompt := defined_or (Js.opt "input_tokens" usage) (prompt_tokens u0) in
    let completion := Js.or_else (Js.opt "output_tokens" usage) (Some Js.zero) in
    continue
      (with_usage
         (Some {| prompt_tokens := prompt;
                  completion_tokens := completion;
                  total_tokens := Js.plus prompt completion;
                  cache_creation_input_tokens :=
                    defined_or (Js.opt "cache_creation_input_tokens" usage)
                               (cache_creation_input_tokens u0);
                  cache_read_input_tokens :=
                    defined_or (Js.opt "cache_read_input_tokens" usage)
                               (cache_read_input_tokens u0);
                  cached_tokens := cached_tokens u0 |}) st)
      []
  else continue st [].

(** The body of [for await (const event of parseSSEStream(...))]. *)
Definition step (st : state) (event : Js.value) : state * list chunk * control :=
  match Js.get "type" event with
  | Throw e => raise st e
  | Ok type =>
      if Js.equals "content_block_start" type then on_content_block_start st event
      else if Js.equals "content_block_delta" type then on_content_block_delta st event
      else if Js.equals "content_block_stop" type then on_content_block_stop st event
      else if Js.equals "message_start" type then on_message_start st event
      else if Js.equals "message_delta" type then on_message_delta st event
      else continue st []
  end.

(** The two branches on [completedToolBlocks.has(toolCall.id)] differ in
    what they log only. *)
Definition finalArguments (toolCall : pending_call) : Js.value :=
  let args := Text.trim (call_arguments toolCall) in
  let args := if Text.is_empty args then "{}" else args in
  let parseResult :=
    parseJsonWithFix args
      {| logWarning := true; logError := true; toolName := EmptyString;
         fallbackValue := Some (JObj []) |} in
  match data parseResult with
  | Some v => Some (JStr (JSON_stringify v))
  | None => Js.undefined
  end.

Definition finalCall (toolCall : pending_call) : tool_call :=
  {| id := call_id toolCall; fname := call_name toolCall;
     arguments := finalArguments toolCall; thoughtSignature := Js.undefined |}.

Definition finalize (st : state) : list chunk :=
  (if hasToolCalls st && negb (Nat.eqb (length (toolCallsBuffer st)) 0)
   then [ToolCalls (map (fun kv => finalCall (snd kv)) (toolCallsBuffer st))]
   else [])
  ++ (match usageData st with Some u => [Usage u] | None => [] end)
  ++ [Done (if Text.is_empty (thinkingTextBuffer st) then None
            else Some {| thinking := thinkingTextBuffer st;
                         signature := if Text.is_empty (thinkingSignature st)
                                      then None
                                      else Some (thinkingSignature st) |})
           None].

(** One invocation of the producer wrapped by [withRetryGenerator] in
    [createStreamingAnthropicCompletion], from the response on. *)
Definition attempt (rq : request) (r : response) : list chunk * Sse.ending :=
  match r with
  | FetchFailed msg ty => ([], Sse.Threw (fetchError "Anthropic" rq msg ty))
  | NotOk status statusText errorText =>
      ([], Sse.Threw (statusError "Anthropic" status statusText errorText))
  | NoBody => ([], Sse.Threw (noBodyError "Anthropic"))
  | Body now script =>
      let '(_, events, ending) :=
        Sse.parseSSEStream provider (Guard.adapter_params (idleTimeoutMs rq))
                           now script in
      produce step finalize (events, ending) initial
  end.

End Adapter.
End Anthropic.

(* ================================================================== *)
(** ** The OpenAI Chat Completions adapter (chat.ts) *)
(* ================================================================== *)

Module Chat.
Import Stream.

Section Adapter.
Context `{Js.Runtime}.

Definition choiceHasDelta (choice : json) : result bool :=
  let delta := Js.opt "delta" (Some choice) in
  let tool_calls := Js.opt "tool_calls" delta in
  Ok (Js.truthy (Js.opt "content" delta)
      || Js.truthy (Js.opt "reasoning_content" delta)
      || (Js.truthy tool_calls
          && match tool_calls with
             | Some x => Js.length_positive x
             | None => false
             end)).

Definition provider : Sse.provider :=
  {| Sse.hasBusinessDelta := fun chunk =>
       Js.opt_some "chunk.choices" choiceHasDelta (Js.opt "choices" chunk);
     Sse.incompleteError := Sse.contextError "OpenAI" |}.

(** An entry of [toolCallsBuffer]; [name] and [arguments] start empty and
    grow by [+=], so they stay strings. *)
Record pending_call : Type := {
  call_id : Js.value;
  call_name : string;
  call_arguments : string
}.

Record state : Type := {
  contentBuffer : string;
  toolCallsBuffer : list (string * pending_call);
  hasToolCalls : bool;
  usageData : option usage_info;
  reasoningStarted : bool;
  reasoningContentBuffer : string
}.

Definition initial : state :=
  {| contentBuffer := EmptyString; toolCallsBuffer := []; hasToolCalls := false;
     usageData := None; reasoningStarted := false;
     reasoningContentBuffer := EmptyString |}.

Definition with_calls (calls : list (string * pending_call)) (st : state) : state :=
  {| contentBuffer := contentBuffer st; toolCallsBuffer := calls;
     hasToolCalls := hasToolCalls st; usageData := usageData st;
     reasoningStarted := reasoningStarted st;
     reasoningContentBuffer := reasoningContentBuffer st |}.

(** One turn of [for (const deltaCall of deltaToolCalls)]. *)
Definition on_deltaCall (st : state) (deltaCall : json)
  : result (state * list chunk) :=
  match Js.get "index" (Some deltaCall) with
  | Throw e => Throw e
  | Ok i =>
      let index := Js.string_of (Js.nullish_or i (Some Js.zero)) in
      let entry :=
        match lookup index (toolCallsBuffer st) with
        | Some x => x
        | None => {| call_id := Some (JStr EmptyString);
                     call_name := EmptyString;
                     call_arguments := EmptyString |}
        end in
      let callId := Js.opt "id" (Some deltaCall) in
      let fn := Js.opt "function" (Some deltaCall) in
      let fnName := Js.opt "name" fn in
      let fnArgs := Js.opt "arguments" fn in
      let deltaText :=
        (if Js.truthy fnName then Js.string_of fnName else EmptyString)
        +++ (if Js.truthy fnArgs then Js.string_of fnArgs else EmptyString) in
      let entry' :=
        {| call_id := if Js.truthy callId then callId else call_id entry;
           call_name := if Js.truthy fnName
                        then Js.append (call_name entry) fnName
                        else call_name entry;
           call_arguments := if Js.truthy fnArgs
                             then Js.append (call_arguments entry) fnArgs
                             else call_arguments entry |} in
      Ok (with_calls (obj_set index entry' (toolCallsBuffer st)) st,
          if Text.is_empty deltaText then []
          else [ToolCallDelta (Some (JStr deltaText))])
  end.

Fixpoint on_deltaCalls (st : state) (calls : list json)
  : state * list chunk * control :=
  match calls with
  | [] => (st, [], Exhausted)
  | deltaCall :: rest =>
      match on_deltaCall st deltaCall with
      | Throw e => (st, [], Raised e)
      | Ok (st', out) =>
          let '(st'', out', c) := on_deltaCalls st' rest in (st'', out ++ out', c)
      end
  end.

(** The body of [for await (const chunk of parseSSEStream(...))]. *)
Definition step (st : state) (chunk : Js.value)
  : state * list Stream.chunk * control :=
  match Js.get "usage" chunk with
  | Throw e => (st, [], Raised e)
  | Ok usageValue =>
      let usageData' :=
        match usageValue with
        | None | Some JNull => usageData st
        | Some _ =>
            Some {| prompt_tokens :=
                      Js.or_else (Js.opt "prompt_tokens" usageValue) (Some Js.zero);
                    completion_tokens :=
                      Js.or_else (Js.opt "completion_tokens" usageValue) (Some Js.zero);
                    total_tokens :=
                      Js.or_else (Js.opt "total_tokens" usageValue) (Some Js.zero);
                    cache_creation_input_tokens := Js.undefined;
                    cache_read_input_tokens := Js.undefined;
                    cached_tokens :=
                      Js.opt "cached_tokens"
                        (Js.opt "prompt_tokens_details" usageValue) |}
        end in
      let st :=
        {| contentBuffer := contentBuffer st;
           toolCallsBuffer := toolCallsBuffer st;
           hasToolCalls := hasToolCalls st; usageData := usageData';
           reasoningStarted := reasoningStarted st;
           reasoningContentBuffer := reasoningContentBuffer st |} in
      match Js.opt "choices" chunk with
      | None =>
          (st, [], Raised (Js.TypeError
             "Cannot read properties of undefined (reading '0')"))
      | Some JNull =>
          (st, [], Raised (Js.TypeError
             "Cannot read properties of null (reading '0')"))
      | Some choices =>
          let choice := Js.first choices in
          if negb (Js.truthy choice) then (st, [], Exhausted)
          else
            let delta := Js.opt "delta" choice in
            let content := Js.opt "content" delta in
            let reasoningContent := Js.opt "reasoning_content" delta in
            let deltaToolCalls := Js.opt "tool_calls" delta in
            let out1 := if Js.truthy content then [Content content] else [] in
            let out2 :=
              if Js.truthy reasoningContent
              then (if reasoningStarted st then [] else [ReasoningStarted])
                   ++ [ReasoningDelta reasoningContent]
              else [] in
            let st1 :=
              {| contentBuffer := if Js.truthy content
                                  then Js.append (contentBuffer st) content
                                  else contentBuffer st;
                 toolCallsBuffer := toolCallsBuffer st;
                 hasToolCalls := hasToolCalls st || Js.truthy deltaToolCalls;
                 usageData := usageData st;
                 reasoningStarted :=
                   reasoningStarted st || Js.truthy reasoningContent;
                 reasoningContentBuffer :=
                   if Js.truthy reasoningContent
                   then Js.append (reasoningContentBuffer st) reasoningContent
                   else reasoningContentBuffer st |} in
            let finished :=
              if Js.truthy (Js.opt "finish_reason" choice) then Broke else Exhausted in
            if Js.truthy deltaToolCalls then
              match Js.iterate deltaToolCalls with
              | Throw e => (st1, out1 ++ out2, Raised e)
              | Ok calls =>
                  match on_deltaCalls st1 calls with
                  | (st2, out3, Exhausted) => (st2, out1 ++ out2 ++ out3, finished)
                  | (st2, out3, c) => (st2, out1 ++ out2 ++ out3, c)
                  end
              end
            else (st1, out1 ++ out2, finished)
      end
  end.

Definition finalCall (kv : string * pending_call) : tool_call :=
  {| id := call_id (snd kv);
     fname := Some (JStr (call_name (snd kv)));
     arguments := Some (JStr (call_arguments (snd kv)));
     thoughtSignature := Js.undefined |}.

Definition finalize (st : state) : list chunk :=
  (if hasToolCalls st then [ToolCalls (map finalCall (toolCallsBuffer st))] else [])
  ++ (match usageData st with Some u => [Usage u] | None => [] end)
  ++ [Done None (if Text.is_empty (reasoningContentBuffer st) then None
                 else Some (reasoningContentBuffer st))].

(** One invocation of the producer wrapped in [createStreamingChatCompletion]. *)
Definition attempt (rq : request) (r : response) : list chunk * Sse.ending :=
  match r with
  | FetchFailed msg ty => ([], Sse.Threw (fetchError "OpenAI" rq msg ty))
  | NotOk status statusText errorText =>
      ([], Sse.Threw (statusError "OpenAI" status statusText errorText))
  | NoBody => ([], Sse.Threw (noBodyError "OpenAI"))
  | Body now script =>
      let '(_, events, ending) :=
        Sse.parseSSEStream provider (Guard.adapter_params (idleTimeoutMs rq))
                           now script in
      produce step finalize (events, ending) initial
  end.

End Adapter.
End Chat.

(* ================================================================== *)
(** ** The OpenAI Responses adapter (responses.ts) *)
(* ================================================================== *)

Module Responses.
Import Stream.

Definition provider : Sse.provider :=
  {| Sse.hasBusinessDelta := fun event =>
       let type := Js.opt "type" event in
       let delta := Js.opt "delta" event in
       Ok ((Js.equals "response.output_text.delta" type && Js.truthy delta)
           || (Js.equals "response.reasoning_summary_text.delta" type
               && Js.truthy delta)
           || (Js.equals "response.function_call_arguments.delta" type
               && Js.truthy delta)
           || (Js.equals "response.output_item.added" type
               && Js.equals "function_call" (Js.opt "type" (Js.opt "item" event))));
     Sse.incompleteError := fun _ _ buffer =>
       Error ("Stream terminated unexpectedly with incomplete data: "
              +++ Text.substring0 100 buffer +++ "...") |}.

Record pending_call : Type := {
  call_id : Js.value;
  call_name : Js.value;
  call_arguments : Js.value
}.

Record state : Type := {
  contentBuffer : string;
  toolCallsBuffer : list (string * pending_call);
  hasToolCalls : bool;
  currentFunctionCallId : Js.value;
  usageData : option usage_info;
  reasoningData : option reasoning
}.

Definition initial : state :=
  {| contentBuffer := EmptyString; toolCallsBuffer := []; hasToolCalls := false;
     currentFunctionCallId := Some JNull; usageData := None;
     reasoningData := None |}.

Section Adapter.
Context `{Js.Runtime}.

Definition continue (st : state) (out : list chunk) : state * list chunk * control :=
  (st, out, Exhausted).

Definition with_calls (calls : list (string * pending_call)) (current : Js.value)
           (has : bool) (st : state) : state :=
  {| contentBuffer := contentBuffer st; toolCallsBuffer := calls;
     hasToolCalls := has; currentFunctionCallId := current;
     usageData := usageData st; reasoningData := reasoningData st |}.

Definition on_item_added (st : state) (chunk : Js.value) :=
  let item := Js.opt "item" chunk in
  let itemType := Js.opt "type" item in
  if Js.equals "reasoning" itemType then continue st [ReasoningStarted]
  else if Js.equals "message" itemType then continue st []
  else if Js.equals "function_call" itemType then
    let callId := Js.or_else (Js.opt "call_id" item) (Js.opt "id" item) in
    continue
      (with_calls
         (obj_set (Js.string_of callId)
            {| call_id := callId;
               call_name := Js.or_else (Js.opt "name" item) (Some (JStr EmptyString));
               call_arguments := Some (JStr EmptyString) |}
            (toolCallsBuffer st))
         callId true st)
      []
  else continue st [].

Definition on_arguments_delta (st : state) (chunk : Js.value) :=
  let delta := Js.opt "delta" chunk in
  if Js.truthy delta && Js.truthy (currentFunctionCallId st) then
    let key := Js.string_of (currentFunctionCallId st) in
    match lookup key (toolCallsBuffer st) with
    | None =>
        (st, [], Raised (Js.TypeError
           "Cannot read properties of undefined (reading 'function')"))
    | Some entry =>
        continue
          (with_calls
             (obj_set key
                {| call_id := call_id entry; call_name := call_name entry;
                   call_arguments := Js.plus (call_arguments entry) delta |}
                (toolCallsBuffer st))
             (currentFunctionCallId st) (hasToolCalls st) st)
          [ToolCallDelta delta]
    end
  else continue st [].

Definition on_arguments_done (st : state) (chunk : Js.value) :=
  let itemId := Js.opt "item_id" chunk in
  let args := Js.opt "arguments" chunk in
  let calls :=
    if Js.truthy itemId then
      match lookup (Js.string_of itemId) (toolCallsBuffer st) with
      | Some entry =>
          obj_set (Js.string_of itemId)
            {| call_id := call_id entry; call_name := call_name entry;
               call_arguments := args |}
            (toolCallsBuffer st)
      | None => toolCallsBuffer st
      end
    else toolCallsBuffer st in
  continue (with_calls calls (Some JNull) (hasToolCalls st) st) [].

Definition on_item_done (st : state) (chunk : Js.value) :=
  let item := Js.opt "item" chunk in
  let itemType := Js.opt "type" item in
  if Js.equals "function_call" itemType then
    let callId := Js.or_else (Js.opt "call_id" item) (Js.opt "id" item) in
    match lookup (Js.string_of callId) (toolCallsBuffer st) with
    | Some entry =>
        continue
          (with_calls
             (obj_set (Js.string_of callId)
                {| call_id := call_id entry;
                   call_name := Js.opt "name" item;
                   call_arguments := Js.opt "arguments" item |}
                (toolCallsBuffer st))
             (currentFunctionCallId st) (hasToolCalls st) st)
          []
    | None => continue st []
    end
  else if Js.equals "reasoning" itemType then
    continue
      {| contentBuffer := contentBuffer st;
         toolCallsBuffer := toolCallsBuffer st;
         hasToolCalls := hasToolCalls st;
         currentFunctionCallId := currentFunctionCallId st;
         usageData := usageData st;
         reasoningData :=
           Some {| summary := Js.opt "summary" item;
                   reasoning_content_items := Js.opt "content" item;
                   encrypted_content := Js.opt "encrypted_content" item |} |}
      []
  else continue st [].

Definition on_completed (st : state) (chunk : Js.value) :=
  let response := Js.opt "response" chunk in
  let usage := Js.opt "usage" response in
  ({| contentBuffer := contentBuffer st;
      toolCallsBuffer := toolCallsBuffer st;
      hasToolCalls := hasToolCalls st;
      currentFunctionCallId := currentFunctionCallId st;
      usageData :=
        if Js.truthy response && Js.truthy usage then
          Some {| prompt_tokens :=
                    Js.or_else (Js.opt "input_tokens" usage) (Some Js.zero);
                  completion_tokens :=
                    Js.or_else (Js.opt "output_tokens" usage) (Some Js.zero);
                  total_tokens :=
                    Js.or_else (Js.opt "total_tokens" usage) (Some Js.zero);
                  cache_creation_input_tokens := Js.undefined;
                  cache_read_input_tokens := Js.undefined;
                  cached_tokens :=
                    Js.opt "cached_tokens" (Js.opt "input_tokens_details" usage) |}
        else usageData st;
      reasoningData := reasoningData st |},
   @nil Stream.chunk, Broke).

Definition on_failed (st : state) (chunk : Js.value) :=
  let error := Js.opt "error" chunk in
  if Js.truthy error then
    (st, @nil Stream.chunk,
     Raised (Error ("Response failed: "
                    +++ Js.string_of (Js.or_else (Js.opt "message" error)
                                        (Some (JStr "Unknown error"))))))
  else (st, [], Broke).

(** The body of [for await (const chunk of parseSSEStream(...))]. *)
Definition step (st : state) (chunk : Js.value)
  : state * list Stream.chunk * control :=
  match Js.get "type" chunk with
  | Throw e => (st, [], Raised e)
  | Ok eventType =>
      if Js.equals "response.created" eventType
         || Js.equals "response.in_progress" eventType
      then continue st []
      else if Js.equals "response.output_item.added" eventType
      then on_item_added st chunk
      else if Js.equals "response.function_call_arguments.delta" eventType
      then on_arguments_delta st chunk
      else if Js.equals "response.function_call_arguments.done" eventType
      then on_arguments_done st chunk
      else if Js.equals "response.output_item.done" eventType
      then on_item_done st chunk
      else if Js.equals "response.content_part.added" eventType
      then continue st []
      else if Js.equals "response.reasoning_summary_text.delta" eventType
      then let delta := Js.opt "delta" chunk in
           continue st (if Js.truthy delta then [ReasoningDelta delta] else [])
      else if Js.equals "response.output_text.delta" eventType
      then let delta := Js.opt "delta" chunk in
           if Js.truthy delta
           then continue
                  {| contentBuffer := Js.append (contentBuffer st) delta;
                     toolCallsBuffer := toolCallsBuffer st;
                     hasToolCalls := hasToolCalls st;
                     currentFunctionCallId := currentFunctionCallId st;
                     usageData := usageData st;
                     reasoningData := reasoningData st |}
                  [Content delta]
           else continue st []
      else if Js.equals "response.output_text.done" eventType
              || Js.equals "response.content_part.done" eventType
      then continue st []
      else if Js.equals "response.completed" eventType
      then on_completed st chunk
      else if Js.equals "response.failed" eventType
              || Js.equals "response.cancelled" eventType
      then on_failed st chunk
      else continue st []
  end.

Definition finalCall (kv : string * pending_call) : tool_call :=
  {| id := call_id (snd kv); fname := call_name (snd kv);
     arguments := call_arguments (snd kv); thoughtSignature := Js.undefined |}.

Definition finalize (st : state) : list chunk :=
  (if hasToolCalls st then [ToolCalls (map finalCall (toolCallsBuffer st))] else [])
  ++ (match reasoningData st with Some r => [ReasoningData r] | None => [] end)
  ++ (match usageData st with Some u => [Usage u] | None => [] end)
  ++ [Done None None].

(** One invocation of the producer wrapped in [createStreamingResponse]. *)
Definition attempt (rq : request) (r : response) : list chunk * Sse.ending :=
  match r with
  | FetchFailed msg ty => ([], Sse.Threw (fetchError "OpenAI Responses" rq msg ty))
  | NotOk status statusText errorText =>
      ([], Sse.Threw (statusError "OpenAI Responses" status statusText errorText))
  | NoBody => ([], Sse.Threw (noBodyError "OpenAI Responses"))
  | Body now script =>
      let '(_, events, ending) :=
        Sse.parseSSEStream provider (Guard.adapter_params (idleTimeoutMs rq))
                           now script in
      produce step finalize (events, ending) initial
  end.

End Adapter.
End Responses.

(* ================================================================== *)
(** ** The Gemini adapter (gemini.ts): the decode loop is written inside
    the producer *)
(* ================================================================== *)

Module Gemini.
Import Stream.

Record state : Type := {
  contentBuffer : string;
  thinkingTextBuffer : string;
  sharedThoughtSignature : Js.value;
  toolCallsBuffer : list tool_call;
  hasToolCalls : bool;
  toolCallIndex : nat;
  totalTokens : Js.value * Js.value * Js.value;   (* prompt, completion, total *)
  buffer : string;
  guard : Guard.state;
  yields : nat;                  (* suspensions at [yield] within the current chunk *)
  touched : list Js.value
}.

Definition initial (now : Z) : state :=
  {| contentBuffer := EmptyString; thinkingTextBuffer := EmptyString;
     sharedThoughtSignature := Js.undefined; toolCallsBuffer := [];
     hasToolCalls := false; toolCallIndex := 0;
     totalTokens := (Some Js.zero, Some Js.zero, Some Js.zero);
     buffer := EmptyString; guard := Guard.createIdleTimeoutGuard now;
     yields := 0; touched := [] |}.

Definition frameOptions : ParseOptions :=
  {| logWarning := false; logError := true; toolName := "Gemini SSE stream";
     fallbackValue := None |}.

Definition incompleteError (buffer : string) : error :=
  Error ("[API_ERROR] [RETRIABLE] Gemini stream terminated unexpectedly with incomplete data"
         +++ ": " +++ Text.substring0 100 buffer +++ "...").

Section Adapter.
Context `{Js.Runtime}.
Variable p : Guard.params.

Definition partHasDelta (part : json) : result bool :=
  Ok (Js.truthy (Js.or_else (Js.opt "text" (Some part))
                            (Js.opt "functionCall" (Some part)))).

Definition candidateHasDelta (candidate : json) : result bool :=
  Js.opt_some "candidate.content.parts" partHasDelta
    (Js.opt "parts" (Js.opt "content" (Some candidate))).

Definition hasBusinessDelta (chunk : Js.value) : result bool :=
  Js.opt_some "chunk.candidates" candidateHasDelta (Js.opt "candidates" chunk).

Definition with_guard (g : Guard.state) (st : state) : state :=
  {| contentBuffer := contentBuffer st;
     thinkingTextBuffer := thinkingTextBuffer st;
     sharedThoughtSignature := sharedThoughtSignature st;
     toolCallsBuffer := toolCallsBuffer st; hasToolCalls := hasToolCalls st;
     toolCallIndex := toolCallIndex st; totalTokens := totalTokens st;
     buffer := buffer st; guard := g; yields := yields st;
     touched := touched st |}.

(** [yield c]: the consumer holds the chunk while timer callbacks may run. *)
Definition after_yield (ev : Sse.read_event) (st : state) : state :=
  {| contentBuffer := contentBuffer st;
     thinkingTextBuffer := thinkingTextBuffer st;
     sharedThoughtSignature := sharedThoughtSignature st;
     toolCallsBuffer := toolCallsBuffer st; hasToolCalls := hasToolCalls st;
     toolCallIndex := toolCallIndex st; totalTokens := totalTokens st;
     buffer := buffer st;
     guard := Guard.ticks p (Sse.timer_during_yield ev (yields st)) (guard st);
     yields := Datatypes.S (yields st);
     touched := touched st |}.

(** [if (!guard.isAbandoned()) yield c] *)
Definition yield_unless_abandoned (ev : Sse.read_event) (c : chunk) (st : state)
  : state * list chunk :=
  if Guard.isAbandoned (guard st) then (st, []) else (after_yield ev st, [c]).

Definition with_text (content thinkingText : string) (st : state) : state :=
  {| contentBuffer := content; thinkingTextBuffer := thinkingText;
     sharedThoughtSignature := sharedThoughtSignature st;
     toolCallsBuffer := toolCallsBuffer st; hasToolCalls := hasToolCalls st;
     toolCallIndex := toolCallIndex st; totalTokens := totalTokens st;
     buffer := buffer st; guard := guard st; yields := yields st;
     touched := touched st |}.

Definition stringifyArgs (fc : Js.value) : string :=
  match Js.or_else (Js.opt "args" fc) (Some (JObj [])) with
  | Some v => JSON_stringify v
  | None => "{}"
  end.

(** [if (part.functionCall) { ... }] *)
Definition on_functionCall (ev : Sse.read_event) (part : json) (st : state)
  : state * list chunk :=
  let fc := Js.opt "functionCall" (Some part) in
  if Js.truthy fc then
    let partSignature :=
      Js.or_else (Js.opt "thoughtSignature" (Some part))
                 (Js.opt "thought_signature" (Some part)) in
    let shared :=
      if Js.truthy partSignature && negb (Js.truthy (sharedThoughtSignature st))
      then partSignature else sharedThoughtSignature st in
    let toolCall :=
      {| id := Some (JStr ("call_" +++ Text.of_nat (toolCallIndex st)));
         fname := Js.opt "name" fc;
         arguments := Some (JStr (stringifyArgs fc));
         thoughtSignature :=
           if Js.truthy partSignature then partSignature
           else if Js.truthy (sharedThoughtSignature st)
                then sharedThoughtSignature st
                else Js.undefined |} in
    let st1 :=
      {| contentBuffer := contentBuffer st;
         thinkingTextBuffer := thinkingTextBuffer st;
         sharedThoughtSignature := shared;
         toolCallsBuffer := toolCallsBuffer st ++ [toolCall];
         hasToolCalls := true;
         toolCallIndex := Datatypes.S (toolCallIndex st);
         totalTokens := totalTokens st;
         buffer := buffer st; guard := guard st; yields := yields st;
         touched := touched st |} in
    (after_yield ev st1,
     [ToolCallDelta (Some (JStr (Js.string_of (Js.opt "name" fc)
                                 +++ stringifyArgs fc)))])
  else (st, []).

(** The body of [for (const part of candidate.content.parts)]. *)
Definition on_part (ev : Sse.read_event) (part : json) (st : state)
  : result (state * list chunk) :=
  match Js.get "thought" (Some part) with
  | Throw e => Throw e
  | Ok thought =>
      let text := Js.opt "text" (Some part) in
      let '(st1, out1) :=
        if Js.is_true thought && Js.truthy text then
          yield_unless_abandoned ev (ReasoningDelta text)
            (with_text (contentBuffer st)
                       (Js.append (thinkingTextBuffer st) text) st)
        else if Js.truthy text then
          yield_unless_abandoned ev (Content text)
            (with_text (Js.append (contentBuffer st) text)
                       (thinkingTextBuffer st) st)
        else (st, []) in
      let '(st2, out2) := on_functionCall ev part st1 in
      Ok (st2, out1 ++ out2)
  end.

Fixpoint on_parts (ev : Sse.read_event) (parts : list json) (st : state)
  : state * list chunk * option error :=
  match parts with
  | [] => (st, [], None)
  | part :: rest =>
      match on_part ev part st with
      | Throw e => (st, [], Some e)
      | Ok (st1, out1) =>
          let '(st2, out2, e) := on_parts ev rest st1 in (st2, out1 ++ out2, e)
      end
  end.

(** [if (chunk.candidates && chunk.candidates.length > 0) { ... }] *)
Definition on_candidates (ev : Sse.read_event) (chunk : Js.value) (st : state)
  : state * list Stream.chunk * option error :=
  match Js.get "candidates" chunk with
  | Throw e => (st, [], Some e)
  | Ok candidates =>
      if Js.truthy candidates
         && match candidates with Some x => Js.length_positive x | None => false end
      then
        let candidate := match candidates with Some x => Js.first x | None => None end in
        match Js.get "content" candidate with
        | Throw e => (st, [], Some e)
        | Ok content =>
            let parts := Js.opt "parts" content in
            if Js.truthy content && Js.truthy parts then
              match Js.iterate parts with
              | Throw e => (st, [], Some e)
              | Ok l => on_parts ev l st
              end
            else (st, [], None)
        end
      else (st, [], None)
  end.

Definition on_usageMetadata (chunk : Js.value) (st : state) : state :=
  let usageMetadata := Js.opt "usageMetadata" chunk in
  if Js.truthy usageMetadata then
    {| contentBuffer := contentBuffer st;
       thinkingTextBuffer := thinkingTextBuffer st;
       sharedThoughtSignature := sharedThoughtSignature st;
       toolCallsBuffer := toolCallsBuffer st; hasToolCalls := hasToolCalls st;
       toolCallIndex := toolCallIndex st;
       totalTokens :=
         (Js.or_else (Js.opt "promptTokenCount" usageMetadata) (Some Js.zero),
          Js.or_else (Js.opt "candidatesTokenCount" usageMetadata) (Some Js.zero),
          Js.or_else (Js.opt "totalTokenCount" usageMetadata) (Some Js.zero));
       buffer := buffer st; guard := guard st; yields := yields st;
       touched := touched st |}
  else st.

(** What is done with one [data:] frame that parses. *)
Definition on_frame (ev : Sse.read_event) (j : nat) (chunk : Js.value) (st : state)
  : state * list Stream.chunk * option error :=
  match hasBusinessDelta chunk with
  | Throw e => (st, [], Some e)
  | Ok delta =>
      let st1 :=
        {| contentBuffer := contentBuffer st;
           thinkingTextBuffer := thinkingTextBuffer st;
           sharedThoughtSignature := sharedThoughtSignature st;
           toolCallsBuffer := toolCallsBuffer st; hasToolCalls := hasToolCalls st;
           toolCallIndex := toolCallIndex st; totalTokens := totalTokens st;
           buffer := buffer st;
           guard := if delta then Guard.touch (Sse.clock ev j) (guard st)
                    else guard st;
           yields := yields st;
           touched := if delta then touched st ++ [chunk] else touched st |} in
      match on_candidates ev chunk st1 with
      | (st2, out, Some e) => (st2, out, Some e)
      | (st2, out, None) => (on_usageMetadata chunk st2, out, None)
      end
  end.

(** The loop [for (const line of lines)]: the sentinel leaves this loop
    only ([break]). *)
Fixpoint parse_lines (ev : Sse.read_event) (j : nat) (lines : list string)
         (st : state) : state * list chunk * option error :=
  match lines with
  | [] => (st, [], None)
  | line :: rest =>
      match Sse.classify line with
      | Sse.Sentinel => (st, [], None)
      | Sse.DataLine text =>
          let parseResult := parseJsonWithFix text frameOptions in
          if success parseResult then
            match on_frame ev j (data parseResult) st with
            | (st1, out1, Some e) => (st1, out1, Some e)
            | (st1, out1, None) =>
                let '(st2, out2, e) := parse_lines ev (Datatypes.S j) rest st1 in
                (st2, out1 ++ out2, e)
            end
          else parse_lines ev (Datatypes.S j) rest st
      | _ => parse_lines ev (Datatypes.S j) rest st
      end
  end.

(** How the [while (true)] loop is left. *)
Inductive loop_end : Type :=
| LoopBreak                 (* [break]: on to the finalization *)
| LoopReturn                (* [return]: the producer is over *)
| LoopThrow (e : error)
| LoopStalled.

Definition with_buffer (b : string) (st : state) : state :=
  {| contentBuffer := contentBuffer st;
     thinkingTextBuffer := thinkingTextBuffer st;
     sharedThoughtSignature := sharedThoughtSignature st;
     toolCallsBuffer := toolCallsBuffer st; hasToolCalls := hasToolCalls st;
     toolCallIndex := toolCallIndex st; totalTokens := totalTokens st;
     buffer := b; guard := guard st; yields := 0; touched := touched st |}.

Fixpoint read_loop (script : list Sse.read_event) (st : state)
  : state * list chunk * loop_end :=
  match script with
  | [] => (st, [], LoopStalled)
  | ev :: rest =>
      if Sse.signal_aborted ev
      then (with_guard (Guard.abandon p (guard st)) st, [], LoopReturn)
      else
        let st := with_guard (Guard.ticks p (Sse.timer_during_read ev) (guard st)) st in
        match Sse.read ev with
        | Sse.ReadFailure e => (st, [], LoopThrow e)
        | answer =>
            match Guard.getTimeoutError (guard st) with
            | Some timeoutError => (st, [], LoopThrow timeoutError)
            | None =>
                if Guard.isAbandoned (guard st) then read_loop rest st
                else
                  match answer with
                  | Sse.Chunk text =>
                      let (lines, buffer') :=
                        Text.pop (Text.split_lines (buffer st +++ text)) in
                      match parse_lines ev 0 lines (with_buffer buffer' st) with
                      | (st', out, Some e) => (st', out, LoopThrow e)
                      | (st', out, None) =>
                          let '(st'', out', e) := read_loop rest st' in
                          (st'', out ++ out', e)
                      end
                  | _ =>
                      if negb (Text.is_empty (Text.trim (buffer st)))
                      then (st, [], LoopThrow (incompleteError (buffer st)))
                      else (st, [], LoopBreak)
                  end
            end
        end
  end.

Definition finalize (st : state) : list chunk :=
  (if hasToolCalls st && negb (Nat.eqb (length (toolCallsBuffer st)) 0)
   then [ToolCalls (toolCallsBuffer st)] else [])
  ++ (let '(prompt, completion, total) := totalTokens st in
      if Js.gt_zero total
      then [Usage {| prompt_tokens := prompt; completion_tokens := completion;
                     total_tokens := total;
                     cache_creation_input_tokens := Js.undefined;
                     cache_read_input_tokens := Js.undefined;
                     cached_tokens := Js.undefined |}]
      else [])
  ++ [Done (if Text.is_empty (thinkingTextBuffer st) then None
            else Some {| thinking := thinkingTextBuffer st; signature := None |})
           None].

End Adapter.

Section Attempt.
Context `{Js.Runtime}.

(** One invocation of the producer wrapped in
    [createStreamingGeminiCompletion]. *)
Definition attempt (rq : request) (r : response) : list chunk * Sse.ending :=
  match r with
  | FetchFailed msg ty => ([], Sse.Threw (fetchError "Gemini" rq msg ty))
  | NotOk status statusText errorText =>
      ([], Sse.Threw (statusError "Gemini" status statusText errorText))
  | NoBody => ([], Sse.Threw (noBodyError "Gemini"))
  | Body now script =>
      match read_loop (Guard.adapter_params (idleTimeoutMs rq)) script (initial now) with
      | (st, out, LoopBreak) => (out ++ finalize st, Sse.Returned)
      | (_, out, LoopReturn) => (out, Sse.Returned)
      | (_, out, LoopThrow e) => (out, Sse.Threw e)
      | (_, out, LoopStalled) => (out, Sse.Stalled)
      end
  end.

End Attempt.
End Gemini.

(* ================================================================== *)
(** ** The four adapters side by side *)
(* ================================================================== *)

Inductive adapter : Type :=
| AnthropicMessages
| OpenAIChat
| OpenAIResponses
| GoogleGemini.


(** One invocation of the producer that [withRetryGenerator] wraps. *)
Definition attempt `{Js.Runtime} (a : adapter) (rq : Stream.request)
           (r : Stream.response) : list Stream.chunk * Sse.ending :=
  match a with
  | AnthropicMessages => Anthropic.attempt rq r
  | OpenAIChat => Chat.attempt rq r
  | OpenAIResponses => Responses.attempt rq r
  | GoogleGemini => Gemini.attempt rq r
  end.



(** *** A runtime for worked examples: the two operators on integer
    literals; on other operands [plus] concatenates. *)

Definition literal_Z (v : Js.value) : option Z :=
  match v with
  | Some (JNum n) =>
      match fraction n, exponent n with
      | None, None =>
          let magnitude :=
            match integer n with
            | IZero => 0%N
            | INonZero d ds => digits_value (digit_of_nz d :: ds) 0
            end in
          Some (if negative n then (- Z.of_N magnitude)%Z else Z.of_N magnitude)
      | _, _ => None
      end
  | _ => None
  end.

Definition number_of_Z (z : Z) : number :=
  match read_number (string_of_Z z) with
  | Some x => x
  | None => number_of_nat 0
  end.

#[export] Instance integer_runtime : Js.Runtime :=
  {| Js.plus := fun a b =>
       match literal_Z a, literal_Z b with
       | Some x, Some y => Some (JNum (number_of_Z (x + y)))
       | _, _ => Some (JStr (Js.string_of a +++ Js.string_of b))
       end;
     Js.gt_zero := fun a =>
       match literal_Z a with
       | Some x => (0 <? x)%Z
       | None => false
       end |}.

(** A turn of the read loop during which nothing else happens: no abort, no
    timer callback, and the clock stands at [now]. *)
Definition quiet (now : Z) (r : Sse.read_result) : Sse.read_event :=
  {| Sse.signal_aborted := false; Sse.timer_during_read := [];
     Sse.read := r; Sse.clock := fun _ => now;
     Sse.timer_during_yield := fun _ => [] |}.

(** The text of consecutive [data:] frames, each followed by an empty line;
    quotes are written as apostrophes. *)
Definition data_frames (frames : list string) : string :=
  fold_right (fun f acc => "data: " +++ Text.qq f +++ Stream.NL +++ Stream.NL +++ acc)
             EmptyString frames.

(** *** The ordering invariant of a stream of chunks *)

Definition count_if {A : Type} (f : A -> bool) (l : list A) : nat :=
  length (filter f l).

(** At most one usage and one tool-calls chunk, and exactly one done chunk,
    which is the last chunk. *)
Definition well_ordered (chunks : list Stream.chunk) : Prop :=
  count_if Stream.is_usage chunks <= 1 /\
  count_if Stream.is_tool_calls chunks <= 1 /\
  count_if Stream.is_done chunks = 1 /\
  exists before block reasoning_content,
    chunks = before ++ [Stream.Done block reasoning_content].

(** The request is not cancelled while the response is read. *)
Definition not_cancelled (r : Stream.response) : Prop :=
  match r with
  | Stream.Body _ script =>
      Forall (fun ev => Sse.signal_aborted ev = false) script
  | _ => True
  end.

(** *** The frames that count as forward progress, adapter by adapter *)

(** Anthropic: the start of a tool-use block, or a content-block delta whose
    text, thinking text or argument fragment is not empty. *)
Definition anthropic_progress (event : Js.value) : Prop :=
  let type := Js.opt "type" event in
  let delta := Js.opt "delta" event in
  (Js.equals "content_block_start" type = true /\
   Js.equals "tool_use" (Js.opt "type" (Js.opt "content_block" event)) = true)
  \/
  (Js.equals "content_block_delta" type = true /\
   ((Js.equals "text_delta" (Js.opt "type" delta) = true
     /\ Js.truthy (Js.opt "text" delta) = true)
    \/ (Js.equals "thinking_delta" (Js.opt "type" delta) = true
        /\ Js.truthy (Js.opt "thinking" delta) = true)
    \/ (Js.equals "input_json_delta" (Js.opt "type" delta) = true
        /\ Js.truthy (Js.opt "partial_json" delta) = true))).

(** Responses: a text, reasoning-summary or argument delta that is not
    empty, or the addition of a function-call output item. *)
Definition responses_progress (event : Js.value) : Prop :=
  let type := Js.opt "type" event in
  ((Js.equals "response.output_text.delta" type = true
    \/ Js.equals "response.reasoning_summary_text.delta" type = true
    \/ Js.equals "response.function_call_arguments.delta" type = true)
   /\ Js.truthy (Js.opt "delta" event) = true)
  \/
  (Js.equals "response.output_item.added" type = true /\
   Js.equals "function_call" (Js.opt "type" (Js.opt "item" event)) = true).

(** Chat: some choice whose delta has content, reasoning content or a list
    of tool calls that is not empty. *)
Definition chat_progress `{Js.Runtime} (chunk : Js.value) : Prop :=
  exists choices choice,
    Js.opt "choices" chunk = Some (JArr choices) /\ In choice choices /\
    let delta := Js.opt "delta" (Some choice) in
    Js.truthy (Js.opt "content" delta) = true
    \/ Js.truthy (Js.opt "reasoning_content" delta) = true
    \/ exists tool_calls, Js.opt "tool_calls" delta = Some tool_calls
                          /\ Js.length_positive tool_calls = true.

(** Gemini: some part of some candidate with text or a function call. *)
Definition gemini_progress (chunk : Js.value) : Prop :=
  exists candidates candidate parts part,
    Js.opt "candidates" chunk = Some (JArr candidates) /\ In candidate candidates /\
    Js.opt "parts" (Js.opt "content" (Some candidate)) = Some (JArr parts) /\
    In part parts /\
    (Js.truthy (Js.opt "text" (Some part)) = true
     \/ Js.truthy (Js.opt "functionCall" (Some part)) = true).

(** The claim that only frames with text, reasoning or argument content
    touch the guard, for the decoder of anthropic.ts. *)
Definition anthropic_content (event : Js.value) : Prop :=
  let delta := Js.opt "delta" event in
  Js.equals "content_block_delta" (Js.opt "type" event) = true /\
  (Js.truthy (Js.opt "text" delta) = true
   \/ Js.truthy (Js.opt "thinking" delta) = true
   \/ Js.truthy (Js.opt "partial_json" delta) = true).

Definition touch_only_on_content : Prop :=
  forall (p : Guard.params) (now : Z) (script : list Sse.read_event),
    Forall anthropic_content
      (Sse.touched (fst (fst (Sse.parseSSEStream Anthropic.provider p now script)))).

(** Every frame on which the guard was touched passed the provider's test. *)
Definition touched_ok (P : Sse.provider) (st : Sse.decoder) : Prop :=
  Forall (fun f => Sse.hasBusinessDelta P f = Ok true) (Sse.touched st).

Definition gemini_touched_ok `{Js.Runtime} (st : Gemini.state) : Prop :=
  Forall (fun f => Gemini.hasBusinessDelta f = Ok true) (Gemini.touched st).

(* ================================================================== *)
(** ** Vocabulary for the properties of the retry orchestrator *)
(* ================================================================== *)

(** The observer, when there is one, returns normally. *)
Definition quiet_observer (opts : RetryOptions) : Prop :=
  match onRetry opts with
  | None => True
  | Some f => forall e n d, f e n d = None
  end.

(** The signal is not raised at attempts [from .. from + m - 1] nor during
    the waits that follow them. *)
Definition signal_quiet (sig : AbortSignal) (from m : nat) : Prop :=
  forall k, from <= k < from + m ->
            aborted_before sig k = false /\ aborted_in_delay sig k = false.

(** What the observer records for the failures of attempts
    [from .. from + m - 1]: attempt numbers count from 1 and the delay
    doubles with each attempt. *)
Definition backoff_log (opts : RetryOptions) (err : nat -> error) (from m : nat)
  : list notification :=
  match onRetry opts with
  | None => []
  | Some _ => map (fun k => (err k, S k, nextDelayOf opts k)) (seq from m)
  end.

(** An error that the wrappers retry when attempts remain: classified
    retriable and not a cancellation. *)
Definition retried (e : error) : Prop :=
  isRetriableError e = true /\ isAbortError e = false.

(** The attempt number and delay of each notification. *)
Definition schedule_of (log : list notification) : list (nat * Z) :=
  map (fun n => (snd (fst n), snd n)) log.

(** Failure [k] of a producer may be retried by [withRetryGenerator] as far
    as its output goes: the error matches the stream-interruption signature,
    or nothing has been yielded up to and including invocation [k]. *)
Definition resumable {T : Type} (fn : nat -> produced T) (e : error) (k : nat) : Prop :=
  isStreamInterruption e = true \/ forall j, j <= k -> fst (fn j) = [].

(** The elements yielded by invocations [from .. from + m - 1], in order. *)
Definition chunks_of {T : Type} (fn : nat -> produced T) (from m : nat) : list T :=
  flat_map (fun k => fst (fn k)) (seq from m).

(* ================================================================== *)
(** ** Vocabulary for the classification of errors *)
(* ================================================================== *)

(** The fragments that [isRetriableError] looks for in the lower-cased
    message, in the order of the source. *)
Definition retriable_keywords : list string :=
  [ "network"; "econnrefused"; "econnreset"; "etimedout"; "timeout";
    "rate limit"; "too many requests"; "429";
    "500"; "502"; "503"; "504"; "internal server error"; "bad gateway";
    "service unavailable"; "gateway timeout";
    "overloaded"; "unavailable";
    "terminated"; "connection reset"; "socket hang up";
    "invalid tool call json"; "incomplete tool call json" ].

(** The statuses that the classifier recognises by their number. *)
Definition retried_statuses : list string := [ "429"; "500"; "502"; "503"; "504" ].

(** The error raised for a response that is not a stream; [None] for a
    response with a body. *)
Definition transportError (vendor : string) (rq : Stream.request)
           (r : Stream.response) : option error :=
  match r with
  | Stream.FetchFailed msg ty => Some (Stream.fetchError vendor rq msg ty)
  | Stream.NotOk status statusText errorText =>
      Some (Stream.statusError vendor status statusText errorText)
  | Stream.NoBody => Some (Stream.noBodyError vendor)
  | Stream.Body _ _ => None
  end.

Definition vendor_of (a : adapter) : string :=
  match a with
  | AnthropicMessages => "Anthropic"
  | OpenAIChat => "OpenAI"
  | OpenAIResponses => "OpenAI Responses"
  | GoogleGemini => "Gemini"
  end.

(* ================================================================== *)
(** ** Vocabulary for the life of a guard *)
(* ================================================================== *)

(** What can happen to a guard after its creation: the interval callback
    runs, or one of the methods is called. *)
Inductive guard_event : Type :=
| Fires (now : Z)        (* the interval callback, at time [now] *)
| Touches (now : Z)      (* [touch()], at time [now] *)
| Abandons               (* [abandon()] *)
| Disposes.              (* [dispose()] *)

Definition guard_step (p : Guard.params) (g : Guard.state) (e : guard_event)
  : Guard.state :=
  match e with
  | Fires now => Guard.tick p now g
  | Touches now => Guard.touch now g
  | Abandons => Guard.abandon p g
  | Disposes => Guard.dispose g
  end.

Definition guard_run (p : Guard.params) (history : list guard_event)
           (g : Guard.state) : Guard.state :=
  fold_left (guard_step p) history g.

Definition is_abandons (e : guard_event) : bool :=
  match e with Abandons => true | _ => false end.

(** Every run of the callback comes within the threshold of the latest
    touch before it ([last] when there is none); nobody abandons or
    disposes of the guard. *)
Fixpoint fed (p : Guard.params) (last : Z) (history : list guard_event) : Prop :=
  match history with
  | [] => True
  | Fires now :: rest => (now - last <= Guard.idleTimeoutMs p)%Z /\ fed p last rest
  | Touches now :: rest => fed p now rest
  | Abandons :: _ | Disposes :: _ => False
  end.

(** Some callback of [times] runs later than the threshold after [last]. *)
Definition overdue (p : Guard.params) (last : Z) (times : list Z) : Prop :=
  Exists (fun now => (Guard.idleTimeoutMs p < now - last)%Z) times.

(** What holds of every guard that was created by [createIdleTimeoutGuard]
    and then used; [n] counts the calls of [abandon()]. *)
Definition guard_inv (p : Guard.params) (n : nat) (g : Guard.state) : Prop :=
  (Guard.timeoutError g = None
   \/ (Guard.timeoutError g = Some (Guard.capturedError p) /\ Guard.isAbandoned g = true)) /\
  Guard.cancels g <= n + (match Guard.timeoutError g with Some _ => 1 | None => 0 end) /\
  (Guard.reader p = false -> Guard.cancels g = 0).


(* ================================================================== *)
(** ** A tool call streamed by the Anthropic endpoint *)
(* ================================================================== *)

(** The frames of the scenario: the start of a tool-use block with id [t1],
    two argument fragments, the end of the block, and the usage. *)
Definition tool_call_frames : list string :=
  [ "{'type':'content_block_start','content_block':{'type':'tool_use','id':'t1'}}";
    "{'type':'content_block_delta','delta':{'type':'input_json_delta','partial_json':'{\'a\':1'}}";
    "{'type':'content_block_delta','delta':{'type':'input_json_delta','partial_json':'}'}}";
    "{'type':'content_block_stop'}";
    "{'type':'message_delta','usage':{'output_tokens':5}}" ].

(** The same frames with the second fragment as the scenario abbreviates it,
    a delta without a type. *)
Definition tool_call_frames_untyped : list string :=
  [ "{'type':'content_block_start','content_block':{'type':'tool_use','id':'t1'}}";
    "{'type':'content_block_delta','delta':{'type':'input_json_delta','partial_json':'{\'a\':1'}}";
    "{'type':'content_block_delta','delta':{'partial_json':'}'}}";
    "{'type':'content_block_stop'}";
    "{'type':'message_delta','usage':{'output_tokens':5}}" ].

(** A response that delivers the frames in one chunk and then ends. *)
Definition delivered (now : Z) (frames : list string) : Stream.response :=
  Stream.Body now [ quiet now (Sse.Chunk (data_frames frames));
                    quiet now Sse.EndOfStream ].

(** The finalized call and the usage of the scenario. *)
Definition scenario_call : Stream.tool_call :=
  {| Stream.id := Some (JStr "t1"); Stream.fname := None;
     Stream.arguments := Some (JStr (Text.qq "{'a':1}"));
     Stream.thoughtSignature := None |}.

Definition scenario_usage `{Js.Runtime} : Stream.usage_info :=
  {| Stream.prompt_tokens := Some (Js.of_nat 0);
     Stream.completion_tokens := Some (Js.of_nat 5);
     Stream.total_tokens := Js.plus (Some (Js.of_nat 0)) (Some (Js.of_nat 5));
     Stream.cache_creation_input_tokens := None;
     Stream.cache_read_input_tokens := None;
     Stream.cached_tokens := None |}.

(** The stall clock moves with the touches only: while no frame has touched
    the guard, its clock stands where the creation of the guard put it. *)
Definition clock_ok (created : Z) (touched : list Js.value) (g : Guard.state) : Prop :=
  touched = [] -> Guard.lastChunkTime g = created.

(* ================================================================== *)
(** * Properties *)
(* ================================================================== *)

From Stdlib Require Import Sorted.

(** ** Retry orchestrator *)

Section RetryFacts.
Context {T : Type}.
Variable opts : RetryOptions.
Variable sig : AbortSignal.

Lemma notify_quiet (f : error -> nat -> Z -> option error) e n d :
  onRetry opts = Some f -> (forall e n d, f e n d = None) ->
  notify opts e n d = ([(e, n, d)], None).
Proof.
  intros Hf Hq. unfold notify. rewrite Hf, Hq. reflexivity.
Qed.

(** The retry loop entered at [attempt], with [m] classified failures ahead
    of a success. *)
Lemma withRetry_loop_success (fn : nat -> result T) (err : nat -> error)
      (f : error -> nat -> Z -> option error) (v : T) :
  onRetry opts = Some f -> (forall e n d, f e n d = None) ->
  (forall k, aborted_before sig k = false) ->
  (forall k, aborted_in_delay sig k = false) ->
  forall m fuel attempt lastError,
    m < fuel ->
    (Z.of_nat (attempt + m) <= maxRetries opts)%Z ->
    (forall k, attempt <= k < attempt + m ->
               fn k = Throw (err k) /\ isRetriableError (err k) = true
               /\ isAbortError (err k) = false) ->
    fn (attempt + m) = Ok v ->
    let r := withRetry_loop fn opts sig fuel attempt lastError in
    outcome r = Ok v /\
    invocations r = S m /\
    notified r = map (fun k => (err k, S k, nextDelayOf opts k)) (seq attempt m).
Proof.
  intros Hf Hq Hs1 Hs2.
  induction m as [|m IH]; intros fuel attempt lastError Hfuel Hmax Hfail Hok;
    (destruct fuel as [|fuel]; [lia|]); cbv zeta; cbn [withRetry_loop]; rewrite Hs1.
  - rewrite Nat.add_0_r in Hok. rewrite Hok. cbn. auto.
  - destruct (Hfail attempt ltac:(lia)) as (Hthrow & Hretr & Hab).
    rewrite Hthrow, Hab.
    replace (Z.of_nat attempt >=? maxRetries opts)%Z with false
      by (symmetry; rewrite Z.geb_leb; apply Z.leb_gt; lia).
    rewrite Hretr. cbn [negb].
    rewrite (notify_quiet f) by assumption.
    unfold delay. rewrite Hs2.
    specialize (IH fuel (S attempt) (Some (err attempt))).
    destruct IH as (Ho & Hi & Hn).
    + lia.
    + replace (S attempt + m) with (attempt + S m) by lia. exact Hmax.
    + intros k Hk. apply Hfail. lia.
    + replace (S attempt + m) with (attempt + S m) by lia. exact Hok.
    + cbn [outcome invocations notified]. rewrite Ho, Hi, Hn.
      cbn [seq map app]. replace (attempt + 1) with (S attempt) by lia. auto.
Qed.

Lemma delays_increasing (attempt m : nat) :
  (0 < baseDelay opts)%Z ->
  Sorted Z.lt (map (nextDelayOf opts) (seq attempt m)).
Proof.
  intros Hb. revert attempt.
  induction m as [|m IH]; intros attempt; cbn [seq map]; [constructor|].
  constructor; [apply IH|].
  destruct m as [|m]; cbn [seq map]; constructor.
  unfold nextDelayOf. rewrite Nat2Z.inj_succ, Z.pow_succ_r by lia.
  assert (0 < 2 ^ Z.of_nat attempt)%Z by (apply Z.pow_pos_nonneg; lia).
  nia.
Qed.

Lemma withRetryGenerator_loop_fatal (fn : nat -> produced T) :
  forall fuel attempt lastError hasYielded k chunks e,
    let r := withRetryGenerator_loop fn opts sig fuel attempt lastError hasYielded in
    attempt <= k < attempt + gen_invocations r ->
    fn k = (chunks, Some e) ->
    hasYielded = true \/ yielded_by fn attempt k ->
    isStreamInterruption e = false ->
    gen_invocations r = S (k - attempt) /\ finished r = Some e.
Proof.
  induction fuel as [|fuel IH]; intros attempt lastError hasYielded k chunks e;
    cbn [withRetryGenerator_loop]; [cbn; lia|].
  destruct (aborted_before sig attempt); [cbn; lia|].
  destruct (fn attempt) as [chunks0 ending] eqn:Hfn.
  destruct (Nat.eq_dec k attempt) as [->|Hne].
  - intros _ Hk Hy Hint. rewrite Hfn in Hk. injection Hk as -> ->.
    assert (Hyes : hasYielded || nonempty chunks = true).
    { destruct Hy as [->|(j & Hj & Hne)]; [reflexivity|].
      assert (j = attempt) by lia; subst j. rewrite Hfn in Hne. cbn in Hne.
      destruct chunks; [congruence|]. apply orb_true_r. }
    rewrite Hyes, Hint. cbn [negb andb].
    rewrite Nat.sub_diag. destruct (isAbortError e); cbn; auto.
  - cbn zeta. intros Hk Hfk Hy Hint.
    assert (Hy' : hasYielded || nonempty chunks0 = true \/ yielded_by fn (S attempt) k).
    { destruct Hy as [->|(j & Hj & Hj')]; [left; reflexivity|].
      destruct (Nat.eq_dec j attempt) as [->|].
      - left. rewrite Hfn in Hj'. cbn in Hj'.
        destruct chunks0; [congruence|]. apply orb_true_r.
      - right. exists j. split; [lia|assumption]. }
    revert Hk.
    destruct ending as [e0|]; [|cbn; lia].
    destruct (isAbortError e0); [cbn; lia|].
    destruct (_ && negb (isStreamInterruption e0)); [cbn; lia|].
    destruct (_ >=? _)%Z; [cbn; lia|].
    destruct (negb _); [cbn; lia|].
    destruct (notify _ _ _ _) as [log [thrown|]]; [cbn; lia|].
    destruct (delay _ _); [|cbn; lia].
    cbn [gen_invocations finished]. intros Hk.
    destruct (IH (S attempt) (Some e0) (hasYielded || nonempty chunks0) k chunks e)
      as (Hi & Hf); try assumption; [lia|].
    rewrite Hi, Hf. split; [f_equal; lia|reflexivity].
Qed.

End RetryFacts.

(** C1 - streaming retry after partial output.  Let invocation [k] of the
    producer be one that the wrapper made, and let it fail with [e] once at
    least one element has been yielded (by it or by an earlier invocation).
    If [e] does not match the stream-interruption signature, [k] is the last
    invocation and the wrapper ends with [e] itself; so a further invocation
    happens only when [e] matches the signature. *)
Theorem withRetryGenerator_partial_output (T : Type) (fn : nat -> produced T)
        (opts : RetryOptions) (sig : AbortSignal)
        (k : nat) (chunks : list T) (e : error) :
  let r := withRetryGenerator fn opts sig in
  k < gen_invocations r ->
  fn k = (chunks, Some e) ->
  yielded_by fn 0 k ->
  (isStreamInterruption e = false ->
     gen_invocations r = S k /\ finished r = Some e) /\
  (S k < gen_invocations r -> isStreamInterruption e = true).
Proof.
  intros r Hk Hfn Hy.
  assert (Hfatal : isStreamInterruption e = false ->
                   gen_invocations r = S k /\ finished r = Some e).
  { intros Hint.
    destruct (withRetryGenerator_loop_fatal opts sig fn
                (Z.to_nat (maxRetries opts + 1)) 0 None false k chunks e)
      as (Hi & Hf); auto.
    - split; [lia|exact Hk].
    - rewrite Nat.sub_0_r in Hi. auto. }
  split; [exact Hfatal|].
  intros Hmore. destruct (isStreamInterruption e) eqn:Hint; [reflexivity|].
  destruct (Hfatal eq_refl) as (Hi & _). lia.
Qed.

Lemma withRetryGenerator_partial_output_witness :
  let fn := fun k : nat =>
              match k with
              | O => ([1], Some (Error "boom"))
              | S _ => ([2], None)
              end in
  let r := withRetryGenerator fn defaultOptions no_signal in
  (isStreamInterruption (Error "boom") = false ->
     gen_invocations r = 1 /\ finished r = Some (Error "boom")) /\
  (1 < gen_invocations r -> isStreamInterruption (Error "boom") = true).
Proof.
  intros fn r.
  apply (withRetryGenerator_partial_output nat fn defaultOptions no_signal
           0 [1] (Error "boom")).
  - vm_compute. lia.
  - reflexivity.
  - exists 0. split; [lia|]. cbn. discriminate.
Defined.

(** C3 - single-shot retry.  The operation fails on its first [m]
    invocations with errors that [isRetriableError] accepts and that are not
    cancellations, and succeeds on invocation [m + 1]; [m] does not exceed
    max-retries (so a fortiori when max-retries is at least [N = m + 1]); the
    abort signal stays quiet and the observer returns normally.  Then the
    wrapper returns the success value after exactly [m + 1] invocations, and
    the observer has been called exactly [m] times, call number [k] (from 0)
    with the error of invocation [k], the attempt number [k + 1] and the
    delay [baseDelay * 2^k]; for a positive base delay these delays are
    strictly increasing. *)
Theorem withRetry_retries_then_succeeds (T : Type) (fn : nat -> result T)
        (opts : RetryOptions) (sig : AbortSignal) (m : nat)
        (err : nat -> error) (f : error -> nat -> Z -> option error) (v : T) :
  (forall k, k < m -> fn k = Throw (err k)) ->
  (forall k, k < m -> isRetriableError (err k) = true) ->
  (forall k, k < m -> isAbortError (err k) = false) ->
  fn m = Ok v ->
  (Z.of_nat m <= maxRetries opts)%Z ->
  (forall k, aborted_before sig k = false) ->
  (forall k, aborted_in_delay sig k = false) ->
  onRetry opts = Some f ->
  (forall e n d, f e n d = None) ->
  let r := withRetry fn opts sig in
  outcome r = Ok v /\
  invocations r = S m /\
  notified r =
    map (fun k => (err k, S k, (baseDelay opts * 2 ^ Z.of_nat k)%Z)) (seq 0 m) /\
  length (notified r) = m /\
  ((0 < baseDelay opts)%Z -> Sorted Z.lt (map snd (notified r))).
Proof.
  intros Hfail Hretr Hab Hok Hmax Hs1 Hs2 Hf Hq r.
  destruct (withRetry_loop_success opts sig fn err f v Hf Hq Hs1 Hs2
              m (Z.to_nat (maxRetries opts + 1)) 0 None) as (Ho & Hi & Hn).
  - lia.
  - exact Hmax.
  - intros k Hk. repeat split; [apply Hfail|apply Hretr|apply Hab]; lia.
  - exact Hok.
  - subst r. unfold withRetry. rewrite Ho, Hi, Hn.
    repeat split; try reflexivity.
    + rewrite length_map, length_seq. reflexivity.
    + intros Hb. rewrite map_map. cbn [snd].
      apply (delays_increasing opts 0 m Hb).
Qed.

Lemma withRetry_retries_then_succeeds_witness :
  let fn := fun k : nat =>
              if k <? 2 then Throw (Error "network error") else Ok 7 in
  let opts := {| maxRetries := 5; baseDelay := 1000;
                 onRetry := Some (fun _ _ _ => None) |} in
  let r := withRetry fn opts no_signal in
  outcome r = Ok 7 /\
  invocations r = 3 /\
  notified r = [(Error "network error", 1, 1000%Z);
                (Error "network error", 2, 2000%Z)] /\
  length (notified r) = 2 /\
  ((0 < 1000)%Z -> Sorted Z.lt (map snd (notified r))).
Proof.
  intros fn opts r.
  apply (withRetry_retries_then_succeeds nat fn opts no_signal 2
           (fun _ => Error "network error") (fun _ _ _ => None) 7).
  - intros k Hk. destruct k as [|[|k]]; [reflexivity|reflexivity|lia].
  - intros k _. vm_compute. reflexivity.
  - intros k _. vm_compute. reflexivity.
  - reflexivity.
  - vm_compute. discriminate.
  - reflexivity.
  - reflexivity.
  - reflexivity.
  - reflexivity.
Defined.

(** ** Idle-timeout guard *)

Section GuardFacts.
Import Guard.
Variable p : params.

Lemma tick_abandoned now g : isAbandoned g = true -> tick p now g = g.
Proof.
  intros H. unfold tick, check. rewrite H. destruct (idleTimer g); reflexivity.
Qed.

Lemma ticks_cons now times g :
  ticks p (now :: times) g = ticks p times (tick p now g).
Proof. reflexivity. Qed.

Lemma ticks_abandoned times g : isAbandoned g = true -> ticks p times g = g.
Proof.
  revert g. induction times as [|now times IH]; intros g H; [reflexivity|].
  cbn. rewrite tick_abandoned by assumption. apply IH; assumption.
Qed.

Lemma tick_within now g :
  (now - lastChunkTime g <= idleTimeoutMs p)%Z -> tick p now g = g.
Proof.
  intros H. unfold tick, check.
  apply Z.leb_le in H. rewrite H.
  destruct (idleTimer g), (isAbandoned g); reflexivity.
Qed.

Lemma ticks_within times g :
  Forall (fun now => (now - lastChunkTime g <= idleTimeoutMs p)%Z) times ->
  ticks p times g = g.
Proof.
  induction 1 as [|now times H _ IH]; [reflexivity|].
  cbn. rewrite tick_within by assumption. exact IH.
Qed.

Lemma tick_beyond now g :
  live g -> (idleTimeoutMs p < now - lastChunkTime g)%Z ->
  timed_out p g (tick p now g).
Proof.
  intros (Ht & Ha & He) H. unfold tick, check, timed_out, getTimeoutError.
  rewrite Ht, Ha, He.
  replace (now - lastChunkTime g <=? idleTimeoutMs p)%Z with false
    by (symmetry; apply Z.leb_gt; exact H).
  unfold capturedError. cbn.
  destruct (onTimeout p) as [[thrown|]|]; auto.
Qed.

(** Periodic checks whose last one falls after the deadline. *)
Lemma periodic_checks_detect n : forall first g,
  live g ->
  (lastChunkTime g + idleTimeoutMs p
     < first + CHECK_INTERVAL_MS * Z.of_nat n)%Z ->
  timed_out p g (ticks p (periodic first (S n)) g).
Proof.
  induction n as [|n IH]; intros first g Hlive Hlast.
  - cbn. apply tick_beyond; [assumption|lia].
  - change (periodic first (S (S n)))
      with (first :: periodic (first + CHECK_INTERVAL_MS) (S n)).
    rewrite ticks_cons.
    destruct (Z_le_gt_dec (first - lastChunkTime g) (idleTimeoutMs p)) as [Hle|Hgt].
    + rewrite (tick_within first g Hle).
      apply (IH (first + CHECK_INTERVAL_MS)%Z g Hlive). lia.
    + pose proof (tick_beyond first g Hlive ltac:(lia)) as Hout.
      rewrite ticks_abandoned by apply Hout. exact Hout.
Qed.

Lemma periodic_bound n : forall first bound,
  (first + CHECK_INTERVAL_MS * Z.of_nat n <= bound + CHECK_INTERVAL_MS)%Z ->
  Forall (fun now => (now <= bound)%Z) (periodic first n).
Proof.
  unfold CHECK_INTERVAL_MS.
  induction n as [|n IH]; intros first bound Hb; cbn [periodic]; constructor.
  - lia.
  - apply IH. unfold CHECK_INTERVAL_MS. lia.
Qed.

End GuardFacts.

(** ** Text *)

Lemma startsWith_app p a b :
  Text.startsWith p a = true -> Text.startsWith p (a +++ b) = true.
Proof.
  revert a. induction p as [|c p IH]; intros a; [reflexivity|].
  destruct a as [|x a]; cbn; [discriminate|].
  destruct (Ascii.eqb c x); cbn; [apply IH|discriminate].
Qed.

Lemma includes_app_l p a b :
  Text.includes p a = true -> Text.includes p (a +++ b) = true.
Proof.
  induction a as [|x a IH]; intros Hin.
  - destruct p; [destruct b; reflexivity|discriminate].
  - cbn [Text.includes] in Hin. apply orb_true_iff in Hin.
    change (String x a +++ b) with (String x (a +++ b)).
    cbn [Text.includes]. apply orb_true_iff.
    destruct Hin as [Hs|Hi].
    + left. apply (startsWith_app p (String x a) b Hs).
    + right. apply IH, Hi.
Qed.

Lemma includes_app_r p a b :
  Text.includes p b = true -> Text.includes p (a +++ b) = true.
Proof.
  intros Hin. induction a as [|x a IH]; [exact Hin|].
  change (String x a +++ b) with (String x (a +++ b)).
  cbn [Text.includes]. rewrite IH. apply orb_true_r.
Qed.

Lemma toLowerCase_app a b :
  Text.toLowerCase (a +++ b) = Text.toLowerCase a +++ Text.toLowerCase b.
Proof.
  induction a as [|x a IH]; [reflexivity|]. cbn. rewrite IH. reflexivity.
Qed.

(** ** Classification of errors *)


Lemma search_later r c s b :
  Regex.search r s false = true -> Regex.search r (String c s) b = true.
Proof.
  intros Hs. cbn [Regex.search].
  destruct (Regex.match_at r (String c s) b); [reflexivity|exact Hs].
Qed.

Lemma search_after r pre s b :
  Regex.match_at r s false <> None ->
  (pre = EmptyString -> Regex.match_at r s b <> None) ->
  Regex.search r (pre +++ s) b = true.
Proof.
  intros Hm H0. revert b H0. induction pre as [|c pre IH]; intros b H0.
  - cbn [String.append]. specialize (H0 eq_refl).
    destruct s as [|x s]; cbn [Regex.search];
      destruct (Regex.match_at r _ b); try reflexivity; congruence.
  - change (String c pre +++ s) with (String c (pre +++ s)).
    apply search_later. apply IH. intros _. exact Hm.
Qed.

(** ** End of stream inside a frame *)









(** ** The sentinel [data: [DONE]] *)

Lemma classify_sentinel line :
  Text.trim line = "data: [DONE]" \/ Text.trim line = "data:[DONE]" ->
  Sse.classify line = Sse.Sentinel.
Proof.
  unfold Sse.classify. intros [-> | ->]; reflexivity.
Qed.

Section SentinelFacts.
Variable P : Sse.provider.
Variable p : Guard.params.

Lemma parse_lines_sentinel ev : forall pre j st st' out line post,
  Sse.parse_lines P p ev j pre st = (st', out, Sse.NextRead) ->
  Sse.classify line = Sse.Sentinel ->
  Sse.parse_lines P p ev j (pre ++ line :: post) st = (st', out, Sse.Finish).
Proof.
  induction pre as [|l pre IH]; intros j st st' out line post Hpre Hline.
  - cbn in Hpre. injection Hpre as <- <-. cbn. rewrite Hline. reflexivity.
  - cbn [app Sse.parse_lines] in *.
    destruct (Sse.classify l); try (apply IH; assumption); try discriminate.
    destruct (success _); [|apply IH; assumption].
    destruct (Sse.hasBusinessDelta P _) as [delta|e]; [|discriminate].
    destruct (Guard.isAbandoned _); [apply IH; assumption|].
    destruct (Sse.parse_lines P p ev (S j) pre _) as [[st1 out1] e1] eqn:E.
    injection Hpre as <- <- ->.
    rewrite (IH _ _ _ _ line post E Hline). reflexivity.
Qed.

(** The three copies of [parseSSEStream]: when the sentinel is reached, the
    generator returns, whatever follows it in the chunk, whatever is left in
    the buffer and whatever the reader would still deliver. *)
Lemma read_loop_sentinel ev rest st text pre line post buffer' st' out :
  Sse.signal_aborted ev = false ->
  Sse.read ev = Sse.Chunk text ->
  Guard.getTimeoutError (Guard.ticks p (Sse.timer_during_read ev) (Sse.guard st)) = None ->
  Guard.isAbandoned (Guard.ticks p (Sse.timer_during_read ev) (Sse.guard st)) = false ->
  Text.pop (Text.split_lines (Sse.buffer st +++ text)) = (pre ++ line :: post, buffer') ->
  Text.trim line = "data: [DONE]" \/ Text.trim line = "data:[DONE]" ->
  Sse.parse_lines P p ev 0 pre
    {| Sse.buffer := buffer'; Sse.dataCount := Sse.dataCount st;
       Sse.lastEventType := Sse.lastEventType st;
       Sse.guard := Guard.ticks p (Sse.timer_during_read ev) (Sse.guard st);
       Sse.touched := Sse.touched st |} = (st', out, Sse.NextRead) ->
  Sse.read_loop P p (ev :: rest) st = (st', out, Sse.Returned).
Proof.
  intros Hsig Hread Herr Hab Hpop Hline Hpre.
  cbn [Sse.read_loop]. rewrite Hsig, Hread.
  cbn [Sse.with_guard Sse.guard Sse.buffer Sse.dataCount Sse.lastEventType
       Sse.touched].
  rewrite Herr, Hab, Hpop.
  rewrite (parse_lines_sentinel ev pre 0 _ st' out line post Hpre
             (classify_sentinel line Hline)).
  reflexivity.
Qed.

End SentinelFacts.

(** C9 - the sentinel in the Gemini adapter.  The chunk
    [data: [DONE]] followed by a line feed and the unfinished line
    [residue], then the end of the stream: the Gemini producer fails with its
    incomplete-data error and yields nothing, while the decoder of
    anthropic.ts returns on the same input and the producer ends with
    [done]. *)
Theorem gemini_sentinel_does_not_end_stream :
  let rq := {| Stream.url := "u"; Stream.model := "m";
               Stream.idleTimeoutMs := 180000 |} in
  let body :=
    Stream.Body 0 [ quiet 0 (Sse.Chunk ("data: [DONE]" +++ Stream.NL +++ "residue"));
                    quiet 0 Sse.EndOfStream ] in
  attempt GoogleGemini rq body
  = ([], Sse.Threw (Gemini.incompleteError "residue"))
  /\ attempt AnthropicMessages rq body
     = ([Stream.Done None None], Sse.Returned).
Proof.
  split; vm_compute; reflexivity.
Qed.

(** ** Liveness touches *)

Section TouchFacts.
Variable P : Sse.provider.
Variable p : Guard.params.

Let touched_ok := touched_ok P.

Lemma parse_lines_touched ev : forall lines j st,
  touched_ok st -> touched_ok (fst (fst (Sse.parse_lines P p ev j lines st))).
Proof.
  induction lines as [|l lines IH]; intros j st Hst; [exact Hst|].
  cbn [Sse.parse_lines].
  destruct (Sse.classify l) as [| |ty|text|];
    try (apply IH; assumption); try exact Hst.
  destruct (success _); [|apply IH; assumption].
  destruct (Sse.hasBusinessDelta P _) as [delta|e] eqn:Hd; [|exact Hst].
  assert (Hst1 : forall g,
     touched_ok {| Sse.buffer := Sse.buffer st;
                   Sse.dataCount := S (Sse.dataCount st);
                   Sse.lastEventType := Sse.lastEventType st;
                   Sse.guard := g;
                   Sse.touched := if delta
                                  then Sse.touched st ++ [data (parseJsonWithFix text Sse.frameOptions)]
                                  else Sse.touched st |}).
  { intros g. unfold touched_ok. cbn [Sse.touched].
    destruct delta; [|exact Hst].
    apply Forall_app. split; [exact Hst|]. constructor; [exact Hd|constructor]. }
  destruct (Guard.isAbandoned _); [apply IH, Hst1|].
  match goal with
  | |- context [Sse.parse_lines P p ev (S j) lines ?s] =>
      specialize (IH (S j) s); destruct (Sse.parse_lines P p ev (S j) lines s)
        as [[st' out'] e']
  end.
  cbn [fst] in *. apply IH. unfold Sse.with_guard. cbn. apply Hst1.
Qed.

Lemma read_loop_touched : forall script st,
  touched_ok st -> touched_ok (fst (fst (Sse.read_loop P p script st))).
Proof.
  induction script as [|ev script IH]; intros st Hst; [exact Hst|].
  cbn [Sse.read_loop].
  destruct (Sse.signal_aborted ev); [exact Hst|].
  set (st0 := Sse.with_guard _ st).
  assert (Hst0 : touched_ok st0) by exact Hst.
  clearbody st0.
  assert (Hgo : forall answer : Sse.read_result,
    touched_ok (fst (fst
      match Guard.getTimeoutError (Sse.guard st0) with
      | Some timeoutError => (st0, [], Sse.Threw timeoutError)
      | None =>
          if Guard.isAbandoned (Sse.guard st0) then Sse.read_loop P p script st0
          else
            match answer with
            | Sse.Chunk text =>
                let (lines, buffer') :=
                  Text.pop (Text.split_lines (Sse.buffer st0 +++ text)) in
                let st :=
                  {| Sse.buffer := buffer'; Sse.dataCount := Sse.dataCount st0;
                     Sse.lastEventType := Sse.lastEventType st0;
                     Sse.guard := Sse.guard st0; Sse.touched := Sse.touched st0 |} in
                match Sse.parse_lines P p ev 0 lines st with
                | (st', out, Sse.NextRead) =>
                    let '(st'', out', e) := Sse.read_loop P p script st' in
                    (st'', out ++ out', e)
                | (st', out, Sse.Finish) => (st', out, Sse.Returned)
                | (st', out, Sse.Fail e) => (st', out, Sse.Threw e)
                end
            | _ =>
                if negb (Text.is_empty (Text.trim (Sse.buffer st0)))
                then (st0, [],
                      Sse.Threw (Sse.incompleteError P (Sse.dataCount st0)
                                   (Sse.lastEventType st0) (Sse.buffer st0)))
                else (st0, [], Sse.Returned)
            end
      end))).
  { intros answer.
    destruct (Guard.getTimeoutError _); [exact Hst0|].
    destruct (Guard.isAbandoned _); [apply IH, Hst0|].
    destruct answer as [text| |e].
    - destruct (Text.pop _) as [lines buffer']. cbv beta iota zeta.
      match goal with
      | |- context [Sse.parse_lines P p ev 0 lines ?s] =>
          pose proof (parse_lines_touched ev lines 0 s Hst0) as Hl;
          destruct (Sse.parse_lines P p ev 0 lines s) as [[st' out] e]
      end.
      cbn [fst] in Hl. destruct e; try exact Hl.
      specialize (IH st' Hl).
      destruct (Sse.read_loop P p script st') as [[st'' out'] e']. exact IH.
    - destruct (negb _); exact Hst0.
    - destruct (negb _); exact Hst0. }
  destruct (Sse.read ev) as [text| |e];
    [exact (Hgo (Sse.Chunk text))|exact (Hgo Sse.EndOfStream)|exact Hst0].
Qed.

Lemma parseSSEStream_touched now script :
  touched_ok (fst (fst (Sse.parseSSEStream P p now script))).
Proof.
  unfold Sse.parseSSEStream.
  match goal with
  | |- context [Sse.read_loop P p script ?s] =>
      pose proof (read_loop_touched script s (Forall_nil _)) as Hl;
      destruct (Sse.read_loop P p script s) as [[st out] e]
  end.
  exact Hl.
Qed.

End TouchFacts.

Section GeminiTouchFacts.
Context `{Js.Runtime}.
Variable p : Guard.params.

Lemma gemini_on_functionCall_touched ev part st :
  Gemini.touched (fst (Gemini.on_functionCall p ev part st)) = Gemini.touched st.
Proof.
  unfold Gemini.on_functionCall. destruct (Js.truthy _); reflexivity.
Qed.

Lemma gemini_yield_touched ev c st :
  Gemini.touched (fst (Gemini.yield_unless_abandoned p ev c st)) = Gemini.touched st.
Proof.
  unfold Gemini.yield_unless_abandoned. destruct (Guard.isAbandoned _); reflexivity.
Qed.

Lemma gemini_on_part_touched ev part st st' out :
  Gemini.on_part p ev part st = Ok (st', out) ->
  Gemini.touched st' = Gemini.touched st.
Proof.
  unfold Gemini.on_part. destruct (Js.get _ _) as [thought|e]; [|discriminate].
  match goal with
  | |- context [if ?c then ?a else ?b] =>
      assert (Ht : Gemini.touched (fst (if c then a else b)) = Gemini.touched st)
  end.
  { destruct (_ && _); [rewrite gemini_yield_touched; reflexivity|].
    destruct (Js.truthy _); [rewrite gemini_yield_touched; reflexivity|reflexivity]. }
  match goal with
  | |- context [if ?c then ?a else ?b] => destruct (if c then a else b) as [st1 out1]
  end.
  cbn [fst] in Ht.
  pose proof (gemini_on_functionCall_touched ev part st1) as Hf.
  destruct (Gemini.on_functionCall p ev part st1) as [st2 out2].
  cbn [fst] in Hf. intros Heq. injection Heq as <- <-. congruence.
Qed.

Lemma gemini_on_parts_touched ev : forall parts st,
  Gemini.touched (fst (fst (Gemini.on_parts p ev parts st))) = Gemini.touched st.
Proof.
  induction parts as [|part parts IH]; intros st; [reflexivity|].
  cbn [Gemini.on_parts].
  destruct (Gemini.on_part p ev part st) as [[st1 out1]|e] eqn:E; [|reflexivity].
  specialize (IH st1).
  destruct (Gemini.on_parts p ev parts st1) as [[st2 out2] e2].
  cbn [fst] in *. rewrite IH. apply (gemini_on_part_touched ev part st st1 out1 E).
Qed.

Lemma gemini_on_candidates_touched ev chunk st :
  Gemini.touched (fst (fst (Gemini.on_candidates p ev chunk st))) = Gemini.touched st.
Proof.
  unfold Gemini.on_candidates.
  destruct (Js.get "candidates" chunk) as [candidates|e]; [|reflexivity].
  destruct (_ && _); [|reflexivity].
  destruct (Js.get "content" _) as [content|e]; [|reflexivity].
  destruct (_ && _); [|reflexivity].
  destruct (Js.iterate _) as [l|e]; [|reflexivity].
  apply gemini_on_parts_touched.
Qed.

Lemma gemini_on_frame_touched ev j chunk st :
  gemini_touched_ok st ->
  gemini_touched_ok (fst (fst (Gemini.on_frame p ev j chunk st))).
Proof.
  intros Hst. unfold Gemini.on_frame.
  destruct (Gemini.hasBusinessDelta chunk) as [delta|e] eqn:Hd; [|exact Hst].
  match goal with
  | |- context [Gemini.on_candidates p ev chunk ?s] =>
      pose proof (gemini_on_candidates_touched ev chunk s) as Hc;
      destruct (Gemini.on_candidates p ev chunk s) as [[st2 out] e]
  end.
  cbn [fst Gemini.touched] in Hc.
  assert (Hok : gemini_touched_ok st2).
  { unfold gemini_touched_ok. rewrite Hc. destruct delta; [|exact Hst].
    apply Forall_app. split; [exact Hst|]. constructor; [exact Hd|constructor]. }
  destruct e; [exact Hok|].
  cbn [fst]. unfold Gemini.on_usageMetadata.
  destruct (Js.truthy _); exact Hok.
Qed.

Lemma gemini_parse_lines_touched ev : forall lines j st,
  gemini_touched_ok st ->
  gemini_touched_ok (fst (fst (Gemini.parse_lines p ev j lines st))).
Proof.
  induction lines as [|l lines IH]; intros j st Hst; [exact Hst|].
  cbn [Gemini.parse_lines].
  destruct (Sse.classify l) as [| |ty|text|];
    try (apply IH; assumption); try exact Hst.
  destruct (success _); [|apply IH; assumption].
  pose proof (gemini_on_frame_touched ev j
                (data (parseJsonWithFix text Gemini.frameOptions)) st Hst) as Hf.
  destruct (Gemini.on_frame p ev j _ st) as [[st1 out1] [e|]]; [exact Hf|].
  cbn [fst] in Hf. specialize (IH (S j) st1 Hf).
  destruct (Gemini.parse_lines p ev (S j) lines st1) as [[st2 out2] e2].
  exact IH.
Qed.

Lemma gemini_read_loop_touched : forall script st,
  gemini_touched_ok st ->
  gemini_touched_ok (fst (fst (Gemini.read_loop p script st))).
Proof.
  induction script as [|ev script IH]; intros st Hst; [exact Hst|].
  cbn [Gemini.read_loop].
  destruct (Sse.signal_aborted ev); [exact Hst|].
  set (st0 := Gemini.with_guard _ st).
  assert (Hst0 : gemini_touched_ok st0) by exact Hst.
  clearbody st0.
  destruct (Sse.read ev) as [text| |e]; [| |exact Hst0];
    (destruct (Guard.getTimeoutError _); [exact Hst0|]);
    (destruct (Guard.isAbandoned _); [apply IH, Hst0|]).
  - destruct (Text.pop _) as [lines buffer']. cbv beta iota zeta.
    pose proof (gemini_parse_lines_touched ev lines 0
                  (Gemini.with_buffer buffer' st0) Hst0) as Hl.
    destruct (Gemini.parse_lines p ev 0 lines _) as [[st' out] [e|]]; [exact Hl|].
    cbn [fst] in Hl. specialize (IH st' Hl).
    destruct (Gemini.read_loop p script st') as [[st'' out'] e']. exact IH.
  - destruct (negb _); exact Hst0.
Qed.

End GeminiTouchFacts.

(** *** What passes the provider's test *)

Lemma some_of_true f : forall l,
  Js.some_of f l = Ok true -> exists x, In x l /\ f x = Ok true.
Proof.
  induction l as [|x l IH]; cbn; [discriminate|].
  destruct (f x) as [[|]|e] eqn:E; intros Hs.
  - exists x. auto.
  - destruct (IH Hs) as (y & Hy & Hf). exists y. auto.
  - discriminate.
Qed.

Lemma opt_some_true what f v :
  Js.opt_some what f v = Ok true ->
  exists l x, v = Some (JArr l) /\ In x l /\ f x = Ok true.
Proof.
  destruct v as [[]|]; cbn; try discriminate.
  intros Hs. destruct (some_of_true f _ Hs) as (x & Hx & Hf).
  eauto.
Qed.

Ltac split_bools :=
  repeat match goal with
         | H : Ok _ = Ok _ |- _ => injection H as H
         | H : _ || _ = true |- _ => apply orb_true_iff in H; destruct H as [H|H]
         | H : _ && _ = true |- _ => apply andb_true_iff in H; destruct H as [? H]
         end.

Lemma anthropic_progress_spec event :
  Sse.hasBusinessDelta Anthropic.provider event = Ok true ->
  anthropic_progress event.
Proof.
  cbn [Sse.hasBusinessDelta Anthropic.provider]. unfold anthropic_progress.
  intros Hd. split_bools; tauto.
Qed.

Lemma responses_progress_spec event :
  Sse.hasBusinessDelta Responses.provider event = Ok true ->
  responses_progress event.
Proof.
  cbn [Sse.hasBusinessDelta Responses.provider]. unfold responses_progress.
  intros Hd. split_bools; tauto.
Qed.

Lemma chat_progress_spec `{Js.Runtime} chunk :
  Sse.hasBusinessDelta Chat.provider chunk = Ok true -> chat_progress chunk.
Proof.
  cbn [Sse.hasBusinessDelta Chat.provider]. intros Hd.
  destruct (opt_some_true _ _ _ Hd) as (choices & choice & Hc & Hin & Hf).
  exists choices, choice. repeat split; try assumption.
  unfold Chat.choiceHasDelta in Hf. cbv zeta.
  split_bools; [left; exact Hf|right; left; exact Hf|].
  right. right.
  change (Js.opt "delta" (Some choice))
    with (match choice with JNull => None | _ => Js.prop "delta" choice end).
  match type of Hf with
  | match ?t with _ => _ end = true => destruct t as [x|] eqn:E; [|discriminate]
  end.
  exists x. split; [exact E|exact Hf].
Qed.

Lemma gemini_progress_spec `{Js.Runtime} chunk :
  Gemini.hasBusinessDelta chunk = Ok true -> gemini_progress chunk.
Proof.
  unfold Gemini.hasBusinessDelta. intros Hd.
  destruct (opt_some_true _ _ _ Hd) as (candidates & candidate & Hc & Hin & Hf).
  unfold Gemini.candidateHasDelta in Hf.
  destruct (opt_some_true _ _ _ Hf) as (parts & part & Hp & Hin' & Hg).
  exists candidates, candidate, parts, part. repeat split; try assumption.
  unfold Gemini.partHasDelta in Hg.
  assert (Hg' : Js.truthy (Js.or_else (Js.opt "text" (Some part))
                             (Js.opt "functionCall" (Some part))) = true)
    by congruence.
  unfold Js.or_else in Hg'.
  destruct (Js.truthy (Js.opt "text" (Some part))) eqn:E; [left; reflexivity|].
  right. exact Hg'.
Qed.

(** ** More on the retry orchestrator *)

Section RetryMore.
Context {T : Type}.
Variable opts : RetryOptions.
Variable sig : AbortSignal.

Lemma notify_quiet_observer e n d :
  quiet_observer opts ->
  notify opts e n d
  = (match onRetry opts with None => [] | Some _ => [(e, n, d)] end, None).
Proof.
  unfold quiet_observer, notify. destruct (onRetry opts) as [f|]; [|reflexivity].
  intros Hq. rewrite Hq. reflexivity.
Qed.

Lemma backoff_log_cons err from m :
  backoff_log opts err from (S m)
  = match onRetry opts with None => [] | Some _ => [(err from, S from, nextDelayOf opts from)] end
    ++ backoff_log opts err (S from) m.
Proof.
  unfold backoff_log. destruct (onRetry opts); reflexivity.
Qed.

Lemma geb_false_of_lt (a b : Z) : (a < b)%Z -> (a >=? b)%Z = false.
Proof. intros Hlt. rewrite Z.geb_leb. apply Z.leb_gt. exact Hlt. Qed.

Lemma geb_true_of_le (a b : Z) : (b <= a)%Z -> (a >=? b)%Z = true.
Proof. intros Hle. rewrite Z.geb_leb. apply Z.leb_le. exact Hle. Qed.

(** [m] retried failures in a row: the loop arrives at attempt
    [attempt + m] with the observer's log extended and [m] invocations
    made. *)
Lemma withRetry_loop_retries (fn : nat -> result T) (err : nat -> error) :
  quiet_observer opts ->
  forall m fuel attempt lastError,
    signal_quiet sig attempt m ->
    (Z.of_nat (attempt + m) <= maxRetries opts)%Z ->
    (forall k, attempt <= k < attempt + m -> fn k = Throw (err k) /\ retried (err k)) ->
    exists lastError',
      let r := withRetry_loop fn opts sig (m + fuel) attempt lastError in
      let r' := withRetry_loop fn opts sig fuel (attempt + m) lastError' in
      outcome r = outcome r' /\
      notified r = backoff_log opts err attempt m ++ notified r' /\
      invocations r = m + invocations r' /\
      (m = 0 -> lastError' = lastError) /\
      (0 < m -> lastError' = Some (err (attempt + m - 1))).
Proof.
  intros Hq. induction m as [|m IH]; intros fuel attempt lastError Hsig Hmax Hfail.
  - exists lastError. cbv zeta. rewrite Nat.add_0_r.
    unfold backoff_log. destruct (onRetry opts); cbn; repeat split; auto; lia.
  - destruct (Hfail attempt ltac:(lia)) as (Hthrow & Hretr & Hab).
    destruct (Hsig attempt ltac:(lia)) as (Hs1 & Hs2).
    destruct (IH fuel (S attempt) (Some (err attempt))) as (last' & Ho & Hn & Hi & H0 & Hpos).
    + intros k Hk. apply Hsig. lia.
    + replace (S attempt + m) with (attempt + S m) by lia. exact Hmax.
    + intros k Hk. apply Hfail. lia.
    + exists last'. cbv zeta in *.
      change (S m + fuel) with (S (m + fuel)). cbn [withRetry_loop].
      rewrite Hs1, Hthrow, Hab,
        (geb_false_of_lt (Z.of_nat attempt) (maxRetries opts) ltac:(lia)), Hretr.
      cbn [negb]. rewrite notify_quiet_observer by exact Hq.
      unfold delay. rewrite Hs2.
      cbn [outcome notified invocations].
      replace (attempt + S m) with (S attempt + m) by lia.
      rewrite Ho, Hn, Hi, backoff_log_cons.
      replace (attempt + 1) with (S attempt) by lia.
      split; [reflexivity|]. split; [apply app_assoc|].
      split; [reflexivity|]. split; [intros Hm; discriminate|].
      intros _. destruct m as [|m'].
      * rewrite (H0 eq_refl). f_equal. f_equal. lia.
      * rewrite (Hpos ltac:(lia)). reflexivity.
Qed.

End RetryMore.

Section RetryOneFacts.
Context {T : Type}.
Variable fn : nat -> result T.
Variable opts : RetryOptions.
Variable sig : AbortSignal.

(** A failure that ends the loop: a cancellation error, an error that is not
    classified retriable, or the failure of the last attempt allowed. *)
Lemma withRetry_loop_fatal fuel attempt lastError e :
  aborted_before sig attempt = false ->
  fn attempt = Throw e ->
  isAbortError e = true \/ isRetriableError e = false
  \/ (maxRetries opts <= Z.of_nat attempt)%Z ->
  withRetry_loop fn opts sig (S fuel) attempt lastError
  = {| outcome := Throw e; notified := []; invocations := 1 |}.
Proof.
  intros Hs Hfn Hfatal. cbn [withRetry_loop]. rewrite Hs, Hfn.
  destruct (isAbortError e); [reflexivity|].
  destruct (Z.of_nat attempt >=? maxRetries opts)%Z eqn:Hge; [reflexivity|].
  destruct (isRetriableError e); [|reflexivity].
  destruct Hfatal as [Hf|[Hf|Hf]]; try discriminate.
  rewrite (geb_true_of_le _ _ Hf) in Hge. discriminate.
Qed.

Lemma withRetry_loop_unobserved :
  onRetry opts = None ->
  forall fuel attempt lastError,
    notified (withRetry_loop fn opts sig fuel attempt lastError) = [].
Proof.
  intros Hnone. induction fuel as [|fuel IH]; intros attempt lastError;
    cbn [withRetry_loop]; [reflexivity|].
  destruct (aborted_before sig attempt); [reflexivity|].
  destruct (fn attempt) as [v|e]; [reflexivity|].
  destruct (isAbortError e); [reflexivity|].
  destruct (_ >=? _)%Z; [reflexivity|].
  destruct (negb _); [reflexivity|].
  unfold notify. rewrite Hnone.
  destruct (delay sig attempt); [|reflexivity].
  cbn [notified app]. apply IH.
Qed.

Lemma withRetry_loop_bounds : forall fuel attempt lastError,
  let r := withRetry_loop fn opts sig fuel attempt lastError in
  invocations r <= fuel /\
  length (notified r) <= invocations r /\
  schedule_of (notified r)
  = map (fun k => (S k, nextDelayOf opts k)) (seq attempt (length (notified r))) /\
  (forall v, outcome r = Ok v ->
             0 < invocations r /\ fn (attempt + invocations r - 1) = Ok v).
Proof.
  induction fuel as [|fuel IH]; intros attempt lastError; cbv zeta;
    cbn [withRetry_loop].
  - cbn. repeat split; try lia; discriminate.
  - destruct (aborted_before sig attempt);
      [cbn; repeat split; try lia; discriminate|].
    destruct (fn attempt) as [v|e] eqn:Hfn.
    { cbn. repeat split; try lia; injection H as <-;
        replace (attempt + 1 - 1) with attempt by lia; exact Hfn. }
    destruct (isAbortError e); [cbn; repeat split; try lia; discriminate|].
    destruct (_ >=? _)%Z; [cbn; repeat split; try lia; discriminate|].
    destruct (negb _); [cbn; repeat split; try lia; discriminate|].
    unfold notify. destruct (onRetry opts) as [f|] eqn:Hnone.
    + destruct (f e (attempt + 1) (nextDelayOf opts attempt)) as [thrown|].
      { cbn. replace (attempt + 1) with (S attempt) by lia.
        repeat split; try lia; discriminate. }
      destruct (delay sig attempt).
      * specialize (IH (S attempt) (Some e)). cbv zeta in IH.
        destruct IH as (Hi & Hn & Hsched & Hok).
        cbn [outcome notified invocations app length]. repeat split; try lia.
        -- cbn [schedule_of map seq fst snd]. unfold schedule_of in Hsched.
           rewrite Hsched. replace (attempt + 1) with (S attempt) by lia.
           reflexivity.
        -- destruct (Hok v H) as (Hpos & Hv).
           replace (attempt + S (invocations _) - 1)
             with (S attempt + invocations
                     (withRetry_loop fn opts sig fuel (S attempt) (Some e)) - 1)
             by lia.
           exact Hv.
      * cbn. replace (attempt + 1) with (S attempt) by lia.
        repeat split; try lia; discriminate.
    + destruct (delay sig attempt).
      * specialize (IH (S attempt) (Some e)). cbv zeta in IH.
        destruct IH as (Hi & Hn & Hsched & Hok).
        cbn [outcome notified invocations app length]. repeat split; try lia.
        -- rewrite (withRetry_loop_unobserved Hnone). reflexivity.
        -- destruct (Hok v H) as (Hpos & Hv).
           replace (attempt + S (invocations _) - 1)
             with (S attempt + invocations
                     (withRetry_loop fn opts sig fuel (S attempt) (Some e)) - 1)
             by lia.
           exact Hv.
      * cbn. repeat split; try lia; discriminate.
Qed.

End RetryOneFacts.

Section RetryOneOutcomes.
Context {T : Type}.
Variable fn : nat -> result T.
Variable opts : RetryOptions.
Variable sig : AbortSignal.
Variable err : nat -> error.

Lemma fuel_split (m : nat) :
  (Z.of_nat m <= maxRetries opts)%Z ->
  Z.to_nat (maxRetries opts + 1) = m + S (Z.to_nat (maxRetries opts) - m).
Proof. intros Hm. lia. Qed.

(** After [m] retried failures the loop stands at attempt [m]. *)
Lemma withRetry_after_retries (m : nat) :
  quiet_observer opts ->
  signal_quiet sig 0 m ->
  (forall k, k < m -> fn k = Throw (err k) /\ retried (err k)) ->
  (Z.of_nat m <= maxRetries opts)%Z ->
  exists lastError,
    let r := withRetry fn opts sig in
    let r' := withRetry_loop fn opts sig (S (Z.to_nat (maxRetries opts) - m)) m lastError in
    outcome r = outcome r' /\
    notified r = backoff_log opts err 0 m ++ notified r' /\
    invocations r = m + invocations r'.
Proof.
  intros Hq Hsig Hfail Hmax.
  destruct (withRetry_loop_retries opts sig fn err Hq m
              (S (Z.to_nat (maxRetries opts) - m)) 0 None Hsig)
    as (last' & Ho & Hn & Hi & _).
  - exact Hmax.
  - intros k Hk. apply Hfail. lia.
  - exists last'. cbv zeta in *. unfold withRetry.
    rewrite (fuel_split m Hmax). auto.
Qed.

Lemma withRetry_stops (m : nat) (e : error) :
  quiet_observer opts ->
  signal_quiet sig 0 m ->
  aborted_before sig m = false ->
  (forall k, k < m -> fn k = Throw (err k) /\ retried (err k)) ->
  (Z.of_nat m <= maxRetries opts)%Z ->
  fn m = Throw e ->
  isAbortError e = true \/ isRetriableError e = false
  \/ (maxRetries opts <= Z.of_nat m)%Z ->
  let r := withRetry fn opts sig in
  outcome r = Throw e /\
  invocations r = S m /\
  notified r = backoff_log opts err 0 m.
Proof.
  intros Hq Hsig Hs Hfail Hmax Hfn Hfatal.
  destruct (withRetry_after_retries m Hq Hsig Hfail Hmax) as (last' & Ho & Hn & Hi).
  cbv zeta in *.
  rewrite (withRetry_loop_fatal fn opts sig _ m last' e Hs Hfn Hfatal) in Ho, Hn, Hi.
  cbn in Ho, Hn, Hi. rewrite app_nil_r in Hn.
  repeat split; [exact Ho|lia|exact Hn].
Qed.

End RetryOneOutcomes.

(** withRetry - an error that is not retried.  After [m] retried failures
    (none for [m = 0]) the operation throws an error that is a cancellation
    ([name] AbortError or [message] Aborted) or that [isRetriableError]
    rejects.  The wrapper throws that very error at once: invocation
    [m + 1] is the last one and the observer hears of the [m] earlier
    failures only. *)
Theorem withRetry_raises_unretried_error (T : Type) (fn : nat -> result T)
        (opts : RetryOptions) (sig : AbortSignal) (err : nat -> error)
        (m : nat) (e : error) :
  quiet_observer opts ->
  signal_quiet sig 0 m ->
  aborted_before sig m = false ->
  (forall k, k < m -> fn k = Throw (err k) /\ retried (err k)) ->
  (Z.of_nat m <= maxRetries opts)%Z ->
  fn m = Throw e ->
  isAbortError e = true \/ isRetriableError e = false ->
  let r := withRetry fn opts sig in
  outcome r = Throw e /\
  invocations r = S m /\
  notified r = backoff_log opts err 0 m.
Proof.
  intros Hq Hsig Hs Hfail Hmax Hfn Hfatal.
  apply withRetry_stops; try assumption. tauto.
Qed.

Lemma withRetry_raises_unretried_error_witness :
  let fn := fun _ : nat => @Throw nat (Error "Invalid API key") in
  let opts := {| maxRetries := 5; baseDelay := 1000;
                 onRetry := Some (fun _ _ _ => None) |} in
  let r := withRetry fn opts no_signal in
  outcome r = Throw (Error "Invalid API key") /\
  invocations r = 1 /\
  notified r = [].
Proof.
  intros fn opts r.
  apply (withRetry_raises_unretried_error nat fn opts no_signal
           (fun _ => Error "Invalid API key") 0 (Error "Invalid API key")).
  - cbn. reflexivity.
  - intros k Hk. lia.
  - reflexivity.
  - intros k Hk. lia.
  - cbn. lia.
  - reflexivity.
  - right. vm_compute. reflexivity.
Defined.

(** withRetry - exhaustion.  With max-retries [M >= 0], an operation whose
    first [M] invocations fail with retried errors and whose invocation
    [M + 1] fails too (with any error) is invoked exactly [M + 1] times; the
    wrapper throws the last error, and the observer has heard of the first
    [M] failures. *)
Theorem withRetry_gives_up_after_max_retries (T : Type) (fn : nat -> result T)
        (opts : RetryOptions) (sig : AbortSignal) (err : nat -> error)
        (e : error) :
  let M := Z.to_nat (maxRetries opts) in
  (0 <= maxRetries opts)%Z ->
  quiet_observer opts ->
  signal_quiet sig 0 M ->
  aborted_before sig M = false ->
  (forall k, k < M -> fn k = Throw (err k) /\ retried (err k)) ->
  fn M = Throw e ->
  let r := withRetry fn opts sig in
  outcome r = Throw e /\
  invocations r = S M /\
  notified r = backoff_log opts err 0 M.
Proof.
  intros M Hpos Hq Hsig Hs Hfail Hfn.
  apply withRetry_stops; try assumption; subst M; [lia|].
  right. right. lia.
Qed.

Lemma withRetry_gives_up_after_max_retries_witness :
  let fn := fun _ : nat => @Throw nat (Error "socket hang up") in
  let opts := {| maxRetries := 2; baseDelay := 1000;
                 onRetry := Some (fun _ _ _ => None) |} in
  let r := withRetry fn opts no_signal in
  outcome r = Throw (Error "socket hang up") /\
  invocations r = 3 /\
  notified r = [(Error "socket hang up", 1, 1000%Z);
                (Error "socket hang up", 2, 2000%Z)].
Proof.
  intros fn opts r.
  apply (withRetry_gives_up_after_max_retries nat fn opts no_signal
           (fun _ => Error "socket hang up") (Error "socket hang up")).
  - cbn. lia.
  - cbn. reflexivity.
  - intros k Hk. split; reflexivity.
  - reflexivity.
  - intros k Hk. split; [reflexivity|]. split; vm_compute; reflexivity.
  - reflexivity.
Defined.

(** withRetry - what no run exceeds.  Whatever the operation, the options
    and the signal: the operation is invoked at most max-retries + 1 times;
    the observer is called at most once per invocation; its calls carry the
    attempt numbers 1, 2, 3, ... and the delays base, 2 * base,
    4 * base, ...; and a value the wrapper returns is the value returned by
    the last invocation. *)
Theorem withRetry_bounded (T : Type) (fn : nat -> result T)
        (opts : RetryOptions) (sig : AbortSignal) :
  let r := withRetry fn opts sig in
  invocations r <= Z.to_nat (maxRetries opts + 1) /\
  length (notified r) <= invocations r /\
  schedule_of (notified r)
  = map (fun k => (S k, (baseDelay opts * 2 ^ Z.of_nat k)%Z))
        (seq 0 (length (notified r))) /\
  (forall v, outcome r = Ok v ->
             0 < invocations r /\ fn (invocations r - 1) = Ok v).
Proof.
  exact (withRetry_loop_bounds fn opts sig (Z.to_nat (maxRetries opts + 1)) 0 None).
Qed.

(** withRetry - cancellation.  After [m] retried failures: if the signal is
    raised when attempt [m + 1] is about to start, the wrapper throws
    Request aborted without invoking the operation again; if attempt
    [m + 1] fails with a retried error while attempts remain and the signal
    cuts the wait short, the observer is told of that failure, the wrapper
    throws Request aborted, and the operation is not invoked again. *)
Theorem withRetry_cancelled (T : Type) (fn : nat -> result T)
        (opts : RetryOptions) (sig : AbortSignal) (err : nat -> error) (m : nat) :
  quiet_observer opts ->
  signal_quiet sig 0 m ->
  (forall k, k < m -> fn k = Throw (err k) /\ retried (err k)) ->
  (Z.of_nat m <= maxRetries opts)%Z ->
  let r := withRetry fn opts sig in
  (aborted_before sig m = true ->
   outcome r = Throw (Error "Request aborted") /\
   invocations r = m /\
   notified r = backoff_log opts err 0 m) /\
  (aborted_before sig m = false ->
   fn m = Throw (err m) -> retried (err m) ->
   (Z.of_nat m < maxRetries opts)%Z ->
   aborted_in_delay sig m = true ->
   outcome r = Throw (Error "Request aborted") /\
   invocations r = S m /\
   notified r = backoff_log opts err 0 (S m)).
Proof.
  intros Hq Hsig Hfail Hmax.
  destruct (withRetry_after_retries fn opts sig err m Hq Hsig Hfail Hmax)
    as (last' & Ho & Hn & Hi).
  cbv zeta in *. split.
  - intros Hs. cbn [withRetry_loop] in Ho, Hn, Hi. rewrite Hs in Ho, Hn, Hi.
    cbn in Ho, Hn, Hi. rewrite app_nil_r in Hn.
    repeat split; [exact Ho|lia|exact Hn].
  - intros Hs Hfn (Hretr & Hab) Hlt Hd.
    cbn [withRetry_loop] in Ho, Hn, Hi.
    rewrite Hs, Hfn, Hab, (geb_false_of_lt _ _ Hlt), Hretr in Ho, Hn, Hi.
    cbn [negb] in Ho, Hn, Hi.
    rewrite (notify_quiet_observer opts _ _ _ Hq) in Ho, Hn, Hi.
    unfold delay in Ho, Hn, Hi. rewrite Hd in Ho, Hn, Hi.
    cbn [outcome notified invocations] in Ho, Hn, Hi.
    repeat split; [exact Ho|lia|].
    rewrite Hn. unfold backoff_log.
    destruct (onRetry opts); [|reflexivity].
    rewrite seq_S, map_app. cbn [map Nat.add].
    replace (m + 1) with (S m) by lia. reflexivity.
Qed.

Lemma withRetry_cancelled_witness :
  let fn := fun _ : nat => @Throw nat (Error "ECONNRESET") in
  let opts := {| maxRetries := 5; baseDelay := 1000;
                 onRetry := Some (fun _ _ _ => None) |} in
  let sig := {| aborted_before := fun k => 1 <=? k;
                aborted_in_delay := fun _ => true |} in
  let r := withRetry fn opts sig in
  (aborted_before sig 0 = true ->
   outcome r = Throw (Error "Request aborted") /\
   invocations r = 0 /\
   notified r = []) /\
  (aborted_before sig 0 = false ->
   fn 0 = Throw (Error "ECONNRESET") -> retried (Error "ECONNRESET") ->
   (0 < 5)%Z ->
   aborted_in_delay sig 0 = true ->
   outcome r = Throw (Error "Request aborted") /\
   invocations r = 1 /\
   notified r = [(Error "ECONNRESET", 1, 1000%Z)]).
Proof.
  intros fn opts sig r.
  apply (withRetry_cancelled nat fn opts sig (fun _ => Error "ECONNRESET") 0).
  - cbn. reflexivity.
  - intros k Hk. lia.
  - intros k Hk. lia.
  - cbn. lia.
Defined.

(** ** More on the streaming retry *)

Section RetryStreamFacts.
Context {T : Type}.
Variable fn : nat -> produced T.
Variable opts : RetryOptions.
Variable sig : AbortSignal.
Variable err : nat -> error.

Lemma nonempty_nil_iff (l : list T) : nonempty l = false <-> l = [].
Proof. destruct l; cbn; split; congruence. Qed.

Lemma withRetryGenerator_loop_retries :
  quiet_observer opts ->
  forall m fuel attempt lastError hasYielded,
    signal_quiet sig attempt m ->
    (Z.of_nat (attempt + m) <= maxRetries opts)%Z ->
    (forall k, attempt <= k < attempt + m ->
       snd (fn k) = Some (err k) /\ retried (err k) /\
       (isStreamInterruption (err k) = true
        \/ (hasYielded = false /\ forall j, attempt <= j <= k -> fst (fn j) = []))) ->
    exists lastError' hasYielded',
      let r := withRetryGenerator_loop fn opts sig (m + fuel) attempt lastError hasYielded in
      let r' := withRetryGenerator_loop fn opts sig fuel (attempt + m) lastError' hasYielded' in
      yielded r = chunks_of fn attempt m ++ yielded r' /\
      finished r = finished r' /\
      gen_notified r = backoff_log opts err attempt m ++ gen_notified r' /\
      gen_invocations r = m + gen_invocations r'.
Proof.
  intros Hq. induction m as [|m IH];
    intros fuel attempt lastError hasYielded Hsig Hmax Hfail.
  - exists lastError, hasYielded. cbv zeta. rewrite Nat.add_0_r.
    unfold backoff_log, chunks_of. destruct (onRetry opts); cbn; auto.
  - destruct (Hfail attempt ltac:(lia)) as (Hend & (Hretr & Hab) & Hres).
    destruct (Hsig attempt ltac:(lia)) as (Hs1 & Hs2).
    destruct (fn attempt) as [chunks ending] eqn:Hfn. cbn [snd] in Hend. subst ending.
    destruct (IH fuel (S attempt) (Some (err attempt)) (hasYielded || nonempty chunks))
      as (last' & h' & Hy & Hf & Hn & Hi).
    + intros k Hk. apply Hsig. lia.
    + replace (S attempt + m) with (attempt + S m) by lia. exact Hmax.
    + intros k Hk. destruct (Hfail k ltac:(lia)) as (H1 & H2 & H3).
      repeat split; try assumption; try apply H2.
      destruct H3 as [H3|(Hh & Hempty)]; [left; exact H3|right].
      split.
      * subst hasYielded. pose proof (Hempty attempt ltac:(lia)) as He.
        rewrite Hfn in He. cbn in He. subst chunks. reflexivity.
      * intros j Hj. apply Hempty. lia.
    + exists last', h'. cbv zeta in *.
      change (S m + fuel) with (S (m + fuel)). cbn [withRetryGenerator_loop].
      rewrite Hs1, Hfn, Hab.
      assert (Hgate : (hasYielded || nonempty chunks)
                      && negb (isStreamInterruption (err attempt)) = false).
      { destruct Hres as [->|(-> & Hempty)]; [apply andb_false_r|].
        pose proof (Hempty attempt ltac:(lia)) as He.
        rewrite Hfn in He. cbn in He. subst chunks. reflexivity. }
      rewrite Hgate,
        (geb_false_of_lt (Z.of_nat attempt) (maxRetries opts) ltac:(lia)), Hretr.
      cbn [negb]. rewrite notify_quiet_observer by exact Hq.
      unfold delay. rewrite Hs2.
      cbn [yielded finished gen_notified gen_invocations].
      replace (attempt + S m) with (S attempt + m) by lia.
      rewrite Hy, Hf, Hn, Hi, backoff_log_cons.
      replace (attempt + 1) with (S attempt) by lia.
      unfold chunks_of. cbn [seq flat_map]. rewrite Hfn. cbn [fst].
      split; [apply app_assoc|]. split; [reflexivity|].
      split; [apply app_assoc|reflexivity].
Qed.

Lemma withRetryGenerator_loop_unobserved :
  onRetry opts = None ->
  forall fuel attempt lastError hasYielded,
    gen_notified (withRetryGenerator_loop fn opts sig fuel attempt lastError hasYielded) = [].
Proof.
  intros Hnone. induction fuel as [|fuel IH]; intros attempt lastError hasYielded;
    cbn [withRetryGenerator_loop]; [reflexivity|].
  destruct (aborted_before sig attempt); [reflexivity|].
  destruct (fn attempt) as [chunks [e|]]; [|reflexivity].
  destruct (isAbortError e); [reflexivity|].
  destruct (_ && _); [reflexivity|].
  destruct (_ >=? _)%Z; [reflexivity|].
  destruct (negb _); [reflexivity|].
  unfold notify. rewrite Hnone.
  destruct (delay sig attempt); [|reflexivity].
  cbn [gen_notified app]. apply IH.
Qed.

Lemma withRetryGenerator_loop_bounds : forall fuel attempt lastError hasYielded,
  let r := withRetryGenerator_loop fn opts sig fuel attempt lastError hasYielded in
  gen_invocations r <= fuel /\
  yielded r = chunks_of fn attempt (gen_invocations r) /\
  length (gen_notified r) <= gen_invocations r /\
  schedule_of (gen_notified r)
  = map (fun k => (S k, nextDelayOf opts k)) (seq attempt (length (gen_notified r))) /\
  (finished r = None ->
   0 < gen_invocations r /\ snd (fn (attempt + gen_invocations r - 1)) = None).
Proof.
  induction fuel as [|fuel IH]; intros attempt lastError hasYielded; cbv zeta;
    cbn [withRetryGenerator_loop].
  - cbn. repeat split; try lia; discriminate.
  - destruct (aborted_before sig attempt);
      [cbn; repeat split; try lia; discriminate|].
    destruct (fn attempt) as [chunks ending] eqn:Hfn.
    assert (Hone : chunks = chunks_of fn attempt 1).
    { unfold chunks_of. cbn. rewrite Hfn, app_nil_r. reflexivity. }
    destruct ending as [e|].
    2:{ cbn. repeat split; try lia; try exact Hone.
        replace (attempt + 1 - 1) with attempt by lia. rewrite Hfn. reflexivity. }
    destruct (isAbortError e);
      [cbn; repeat split; try lia; try exact Hone; discriminate|].
    destruct (_ && _);
      [cbn; repeat split; try lia; try exact Hone; discriminate|].
    destruct (_ >=? _)%Z;
      [cbn; repeat split; try lia; try exact Hone; discriminate|].
    destruct (negb _);
      [cbn; repeat split; try lia; try exact Hone; discriminate|].
    unfold notify. destruct (onRetry opts) as [f|] eqn:Hnone.
    + destruct (f e (attempt + 1) (nextDelayOf opts attempt)) as [thrown|].
      { cbn. replace (attempt + 1) with (S attempt) by lia.
        repeat split; try lia; try exact Hone; discriminate. }
      destruct (delay sig attempt).
      * specialize (IH (S attempt) (Some e) (hasYielded || nonempty chunks)).
        cbv zeta in IH. destruct IH as (Hi & Hy & Hn & Hsched & Hok).
        cbn [yielded finished gen_notified gen_invocations app length].
        split; [lia|]. split.
        { rewrite Hy. unfold chunks_of. cbn [seq flat_map]. rewrite Hfn. reflexivity. }
        split; [lia|]. split.
        { cbn [schedule_of map seq fst snd]. unfold schedule_of in Hsched.
          rewrite Hsched. replace (attempt + 1) with (S attempt) by lia.
          reflexivity. }
        intros Hfin. destruct (Hok Hfin) as (Hpos & Hv). split; [lia|].
        replace (attempt + S (gen_invocations _) - 1)
          with (S attempt + gen_invocations
                  (withRetryGenerator_loop fn opts sig fuel (S attempt) (Some e)
                     (hasYielded || nonempty chunks)) - 1)
          by lia.
        exact Hv.
      * cbn. replace (attempt + 1) with (S attempt) by lia.
        repeat split; try lia; try exact Hone; discriminate.
    + destruct (delay sig attempt).
      * specialize (IH (S attempt) (Some e) (hasYielded || nonempty chunks)).
        cbv zeta in IH. destruct IH as (Hi & Hy & Hn & Hsched & Hok).
        cbn [yielded finished gen_notified gen_invocations app length].
        split; [lia|]. split.
        { rewrite Hy. unfold chunks_of. cbn [seq flat_map]. rewrite Hfn. reflexivity. }
        split; [lia|]. split.
        { rewrite (withRetryGenerator_loop_unobserved Hnone). reflexivity. }
        intros Hfin. destruct (Hok Hfin) as (Hpos & Hv). split; [lia|].
        replace (attempt + S (gen_invocations _) - 1)
          with (S attempt + gen_invocations
                  (withRetryGenerator_loop fn opts sig fuel (S attempt) (Some e)
                     (hasYielded || nonempty chunks)) - 1)
          by lia.
        exact Hv.
      * cbn. repeat split; try lia; try exact Hone; discriminate.
Qed.

End RetryStreamFacts.

(** withRetryGenerator - recovery.  The first [m] invocations of the producer
    fail with retried errors, each of them resumable (the error matches the
    stream-interruption signature, or nothing has been yielded so far), and
    invocation [m + 1] completes; [m] does not exceed max-retries and the
    signal stays quiet.  Then the wrapper completes without raising, after
    exactly [m + 1] invocations, and it has yielded the elements of all these
    invocations in order, those of the failed ones included. *)
Theorem withRetryGenerator_recovers (T : Type) (fn : nat -> produced T)
        (opts : RetryOptions) (sig : AbortSignal) (err : nat -> error) (m : nat) :
  quiet_observer opts ->
  signal_quiet sig 0 m ->
  aborted_before sig m = false ->
  (forall k, k < m ->
     snd (fn k) = Some (err k) /\ retried (err k) /\ resumable fn (err k) k) ->
  (Z.of_nat m <= maxRetries opts)%Z ->
  snd (fn m) = None ->
  let r := withRetryGenerator fn opts sig in
  finished r = None /\
  yielded r = chunks_of fn 0 (S m) /\
  gen_invocations r = S m /\
  gen_notified r = backoff_log opts err 0 m.
Proof.
  intros Hq Hsig Hs Hfail Hmax Hok.
  destruct (withRetryGenerator_loop_retries fn opts sig err Hq m
              (S (Z.to_nat (maxRetries opts) - m)) 0 None false Hsig)
    as (last' & h' & Hy & Hf & Hn & Hi).
  - exact Hmax.
  - intros k Hk. destruct (Hfail k ltac:(lia)) as (H1 & H2 & H3).
    repeat split; try assumption; try apply H2.
    destruct H3 as [H3|H3]; [left; exact H3|right].
    split; [reflexivity|]. intros j Hj. apply H3. lia.
  - cbv zeta in *. unfold withRetryGenerator.
    rewrite (fuel_split opts m Hmax), Hy, Hf, Hn, Hi.
    cbn [Nat.add withRetryGenerator_loop]. rewrite Hs.
    destruct (fn m) as [chunks ending] eqn:Hfn. cbn [snd] in Hok. subst ending.
    cbn [yielded finished gen_notified gen_invocations].
    unfold chunks_of. rewrite seq_S, flat_map_app. cbn [flat_map Nat.add].
    rewrite Hfn, !app_nil_r. cbn [fst].
    repeat split; lia.
Qed.

Lemma withRetryGenerator_recovers_witness :
  let timeout := StreamIdleTimeoutError "No data received for 180000ms" in
  let fn := fun k : nat =>
              match k with
              | O => ([1], Some timeout)
              | S _ => ([2; 3], None)
              end in
  let r := withRetryGenerator fn defaultOptions no_signal in
  finished r = None /\
  yielded r = [1; 2; 3] /\
  gen_invocations r = 2 /\
  gen_notified r = [].
Proof.
  intros timeout fn r.
  apply (withRetryGenerator_recovers nat fn defaultOptions no_signal
           (fun _ => timeout) 1).
  - cbn. exact I.
  - intros k Hk. split; reflexivity.
  - reflexivity.
  - intros k Hk. assert (k = 0) by lia. subst k.
    split; [reflexivity|]. split; [split; vm_compute; reflexivity|].
    left. vm_compute. reflexivity.
  - cbn. lia.
  - reflexivity.
Defined.

(** withRetryGenerator - what every run keeps.  Whatever the producer, the
    options and the signal: the producer is invoked at most
    max-retries + 1 times; what the wrapper yields is exactly what the
    invocations it made yielded, in order, nothing dropped, repeated or
    added; the observer's calls carry the attempt numbers 1, 2, 3, ... and
    the delays base, 2 * base, 4 * base, ...; and when the wrapper completes
    without raising, its last invocation completed. *)
Theorem withRetryGenerator_faithful (T : Type) (fn : nat -> produced T)
        (opts : RetryOptions) (sig : AbortSignal) :
  let r := withRetryGenerator fn opts sig in
  gen_invocations r <= Z.to_nat (maxRetries opts + 1) /\
  yielded r = chunks_of fn 0 (gen_invocations r) /\
  length (gen_notified r) <= gen_invocations r /\
  schedule_of (gen_notified r)
  = map (fun k => (S k, (baseDelay opts * 2 ^ Z.of_nat k)%Z))
        (seq 0 (length (gen_notified r))) /\
  (finished r = None ->
   0 < gen_invocations r /\ snd (fn (gen_invocations r - 1)) = None).
Proof.
  exact (withRetryGenerator_loop_bounds fn opts sig
           (Z.to_nat (maxRetries opts + 1)) 0 None false).
Qed.

(** ** More on the classification of errors *)

Lemma keyword_is_retriable (e : error) (k : string) :
  In k retriable_keywords ->
  Text.includes k (Text.toLowerCase (message e)) = true ->
  isRetriableError e = true.
Proof.
  intros Hk Hin. unfold isRetriableError.
  destruct (String.eqb (name e) "StreamIdleTimeoutError"); [reflexivity|].
  cbv zeta.
  repeat match goal with
         | |- context [Text.includes ?w (Text.toLowerCase (message e))] =>
             let E := fresh "E" in
             destruct (Text.includes w (Text.toLowerCase (message e))) eqn:E;
             cbn [orb]; [reflexivity|]
         end.
  unfold retriable_keywords in Hk. cbn [In] in Hk.
  repeat match type of Hk with
         | _ \/ _ => destruct Hk as [Hk|Hk]; [subst k; congruence|]
         end.
  destruct Hk.
Qed.

Lemma includes_self_app k rest :
  Text.includes k (k +++ rest) = true.
Proof.
  assert (Hs : forall p s, Text.startsWith p (p +++ s) = true).
  { induction p as [|c p IH]; intros s; [reflexivity|].
    cbn. rewrite Ascii.eqb_refl. cbn. apply IH. }
  destruct k as [|c k].
  - cbn [String.append]. destruct rest; reflexivity.
  - change (String c k +++ rest) with (String c (k +++ rest)).
    cbn [Text.includes]. apply orb_true_iff. left.
    apply (Hs (String c k) rest).
Qed.

Lemma length_append (a b : string) :
  String.length (a +++ b) = String.length a + String.length b.
Proof. induction a as [|c a IH]; cbn; [reflexivity|]. rewrite IH. reflexivity. Qed.

Lemma longer_than_aborted (s : string) :
  7 < String.length s -> String.eqb s "Aborted" = false.
Proof.
  intros Hlen. destruct (String.eqb s "Aborted") eqn:E; [|reflexivity].
  apply String.eqb_eq in E. subst s. cbn in Hlen. lia.
Qed.

Lemma plain_error_not_abort (msg : string) :
  7 < String.length msg -> isAbortError (Error msg) = false.
Proof.
  intros Hlen. unfold isAbortError, Error. cbn [name message].
  rewrite (longer_than_aborted msg Hlen). reflexivity.
Qed.

Lemma fetchError_retried vendor rq msg ty :
  retried (Stream.fetchError vendor rq msg ty).
Proof.
  split.
  - apply (keyword_is_retriable _ "network"); [cbn; auto|].
    unfold Stream.fetchError, Error. cbn [message].
    rewrite !toLowerCase_app.
    do 10 apply includes_app_r.
    destruct ty; vm_compute; reflexivity.
  - apply plain_error_not_abort. unfold Stream.fetchError.
    rewrite !length_append. cbn. lia.
Qed.

Lemma statusError_not_abort vendor status statusText errorText :
  isAbortError (Stream.statusError vendor status statusText errorText) = false.
Proof.
  apply plain_error_not_abort. rewrite !length_append. cbn. lia.
Qed.

Lemma statusError_by_status vendor status statusText errorText :
  In status retried_statuses ->
  retried (Stream.statusError vendor status statusText errorText).
Proof.
  intros Hst. split; [|apply statusError_not_abort].
  apply (keyword_is_retriable _ status).
  - unfold retried_statuses in Hst. cbn [In] in Hst. cbn.
    repeat match type of Hst with
           | _ \/ _ => destruct Hst as [Hst|Hst]; [subst status; tauto|]
           end.
    destruct Hst.
  - unfold Stream.statusError, Error. cbn [message].
    rewrite !toLowerCase_app. do 2 apply includes_app_r.
    replace (Text.toLowerCase status) with status.
    + apply includes_self_app.
    + unfold retried_statuses in Hst. cbn [In] in Hst.
      repeat match type of Hst with
             | _ \/ _ => destruct Hst as [Hst|Hst]; [subst status; reflexivity|]
             end.
      destruct Hst.
Qed.

Lemma statusError_by_text vendor status statusText errorText k :
  In k retriable_keywords ->
  Text.includes k (Text.toLowerCase statusText) = true
  \/ Text.includes k (Text.toLowerCase errorText) = true ->
  retried (Stream.statusError vendor status statusText errorText).
Proof.
  intros Hk Hin. split; [|apply statusError_not_abort].
  apply (keyword_is_retriable _ k Hk).
  unfold Stream.statusError, Error. cbn [message].
  rewrite !toLowerCase_app. do 4 apply includes_app_r.
  destruct Hin as [Hin|Hin].
  - apply includes_app_l, Hin.
  - do 2 apply includes_app_r. exact Hin.
Qed.

Lemma idle_timeout_error_resumable (msg : string) :
  retried (StreamIdleTimeoutError msg) /\
  isStreamInterruption (StreamIdleTimeoutError msg) = true.
Proof.
  split; [split|].
  - reflexivity.
  - unfold isAbortError, StreamIdleTimeoutError. cbn [name message].
    rewrite longer_than_aborted; [reflexivity|].
    rewrite length_append. cbn. lia.
  - unfold isStreamInterruption, StreamIdleTimeoutError. cbn [message].
    vm_compute. reflexivity.
Qed.

(** Failure of the transport.  When [fetch] rejects, for whatever reason (a
    refused connection, a malformed address, even a cancellation), each of
    the four adapters raises a plain error whose text lists the possible
    causes, among them that the network is unavailable.  The retry layer
    therefore classifies every such error as retriable and never as a
    cancellation, and the attempt has yielded nothing. *)
Theorem fetch_failure_is_always_retried `{Js.Runtime} (a : adapter)
        (rq : Stream.request) (errorMessage : string) (isTypeError : bool) :
  let e := Stream.fetchError (vendor_of a) rq errorMessage isTypeError in
  attempt a rq (Stream.FetchFailed errorMessage isTypeError) = ([], Sse.Threw e) /\
  isRetriableError e = true /\
  isAbortError e = false.
Proof.
  cbv zeta. split; [destruct a; reflexivity|].
  apply fetchError_retried.
Qed.

(** Responses that are not OK.  Each adapter raises a plain error made of
    the status, the status text and the body of the response, having yielded
    nothing.  The retry layer retries it when the status is 429, 500, 502,
    503 or 504, and also, whatever the status, when the status text or the
    body mentions one of the fragments the classifier looks for (a body that
    says "timeout" or contains "500" makes a 400 response retriable).  It is
    never taken for a cancellation. *)
Theorem http_error_retried_by_status_or_text `{Js.Runtime} (a : adapter)
        (rq : Stream.request) (status statusText errorText : string) (k : string) :
  In status retried_statuses
  \/ (In k retriable_keywords /\
      (Text.includes k (Text.toLowerCase statusText) = true
       \/ Text.includes k (Text.toLowerCase errorText) = true)) ->
  let e := Stream.statusError (vendor_of a) status statusText errorText in
  attempt a rq (Stream.NotOk status statusText errorText) = ([], Sse.Threw e) /\
  isRetriableError e = true /\
  isAbortError e = false.
Proof.
  intros Hcase. cbv zeta. split; [destruct a; reflexivity|].
  destruct Hcase as [Hst|(Hk & Hin)].
  - apply statusError_by_status, Hst.
  - apply (statusError_by_text _ _ _ _ k Hk Hin).
Qed.

Lemma http_error_retried_by_status_or_text_witness :
  let e := Stream.statusError "OpenAI" "400" "Bad Request"
             "max_tokens must not exceed 500" in
  attempt (H := integer_runtime) OpenAIChat
    {| Stream.url := "https://api.openai.com/v1/chat/completions";
       Stream.model := "gpt-4o"; Stream.idleTimeoutMs := 180000 |}
    (Stream.NotOk "400" "Bad Request" "max_tokens must not exceed 500")
  = ([], Sse.Threw e) /\
  isRetriableError e = true /\
  isAbortError e = false.
Proof.
  apply (http_error_retried_by_status_or_text (H := integer_runtime) OpenAIChat
           _ "400" "Bad Request" "max_tokens must not exceed 500" "500").
  right. split; [cbn; tauto|]. right. vm_compute. reflexivity.
Defined.

(** The idle-timeout error.  Whatever its detail text, a
    [StreamIdleTimeoutError] is classified retriable, is not a cancellation,
    and matches the stream-interruption signature: the streaming retry
    wrapper retries it even after part of the output has been yielded.  The
    error the guard captures by default and the one the callbacks of the
    adapters throw are of this kind, for every threshold. *)
Theorem idle_timeout_error_is_resumable (msg : string) (p : Guard.params) (T : Z) :
  (retried (StreamIdleTimeoutError msg) /\
   isStreamInterruption (StreamIdleTimeoutError msg) = true) /\
  (retried (Guard.defaultTimeoutError p) /\
   isStreamInterruption (Guard.defaultTimeoutError p) = true) /\
  (retried (Guard.capturedError (Guard.adapter_params T)) /\
   isStreamInterruption (Guard.capturedError (Guard.adapter_params T)) = true).
Proof.
  split; [apply idle_timeout_error_resumable|].
  split; apply idle_timeout_error_resumable.
Qed.

(** ** The life of a guard *)

Section GuardLife.
Import Guard.
Variable p : Guard.params.

Lemma guard_inv_created now : guard_inv p 0 (createIdleTimeoutGuard now).
Proof. unfold guard_inv. cbn. auto. Qed.

Lemma guard_inv_step n g e :
  guard_inv p n g ->
  guard_inv p (if is_abandons e then S n else n) (guard_step p g e).
Proof.
  intros Hinv. pose proof Hinv as (Herr & Hc & Hr).
  destruct e as [now|now| |]; cbn [guard_step is_abandons].
  - unfold tick. destruct (idleTimer g); [|exact Hinv].
    unfold check. destruct (isAbandoned g) eqn:Hab; [exact Hinv|].
    destruct (_ <=? _)%Z; [exact Hinv|].
    destruct Herr as [Hnone|(_ & Habs)]; [|congruence].
    rewrite Hnone in *. unfold guard_inv, capturedError, cancelReader.
    cbn [timeoutError isAbandoned cancels].
    destruct (onTimeout p) as [[thrown|]|]; destruct (reader p);
      (split; [right; auto|split; [lia|intros; try discriminate; auto]]).
  - unfold guard_inv, touch. cbn [timeoutError isAbandoned cancels]. auto.
  - unfold guard_inv, abandon, cancelReader. cbn [timeoutError isAbandoned cancels].
    split; [destruct Herr as [Hn|(He & _)]; auto|].
    destruct (reader p); split; try lia; intros; try discriminate; auto.
  - unfold guard_inv, dispose. cbn [timeoutError isAbandoned cancels]. auto.
Qed.

Lemma guard_inv_run : forall history n g,
  guard_inv p n g ->
  guard_inv p (n + count_if is_abandons history) (guard_run p history g).
Proof.
  induction history as [|e rest IH]; intros n g Hinv; cbn [guard_run fold_left].
  - unfold count_if. cbn. rewrite Nat.add_0_r. exact Hinv.
  - pose proof (guard_inv_step n g e Hinv) as Hstep.
    specialize (IH _ _ Hstep). unfold guard_run in IH.
    unfold count_if in *. cbn [filter].
    destruct (is_abandons e); cbn [length] in *;
      [replace (n + S (length (filter is_abandons rest)))
         with (S n + length (filter is_abandons rest)) by lia|];
      exact IH.
Qed.

Lemma guard_run_app h1 h2 g :
  guard_run p (h1 ++ h2) g = guard_run p h2 (guard_run p h1 g).
Proof. apply fold_left_app. Qed.

Lemma guard_step_keeps_error g e err :
  timeoutError g = Some err -> isAbandoned g = true ->
  timeoutError (guard_step p g e) = Some err /\
  isAbandoned (guard_step p g e) = true.
Proof.
  intros Herr Hab. destruct e as [now|now| |]; cbn [guard_step].
  - rewrite tick_abandoned by exact Hab. auto.
  - cbn. auto.
  - cbn. auto.
  - cbn. auto.
Qed.

Lemma guard_run_keeps_error : forall history g err,
  timeoutError g = Some err -> isAbandoned g = true ->
  timeoutError (guard_run p history g) = Some err /\
  isAbandoned (guard_run p history g) = true.
Proof.
  induction history as [|e rest IH]; intros g err Herr Hab;
    cbn [guard_run fold_left]; [auto|].
  destruct (guard_step_keeps_error g e err Herr Hab) as (H1 & H2).
  apply (IH _ _ H1 H2).
Qed.

Lemma guard_step_quiet g e :
  idleTimer g = false \/ isAbandoned g = true ->
  timeoutError (guard_step p g e) = timeoutError g /\
  (idleTimer (guard_step p g e) = false \/ isAbandoned (guard_step p g e) = true).
Proof.
  intros Hoff. destruct e as [now|now| |]; cbn [guard_step].
  - destruct Hoff as [Hoff|Hoff].
    + unfold tick. rewrite Hoff. auto.
    + rewrite tick_abandoned by exact Hoff. auto.
  - cbn. auto.
  - cbn. auto.
  - cbn. auto.
Qed.

Lemma guard_run_quiet : forall history g,
  idleTimer g = false \/ isAbandoned g = true ->
  timeoutError (guard_run p history g) = timeoutError g.
Proof.
  induction history as [|e rest IH]; intros g Hoff;
    cbn [guard_run fold_left]; [reflexivity|].
  destruct (guard_step_quiet g e Hoff) as (Herr & Hoff').
  rewrite <- Herr. apply IH, Hoff'.
Qed.

Lemma guard_run_fed : forall history g,
  live g -> fed p (lastChunkTime g) history ->
  live (guard_run p history g) /\ cancels (guard_run p history g) = cancels g.
Proof.
  induction history as [|e rest IH]; intros g Hlive Hfed;
    cbn [guard_run fold_left]; [auto|].
  destruct e as [now|now| |]; cbn [fed] in Hfed; try contradiction;
    cbn [guard_step].
  - destruct Hfed as (Hle & Hrest). rewrite (tick_within p now g Hle).
    apply IH; assumption.
  - destruct Hlive as (H1 & H2 & H3).
    destruct (IH (touch now g)) as (Hl & Hc).
    + repeat split; assumption.
    + exact Hfed.
    + split; [exact Hl|exact Hc].
Qed.

Lemma ticks_overdue : forall times g,
  live g -> overdue p (lastChunkTime g) times ->
  timed_out p g (ticks p times g).
Proof.
  induction times as [|now rest IH]; intros g Hlive Hover.
  - inversion Hover.
  - rewrite ticks_cons.
    destruct (Z_le_gt_dec (now - lastChunkTime g) (idleTimeoutMs p)) as [Hle|Hgt].
    + rewrite (tick_within p now g Hle). apply IH; [exact Hlive|].
      inversion Hover; subst; [lia|assumption].
    + pose proof (tick_beyond p now g Hlive ltac:(lia)) as Hout.
      rewrite ticks_abandoned by apply Hout. exact Hout.
Qed.

End GuardLife.

(** The guard, over its whole life.  Take a guard as
    [createIdleTimeoutGuard] returns it and any history of timer callbacks
    and calls of [touch], [abandon] and [dispose], in any order.  Then
    [getTimeoutError()] is either empty or holds the one error fixed by the
    options (what [onTimeout] threw, else the default idle-timeout error),
    and it is set only on a guard that is abandoned; the timer cancels the
    reader at most once, so the reader is cancelled at most once more than
    [abandon()] was called; without a reader nothing is cancelled. *)
Theorem guard_history_invariant (p : Guard.params) (now : Z)
        (history : list guard_event) :
  let g := guard_run p history (Guard.createIdleTimeoutGuard now) in
  (Guard.getTimeoutError g = None
   \/ (Guard.getTimeoutError g = Some (Guard.capturedError p)
       /\ Guard.isAbandoned g = true)) /\
  Guard.cancels g <= count_if is_abandons history + 1 /\
  (Guard.reader p = false -> Guard.cancels g = 0).
Proof.
  cbv zeta.
  destruct (guard_inv_run p history 0 _ (guard_inv_created p now))
    as (Herr & Hc & Hr).
  cbn [Nat.add] in Hc. unfold Guard.getTimeoutError.
  split; [exact Herr|]. split; [|exact Hr].
  destruct (Guard.timeoutError _); lia.
Qed.

(** A captured timeout is final.  Once [getTimeoutError()] of a guard holds
    an error, every later history of callbacks and method calls leaves the
    same error there and the guard abandoned: no touch revives the guard and
    no later breach replaces the error. *)
Theorem guard_timeout_is_final (p : Guard.params) (now : Z)
        (before after : list guard_event) (e : error) :
  Guard.getTimeoutError (guard_run p before (Guard.createIdleTimeoutGuard now))
  = Some e ->
  let g := guard_run p (before ++ after) (Guard.createIdleTimeoutGuard now) in
  Guard.getTimeoutError g = Some e /\ Guard.isAbandoned g = true.
Proof.
  intros He. cbv zeta. rewrite guard_run_app.
  destruct (guard_inv_run p before 0 _ (guard_inv_created p now))
    as ([Hnone|(_ & Hab)] & _).
  - unfold Guard.getTimeoutError in He. congruence.
  - apply guard_run_keeps_error; assumption.
Qed.

Lemma guard_timeout_is_final_witness :
  let p := Guard.adapter_params 180000 in
  let g := guard_run p ([Fires 5000; Fires 185000] ++ [Touches 186000; Fires 190000])
             (Guard.createIdleTimeoutGuard 0) in
  Guard.getTimeoutError g
  = Some (StreamIdleTimeoutError "No data received for 180000ms")
  /\ Guard.isAbandoned g = true.
Proof.
  intros p g.
  apply (guard_timeout_is_final p 0 [Fires 5000; Fires 185000]
           [Touches 186000; Fires 190000]).
  vm_compute. reflexivity.
Defined.

(** A guard out of service raises nothing.  After [dispose()], and likewise
    after [abandon()], whatever happens later (timer callbacks at any time,
    further calls) never changes what [getTimeoutError()] returns: a stream
    the consumer has given up, or has finished with, cannot turn into an
    idle timeout. *)
Theorem guard_out_of_service_is_silent (p : Guard.params) (g : Guard.state)
        (history : list guard_event) :
  Guard.getTimeoutError (guard_run p history (Guard.dispose g))
  = Guard.getTimeoutError g /\
  Guard.getTimeoutError (guard_run p history (Guard.abandon p g))
  = Guard.getTimeoutError g.
Proof.
  unfold Guard.getTimeoutError. split.
  - rewrite guard_run_quiet; [reflexivity|]. left. reflexivity.
  - rewrite guard_run_quiet; [reflexivity|]. right. reflexivity.
Qed.

(** No cap on the duration of a stream.  As long as every run of the timer
    callback comes within the threshold of the latest [touch()] (of the
    creation, before the first touch), the guard stays in service through
    the whole history, however long it is: it is not abandoned, it holds no
    error and it has not cancelled the reader. *)
Theorem guard_stays_in_service_while_fed (p : Guard.params) (now : Z)
        (history : list guard_event) :
  fed p now history ->
  let g := guard_run p history (Guard.createIdleTimeoutGuard now) in
  Guard.isAbandoned g = false /\
  Guard.getTimeoutError g = None /\
  Guard.cancels g = 0.
Proof.
  intros Hfed. cbv zeta.
  destruct (guard_run_fed p history (Guard.createIdleTimeoutGuard now))
    as ((_ & Hab & Herr) & Hc).
  - repeat split.
  - exact Hfed.
  - repeat split; assumption.
Qed.

Lemma guard_stays_in_service_while_fed_witness :
  let p := Guard.adapter_params 180000 in
  let g := guard_run p
             [Fires 175000; Touches 179000; Fires 355000; Touches 358000;
              Fires 535000]
             (Guard.createIdleTimeoutGuard 0) in
  Guard.isAbandoned g = false /\
  Guard.getTimeoutError g = None /\
  Guard.cancels g = 0.
Proof.
  intros p g.
  apply (guard_stays_in_service_while_fed p 0).
  cbn. repeat split; lia.
Defined.

(** ** A stall seen from the read loop *)

Lemma read_loop_stall (P : Sse.provider) (p : Guard.params)
      (ev : Sse.read_event) (rest : list Sse.read_event) (st : Sse.decoder) :
  Sse.signal_aborted ev = false ->
  (forall e, Sse.read ev <> Sse.ReadFailure e) ->
  Guard.live (Sse.guard st) ->
  overdue p (Guard.lastChunkTime (Sse.guard st)) (Sse.timer_during_read ev) ->
  snd (Sse.read_loop P p (ev :: rest) st) = Sse.Threw (Guard.capturedError p) /\
  snd (fst (Sse.read_loop P p (ev :: rest) st)) = [] /\
  Sse.buffer (fst (fst (Sse.read_loop P p (ev :: rest) st))) = Sse.buffer st.
Proof.
  intros Hsig Hread Hlive Hover.
  destruct (ticks_overdue p _ _ Hlive Hover) as (_ & Herr & _).
  cbn [Sse.read_loop]. rewrite Hsig.
  cbn [Sse.with_guard Sse.guard]. rewrite Herr.
  destruct (Sse.read ev) as [text| |e]; cbn; auto.
  exfalso. apply (Hread e). reflexivity.
Qed.

Lemma gemini_read_loop_stall `{Js.Runtime} (p : Guard.params)
      (ev : Sse.read_event) (rest : list Sse.read_event) (st : Gemini.state) :
  Sse.signal_aborted ev = false ->
  (forall e, Sse.read ev <> Sse.ReadFailure e) ->
  Guard.live (Gemini.guard st) ->
  overdue p (Guard.lastChunkTime (Gemini.guard st)) (Sse.timer_during_read ev) ->
  snd (Gemini.read_loop p (ev :: rest) st) = Gemini.LoopThrow (Guard.capturedError p) /\
  snd (fst (Gemini.read_loop p (ev :: rest) st)) = [] /\
  Gemini.buffer (fst (fst (Gemini.read_loop p (ev :: rest) st))) = Gemini.buffer st.
Proof.
  intros Hsig Hread Hlive Hover.
  destruct (ticks_overdue p _ _ Hlive Hover) as (_ & Herr & _).
  cbn [Gemini.read_loop]. rewrite Hsig.
  cbn [Gemini.with_guard Gemini.guard]. rewrite Herr.
  destruct (Sse.read ev) as [text| |e]; cbn; auto.
  exfalso. apply (Hread e). reflexivity.
Qed.

(** A stall seen from the read loop.  In the read loop of each adapter, take
    a turn at which the signal is not raised, the guard is in service, and
    while the read is pending some timer callback runs later than the
    threshold after the last touch.  Whatever the read then delivers, a chunk
    with complete frames or the end of the stream, the turn yields nothing,
    leaves the line buffer as it was, and raises the idle-timeout error of
    the adapter, [No data received for <threshold>ms], which the retry layer
    retries even after partial output. *)
Theorem stall_during_read_raises_idle_timeout `{Js.Runtime}
        (T : Z) (ev : Sse.read_event) (rest : list Sse.read_event) :
  let p := Guard.adapter_params T in
  let e := StreamIdleTimeoutError
             ("No data received for " +++ string_of_Z T +++ "ms") in
  Sse.signal_aborted ev = false ->
  (forall x, Sse.read ev <> Sse.ReadFailure x) ->
  (retried e /\ isStreamInterruption e = true) /\
  (forall (P : Sse.provider) (st : Sse.decoder),
     Guard.live (Sse.guard st) ->
     overdue p (Guard.lastChunkTime (Sse.guard st)) (Sse.timer_during_read ev) ->
     snd (Sse.read_loop P p (ev :: rest) st) = Sse.Threw e /\
     snd (fst (Sse.read_loop P p (ev :: rest) st)) = [] /\
     Sse.buffer (fst (fst (Sse.read_loop P p (ev :: rest) st))) = Sse.buffer st) /\
  (forall st : Gemini.state,
     Guard.live (Gemini.guard st) ->
     overdue p (Guard.lastChunkTime (Gemini.guard st)) (Sse.timer_during_read ev) ->
     snd (Gemini.read_loop p (ev :: rest) st) = Gemini.LoopThrow e /\
     snd (fst (Gemini.read_loop p (ev :: rest) st)) = [] /\
     Gemini.buffer (fst (fst (Gemini.read_loop p (ev :: rest) st)))
     = Gemini.buffer st).
Proof.
  intros p e Hsig Hread.
  split; [apply idle_timeout_error_resumable|]. split.
  - intros P st Hlive Hover.
    exact (read_loop_stall P p ev rest st Hsig Hread Hlive Hover).
  - intros st Hlive Hover.
    exact (gemini_read_loop_stall p ev rest st Hsig Hread Hlive Hover).
Qed.

Lemma stall_during_read_raises_idle_timeout_witness :
  let p := Guard.adapter_params 180000 in
  let ev := {| Sse.signal_aborted := false;
               Sse.timer_during_read := [175000%Z; 180000%Z; 185000%Z];
               Sse.read := Sse.Chunk (data_frames ["{'type':'ping'}"]);
               Sse.clock := fun _ => 185001%Z;
               Sse.timer_during_yield := fun _ => [] |} in
  let st := {| Sse.buffer := EmptyString; Sse.dataCount := 0;
               Sse.lastEventType := EmptyString;
               Sse.guard := Guard.createIdleTimeoutGuard 0;
               Sse.touched := [] |} in
  snd (Sse.read_loop (Anthropic.provider) p [ev] st)
  = Sse.Threw (StreamIdleTimeoutError "No data received for 180000ms") /\
  snd (fst (Sse.read_loop (Anthropic.provider) p [ev] st)) = [].
Proof.
  intros p ev st.
  destruct (stall_during_read_raises_idle_timeout (H := integer_runtime)
              180000 ev []) as (_ & Hsse & _).
  - reflexivity.
  - intros x. cbn. discriminate.
  - destruct (Hsse Anthropic.provider st) as (H1 & H2 & _).
    + repeat split.
    + unfold overdue. cbn. apply Exists_cons_tl, Exists_cons_tl, Exists_cons_hd. lia.
    + split; [exact H1|exact H2].
Defined.

(** ** The guard and a stalled stream *)

(** C4 - idle-timeout guard with threshold [T = idleTimeoutMs].  Let the
    stall clock of the guard be set at time [L], by
    [createIdleTimeoutGuard] at [L] or by [touch()] at [L] on a guard in
    service, and let the periodic checks run at [first], [first + 5000], ...
    with the first of them within one interval after [L], while nothing
    touches the guard.  Then there is a check, later than [L + T] and at most
    one interval (5000 ms) later than that, such that
    - the checks before it leave the guard as it was: none flags a timeout;
    - at this check [isAbandoned()] becomes true and [getTimeoutError()]
      holds an error, and both stay so at every later check;
    - the error is what the [onTimeout] callback threw, when it throws, and
      otherwise the default [StreamIdleTimeoutError] with the text
      [No data received for <T>ms]; the default error is retriable and
      matches the idle-timeout signature.
    Moreover [touch()] at time [t] sets the stall clock to [t]: checks at
    times up to [t + T] leave the guard as the touch left it. *)
Theorem idle_timeout_guard_detects_stall (p : Guard.params) (g0 g : Guard.state)
        (L first : Z) :
  let T := Guard.idleTimeoutMs p in
  let default :=
    StreamIdleTimeoutError ("No data received for " +++ string_of_Z T +++ "ms") in
  (0 <= T)%Z ->
  (L < first <= L + Guard.CHECK_INTERVAL_MS)%Z ->
  Guard.live g0 ->
  g = Guard.createIdleTimeoutGuard L \/ g = Guard.touch L g0 ->
  (exists n : nat,
     let at_check := (first + Guard.CHECK_INTERVAL_MS * Z.of_nat n)%Z in
     let g' := Guard.ticks p (Guard.periodic first (S n)) g in
     (L + T < at_check <= L + T + Guard.CHECK_INTERVAL_MS)%Z /\
     Guard.ticks p (Guard.periodic first n) g = g /\
     Guard.isAbandoned g = false /\
     Guard.getTimeoutError g = None /\
     Guard.isAbandoned g' = true /\
     Guard.getTimeoutError g'
     = Some (match Guard.onTimeout p with
             | Some (Some thrown) => thrown
             | _ => default
             end) /\
     (forall later : list Z, Guard.ticks p later g' = g')) /\
  (isRetriableError default = true /\
   name default = "StreamIdleTimeoutError" /\
   isStreamInterruption default = true) /\
  (forall (t : Z) (times : list Z),
     Forall (fun now => (now <= t + T)%Z) times ->
     Guard.lastChunkTime (Guard.touch t g0) = t /\
     Guard.ticks p times (Guard.touch t g0) = Guard.touch t g0).
Proof.
  intros T default HT Hfirst Hlive0 Hg.
  assert (Hlive : Guard.live g /\ Guard.lastChunkTime g = L).
  { destruct Hg as [-> | ->].
    - repeat split.
    - destruct Hlive0 as (H1 & H2 & H3). repeat split; assumption. }
  destruct Hlive as (Hlive & HL).
  split; [|split].
  - set (n := Z.to_nat ((L + T - first + Guard.CHECK_INTERVAL_MS)
                          / Guard.CHECK_INTERVAL_MS)).
    exists n. cbv zeta.
    assert (Hn : (L + T < first + Guard.CHECK_INTERVAL_MS * Z.of_nat n
                  <= L + T + Guard.CHECK_INTERVAL_MS)%Z).
    { subst n. unfold Guard.CHECK_INTERVAL_MS in *.
      set (d := (L + T - first + 5000)%Z).
      assert (0 <= d)%Z by (subst d; lia).
      rewrite Z2Nat.id by (apply Z.div_pos; lia).
      pose proof (Z.div_mod d 5000 ltac:(lia)) as Hdm.
      pose proof (Z.mod_pos_bound d 5000 ltac:(lia)) as Hb.
      subst d. lia. }
    split; [exact Hn|].
    split.
    { apply ticks_within.
      assert (Hb : Forall (fun now => (now <= L + T)%Z) (Guard.periodic first n)).
      { apply periodic_bound. lia. }
      revert Hb. apply Forall_impl. intros now Hnow. rewrite HL. fold T. lia. }
    destruct Hlive as (Ht & Ha & He).
    split; [exact Ha|]. split; [exact He|].
    destruct (periodic_checks_detect p n first g (conj Ht (conj Ha He)))
      as (Hab & Herr & _).
    + rewrite HL. fold T. lia.
    + split; [exact Hab|]. split; [exact Herr|].
      intros later. apply ticks_abandoned. exact Hab.
  - pose proof (idle_timeout_error_resumable
                  ("No data received for " +++ string_of_Z T +++ "ms"))
      as ((Hr & _) & Hs).
    split; [exact Hr|]. split; [reflexivity|exact Hs].
  - intros t times Hall. split; [reflexivity|].
    apply ticks_within.
    revert Hall. apply Forall_impl. intros now Hnow. cbn. fold T. lia.
Qed.

Lemma idle_timeout_guard_detects_stall_witness :
  let p := Guard.adapter_params 180000 in
  let g0 := Guard.createIdleTimeoutGuard 0 in
  let g := Guard.touch 60000 g0 in
  let default := StreamIdleTimeoutError "No data received for 180000ms" in
  (exists n : nat,
     let at_check := (65000 + Guard.CHECK_INTERVAL_MS * Z.of_nat n)%Z in
     let g' := Guard.ticks p (Guard.periodic 65000 (S n)) g in
     (60000 + 180000 < at_check <= 60000 + 180000 + Guard.CHECK_INTERVAL_MS)%Z /\
     Guard.ticks p (Guard.periodic 65000 n) g = g /\
     Guard.isAbandoned g = false /\
     Guard.getTimeoutError g = None /\
     Guard.isAbandoned g' = true /\
     Guard.getTimeoutError g' = Some default /\
     (forall later : list Z, Guard.ticks p later g' = g')) /\
  (isRetriableError default = true /\
   name default = "StreamIdleTimeoutError" /\
   isStreamInterruption default = true) /\
  (forall (t : Z) (times : list Z),
     Forall (fun now => (now <= t + 180000)%Z) times ->
     Guard.lastChunkTime (Guard.touch t g0) = t /\
     Guard.ticks p times (Guard.touch t g0) = Guard.touch t g0).
Proof.
  intros p g0 g default.
  apply (idle_timeout_guard_detects_stall p g0 g 60000 65000).
  - cbn. lia.
  - unfold Guard.CHECK_INTERVAL_MS. lia.
  - repeat split.
  - right. reflexivity.
Defined.

(** C4, as the claim words it, fails for a callback that throws.  A guard
    whose [onTimeout] throws [Error: quota exceeded] is created at time 0
    with threshold 180000 and never touched; after the checks at 5000,
    10000, ..., 185000 it is abandoned and [getTimeoutError()] holds the
    error of the callback, which is not retriable and is no idle-timeout
    error. *)
Lemma idle_timeout_guard_callback_error :
  let p := {| Guard.reader := true;
              Guard.onTimeout := Some (Some (Error "quota exceeded"));
              Guard.idleTimeoutMs := 180000 |} in
  let g' := Guard.ticks p (Guard.periodic 5000 37) (Guard.createIdleTimeoutGuard 0) in
  Guard.isAbandoned g' = true /\
  Guard.getTimeoutError g' = Some (Error "quota exceeded") /\
  isRetriableError (Error "quota exceeded") = false /\
  isStreamInterruption (Error "quota exceeded") = false /\
  name (Error "quota exceeded") <> "StreamIdleTimeoutError".
Proof.
  cbv zeta. repeat split; try (vm_compute; reflexivity).
  vm_compute. discriminate.
Qed.

(** ** A tool call streamed by the Anthropic endpoint *)

(** C7 - the Anthropic scenario.  The frames: start of a tool-use block with
    id [t1], the argument fragments [{"a":1] and [}], end of the block, and a
    message delta with five output tokens, delivered in one chunk before the
    stream ends.  The producer then yields, in this order: a tool-call delta
    for the start of the block (it carries the name of the block, absent
    here), one tool-call delta for each argument fragment, the tool-calls
    event with the single call [t1] whose arguments are the text [{"a":1}],
    the usage event (no prompt tokens, five completion tokens, their sum as
    total), and [done]; it ends normally.  When the second fragment comes
    without its type, as the scenario abbreviates it, that fragment is
    ignored: one tool-call delta less, and the arguments [{"a":1] are
    completed by the repair of the closing brace, so that the tool-calls
    event is the same. *)
Theorem anthropic_tool_call_scenario `{Js.Runtime} (rq : Stream.request) (now : Z) :
  attempt AnthropicMessages rq (delivered now tool_call_frames)
  = ([ Stream.ToolCallDelta None;
       Stream.ToolCallDelta (Some (JStr (Text.qq "{'a':1")));
       Stream.ToolCallDelta (Some (JStr "}"));
       Stream.ToolCalls [scenario_call];
       Stream.Usage scenario_usage;
       Stream.Done None None ], Sse.Returned)
  /\
  attempt AnthropicMessages rq (delivered now tool_call_frames_untyped)
  = ([ Stream.ToolCallDelta None;
       Stream.ToolCallDelta (Some (JStr (Text.qq "{'a':1")));
       Stream.ToolCalls [scenario_call];
       Stream.Usage scenario_usage;
       Stream.Done None None ], Sse.Returned).
Proof.
  split; vm_compute; reflexivity.
Qed.

(** C7, as the claim words it, fails: on the frames of the scenario the
    producer yields three tool-call deltas, not one. *)
Lemma anthropic_tool_call_scenario_deltas :
  let rq := {| Stream.url := "https://api.anthropic.com/v1/messages";
               Stream.model := "claude"; Stream.idleTimeoutMs := 180000 |} in
  let out := fst (attempt (H := integer_runtime) AnthropicMessages rq
                    (delivered 0 tool_call_frames)) in
  count_if Stream.is_tool_call_delta out = 3 /\
  count_if Stream.is_tool_call_delta out <> 1 /\
  count_if Stream.is_tool_calls out = 1 /\
  count_if Stream.is_usage out = 1 /\
  count_if Stream.is_done out = 1.
Proof.
  cbv zeta. repeat split; try (vm_compute; reflexivity).
  vm_compute. discriminate.
Qed.

(** ** The stall clock and the frames that move it *)

Lemma ticks_clock p times : forall g,
  Guard.lastChunkTime (Guard.ticks p times g) = Guard.lastChunkTime g.
Proof.
  induction times as [|now times IH]; intros g; [reflexivity|].
  rewrite ticks_cons, IH. unfold Guard.tick, Guard.check.
  destruct (Guard.idleTimer g); [|reflexivity].
  destruct (Guard.isAbandoned g); [reflexivity|].
  destruct (_ <=? _)%Z; reflexivity.
Qed.

Section ClockFacts.
Variable P : Sse.provider.
Variable p : Guard.params.
Variable created : Z.

Let ok (st : Sse.decoder) : Prop := clock_ok created (Sse.touched st) (Sse.guard st).

Lemma parse_lines_clock ev : forall lines j st,
  ok st -> ok (fst (fst (Sse.parse_lines P p ev j lines st))).
Proof.
  induction lines as [|l lines IH]; intros j st Hst; [exact Hst|].
  cbn [Sse.parse_lines].
  destruct (Sse.classify l) as [| |ty|text|];
    try (apply IH; assumption); try exact Hst.
  destruct (success _); [|apply IH; assumption].
  destruct (Sse.hasBusinessDelta P _) as [delta|e] eqn:Hd; [|exact Hst].
  assert (Hst1 : clock_ok created
            (if delta
             then Sse.touched st ++ [data (parseJsonWithFix text Sse.frameOptions)]
             else Sse.touched st)
            (if delta then Guard.touch (Sse.clock ev j) (Sse.guard st)
             else Sse.guard st)).
  { destruct delta; [|exact Hst].
    intros Hnil. destruct (Sse.touched st); discriminate. }
  destruct (Guard.isAbandoned _); [apply IH; exact Hst1|].
  match goal with
  | |- context [Sse.parse_lines P p ev (S j) lines ?s] =>
      specialize (IH (S j) s); destruct (Sse.parse_lines P p ev (S j) lines s)
        as [[st' out'] e']
  end.
  cbn [fst] in *. apply IH. unfold ok, Sse.with_guard. cbn [Sse.touched Sse.guard].
  intros Hnil. rewrite ticks_clock. apply Hst1, Hnil.
Qed.

Lemma read_loop_clock : forall script st,
  ok st -> ok (fst (fst (Sse.read_loop P p script st))).
Proof.
  induction script as [|ev script IH]; intros st Hst; [exact Hst|].
  cbn [Sse.read_loop].
  destruct (Sse.signal_aborted ev); [exact Hst|].
  set (st0 := Sse.with_guard _ st).
  assert (Hst0 : ok st0).
  { subst st0. unfold ok, Sse.with_guard. cbn [Sse.touched Sse.guard].
    intros Hnil. rewrite ticks_clock. apply Hst, Hnil. }
  clearbody st0.
  assert (Hgo : forall answer : Sse.read_result,
    ok (fst (fst
      match Guard.getTimeoutError (Sse.guard st0) with
      | Some timeoutError => (st0, [], Sse.Threw timeoutError)
      | None =>
          if Guard.isAbandoned (Sse.guard st0) then Sse.read_loop P p script st0
          else
            match answer with
            | Sse.Chunk text =>
                let (lines, buffer') :=
                  Text.pop (Text.split_lines (Sse.buffer st0 +++ text)) in
                let st :=
                  {| Sse.buffer := buffer'; Sse.dataCount := Sse.dataCount st0;
                     Sse.lastEventType := Sse.lastEventType st0;
                     Sse.guard := Sse.guard st0; Sse.touched := Sse.touched st0 |} in
                match Sse.parse_lines P p ev 0 lines st with
                | (st', out, Sse.NextRead) =>
                    let '(st'', out', e) := Sse.read_loop P p script st' in
                    (st'', out ++ out', e)
                | (st', out, Sse.Finish) => (st', out, Sse.Returned)
                | (st', out, Sse.Fail e) => (st', out, Sse.Threw e)
                end
            | _ =>
                if negb (Text.is_empty (Text.trim (Sse.buffer st0)))
                then (st0, [],
                      Sse.Threw (Sse.incompleteError P (Sse.dataCount st0)
                                   (Sse.lastEventType st0) (Sse.buffer st0)))
                else (st0, [], Sse.Returned)
            end
      end))).
  { intros answer.
    destruct (Guard.getTimeoutError _); [exact Hst0|].
    destruct (Guard.isAbandoned _); [apply IH, Hst0|].
    destruct answer as [text| |e].
    - destruct (Text.pop _) as [lines buffer']. cbv beta iota zeta.
      match goal with
      | |- context [Sse.parse_lines P p ev 0 lines ?s] =>
          pose proof (parse_lines_clock ev lines 0 s Hst0) as Hl;
          destruct (Sse.parse_lines P p ev 0 lines s) as [[st' out] e]
      end.
      cbn [fst] in Hl. destruct e; try exact Hl.
      specialize (IH st' Hl).
      destruct (Sse.read_loop P p script st') as [[st'' out'] e']. exact IH.
    - destruct (negb _); exact Hst0.
    - destruct (negb _); exact Hst0. }
  destruct (Sse.read ev) as [text| |e];
    [exact (Hgo (Sse.Chunk text))|exact (Hgo Sse.EndOfStream)|exact Hst0].
Qed.

Lemma parseSSEStream_clock script :
  ok (fst (fst (Sse.parseSSEStream P p created script))).
Proof.
  unfold Sse.parseSSEStream.
  match goal with
  | |- context [Sse.read_loop P p script ?s] =>
      assert (H0 : ok s) by (intros _; reflexivity);
      pose proof (read_loop_clock script s H0) as Hl;
      destruct (Sse.read_loop P p script s) as [[st out] e]
  end.
  exact Hl.
Qed.

End ClockFacts.
